(** * BAO profile tree: build, prune, depth filter and export

    Shallow embedding of [MODEL/bao_beslisboom_sourcecode.py].

    Conventions of the embedding
    - Python exceptions are values of [exn]; a function that can raise
      returns a [result].
    - Spark doubles and Python floats are IEEE 754 binary64 numbers: the
      primitive type [float], with its correctly rounded operations.
    - NULL in a Spark column and [None] in Python are [None] of an option
      type, or [VNull] for a feature value.
    - A [networkx.DiGraph] is a record holding the node dictionary and the
      edges, both in insertion order (networkx iterates its dictionaries in
      insertion order).
    - The node attributes [label] and the edge attribute [color] are
      presentation only and are left out; [fillcolor] is kept. *)

From Stdlib Require Import ZArith String Ascii List PrimFloat Uint63.
From stdpp Require Import base decidable option list gmap strings sorting pretty lexico.

Open Scope string_scope.
Open Scope Z_scope.
Open Scope nat_scope.
Open Scope list_scope.

(** * Part I: the program *)

(** ** Exceptions and results *)

Inductive exn : Type :=
  | IndexError
  | KeyError (k : string)
  | ValueError (k : string)
  | AttributeError
  | TypeError
  | NetworkXError
  | NetworkXNoPath
  | NodeNotFound.

Inductive result (A : Type) : Type :=
  | Ok (a : A)
  | Raise (e : exn).
Arguments Ok {A} a.
Arguments Raise {A} e.

Definition rbind {A B} (r : result A) (k : A → result B) : result B :=
  match r with
  | Ok a => k a
  | Raise e => Raise e
  end.

Notation "x ←ᵣ r ;; k" := (rbind r (λ x, k))
  (at level 100, r at next level, k at level 200, right associativity,
   format "x  ←ᵣ  r  ;;  '/' k").

Definition of_option {A} (o : option A) (e : exn) : result A :=
  match o with
  | Some a => Ok a
  | None => Raise e
  end.

Fixpoint mapM_r {A B} (f : A → result B) (l : list A) : result (list B) :=
  match l with
  | [] => Ok []
  | x :: l' => y ←ᵣ f x ;; ys ←ᵣ mapM_r f l' ;; Ok (y :: ys)
  end.

(** A Python [for] loop whose body updates a state and may raise. *)
Fixpoint foldM_r {A S} (f : S → A → result S) (s : S) (l : list A) : result S :=
  match l with
  | [] => Ok s
  | x :: l' => s' ←ᵣ f s x ;; foldM_r f s' l'
  end.

(** ** Python dictionaries and [enumerate] *)

(** [d[k] = v] on a Python dictionary, kept as an association list in
    insertion order: an existing key keeps its place. *)
Fixpoint dict_set {V} (d : list (string * V)) (k : string) (v : V)
    : list (string * V) :=
  match d with
  | [] => [(k, v)]
  | (k', v') :: d' =>
      if bool_decide (k' = k) then (k, v) :: d' else (k', v') :: dict_set d' k v
  end.

Fixpoint dict_get {V} (d : list (string * V)) (k : string) : option V :=
  match d with
  | [] => None
  | (k', v) :: d' => if bool_decide (k' = k) then Some v else dict_get d' k
  end.

(** [enumerate(l)], counting from [i]. *)
Fixpoint enumerate_from {A} (i : nat) (l : list A) : list (nat * A) :=
  match l with
  | [] => []
  | x :: l' => (i, x) :: enumerate_from (S i) l'
  end.

(** ** Nodes and graphs *)

Inductive ProfileType : Type := chance | inbetween | risk.

Global Instance ProfileType_eq_dec : EqDecision ProfileType.
Proof. solve_decision. Defined.

(** The root node is created without [hit_percentage],
    [refusal_percentage] and [hit_counts]; these are optional keys of the
    attribute dictionary. *)
Record NodeAttrs : Type := {
  fillcolor : string;
  depth : nat;
  key : string;
  profile_type : ProfileType;
  total_count : Z;
  hit_percentage : option float;
  refusal_percentage : option float;
  hit_counts : option (list (string * option Z))
}.

Record DiGraph : Type := {
  nodes : list (nat * NodeAttrs);
  edges : list (nat * nat)
}.

Definition empty_graph : DiGraph := {| nodes := []; edges := [] |}.

(** [tree.nodes()] *)
Definition node_ids (t : DiGraph) : list nat := (nodes t).*1.

(** [len(tree)] *)
Definition node_count (t : DiGraph) : nat := length (nodes t).

Definition has_node (t : DiGraph) (x : nat) : bool :=
  bool_decide (x ∈ node_ids t).

(** [tree.nodes[x]] *)
Definition node_attrs (t : DiGraph) (x : nat) : option NodeAttrs :=
  snd <$> find (λ n, bool_decide (n.1 = x)) (nodes t).

Definition get_attrs (t : DiGraph) (x : nat) : result NodeAttrs :=
  of_option (node_attrs t x) (KeyError (pretty x)).

(** [tree.successors(x)] and [tree.predecessors(x)] *)
Definition successors (t : DiGraph) (x : nat) : list nat :=
  (filter (λ e, e.1 = x) (edges t)).*2.

Definition predecessors (t : DiGraph) (x : nat) : list nat :=
  (filter (λ e, e.2 = x) (edges t)).*1.

Definition out_degree (t : DiGraph) (x : nat) : nat := length (successors t x).
Definition in_degree (t : DiGraph) (x : nat) : nat := length (predecessors t x).

(** [tree.out_degree(x)] called on a single node: the degree view is built
    for the node, which fails for an integer that is not a node. *)
Definition out_degree_of (t : DiGraph) (x : nat) : result nat :=
  if has_node t x then Ok (out_degree t x) else Raise NetworkXError.

(** [tree.add_node(x, **attrs)]: a new node goes to the end of the node
    dictionary, an existing one has its attributes replaced in place. *)
Definition add_node (t : DiGraph) (x : nat) (a : NodeAttrs) : DiGraph :=
  {| nodes := if has_node t x
              then (λ n, if bool_decide (n.1 = x) then (x, a) else n) <$> nodes t
              else nodes t ++ [(x, a)];
     edges := edges t |}.

(** [tree.add_edge(u, v)] between two existing nodes. *)
Definition add_edge (t : DiGraph) (u v : nat) : DiGraph :=
  {| nodes := nodes t;
     edges := if bool_decide ((u, v) ∈ edges t) then edges t
              else edges t ++ [(u, v)] |}.

Definition drop_node (t : DiGraph) (x : nat) : DiGraph :=
  {| nodes := filter (λ n, n.1 ≠ x) (nodes t);
     edges := filter (λ e, e.1 ≠ x ∧ e.2 ≠ x) (edges t) |}.

(** [tree.remove_node(x)]: removes the node and every edge at it, raises
    when the node is not in the graph. *)
Definition remove_node (t : DiGraph) (x : nat) : result DiGraph :=
  if has_node t x then Ok (drop_node t x) else Raise NetworkXError.

(** ** The classification rule (the [profile_type] column)

    Spark evaluates column expressions in three-valued logic: a
    comparison with NULL is NULL, and [F.when] takes a branch only when
    its condition is TRUE. [None] stands for NULL. *)

(** [x <= y] on two Spark doubles.  Spark orders doubles as IEEE 754
    does, except for NaN, which it takes to be equal to itself and larger
    than every other value (NaN semantics of Spark SQL). *)
Definition double_le (x y : float) : bool :=
  if PrimFloat.is_nan y then true
  else if PrimFloat.is_nan x then false
  else PrimFloat.leb x y.

Definition sql_le (a b : option float) : option bool :=
  match a, b with
  | Some x, Some y => Some (double_le x y)
  | _, _ => None
  end.

Definition sql_ge (a b : option float) : option bool := sql_le b a.

Definition sql_and (a b : option bool) : option bool :=
  match a, b with
  | Some false, _ | _, Some false => Some false
  | Some true, Some true => Some true
  | _, _ => None
  end.

(** [F.when(c1, v1).when(c2, v2)...otherwise(v)] *)
Fixpoint case_when {A} (branches : list (option bool * A)) (otherwise : A) : A :=
  match branches with
  | [] => otherwise
  | (Some true, v) :: _ => v
  | _ :: branches' => case_when branches' otherwise
  end.

(** The thresholds are Python floats (an [int] below [2 ^ 53] gives the
    same quotient when divided by 100); the minimal group size is an
    [int]. *)
Record Thresholds : Type := {
  chance_max_hit_percentage_threshold : float;
  chance_max_refusal_percentage_threshold : float;
  risk_min_hit_percentage_threshold : float;
  minimal_groupsize : Z
}.

(** The two columns are doubles ([F.avg]); each threshold is divided by
    100 in Python, and the quotient, a float, is the literal that Spark
    compares the column with. *)
Definition profile_type_column (th : Thresholds)
    (applicant_hit_percentage refusal_percentage : option float) : ProfileType :=
  case_when
    [ (sql_and
         (sql_le applicant_hit_percentage
                 (Some (chance_max_hit_percentage_threshold th / 100)%float))
         (sql_le refusal_percentage
                 (Some (chance_max_refusal_percentage_threshold th / 100)%float)),
       chance);
      (sql_ge applicant_hit_percentage
              (Some (risk_min_hit_percentage_threshold th / 100)%float),
       risk) ]
    inbetween.

(** ** Node hashes: [hashlib.md5(json.dumps(d).encode("utf-8")).hexdigest()] *)

(** A feature value read from a collected row.  The feature columns are
    of a string or an integral Spark type: the value is a Python [str]
    (code points below 256, one per character), a Python [int], or [None]
    for NULL. *)
Inductive Value : Type :=
  | VStr (s : string)
  | VInt (z : Z)
  | VNull.

Global Instance Value_eq_dec : EqDecision Value.
Proof. solve_decision. Defined.

Definition hex_digit (n : Z) : ascii :=
  nth (Z.to_nat n) (list_ascii_of_string "0123456789abcdef") "0"%char.

Definition hex_byte (b : Z) : string :=
  String (hex_digit (b / 16)) (String (hex_digit (b mod 16)) "").

Definition quote_char : ascii := ascii_of_nat 34.
Definition backslash : ascii := ascii_of_nat 92.

(** One character of a JSON string with [ensure_ascii=True]. *)
Definition json_escape_char (c : ascii) : string :=
  let n := Z.of_N (N_of_ascii c) in
  if (n =? 34)%Z then String backslash (String quote_char "")
  else if (n =? 92)%Z then String backslash (String backslash "")
  else if (n =? 10)%Z then String backslash "n"
  else if (n =? 13)%Z then String backslash "r"
  else if (n =? 9)%Z then String backslash "t"
  else if (n =? 8)%Z then String backslash "b"
  else if (n =? 12)%Z then String backslash "f"
  else if ((32 <=? n) && (n <=? 126))%Z then String c ""
  else String backslash ("u00" +:+ hex_byte n).

Fixpoint json_escape (s : string) : string :=
  match s with
  | EmptyString => ""
  | String c s' => json_escape_char c +:+ json_escape s'
  end.

Definition json_string (s : string) : string :=
  String quote_char (json_escape s +:+ String quote_char "").

Definition json_value (v : Value) : string :=
  match v with
  | VStr s => json_string s
  | VInt z => pretty z
  | VNull => "null"
  end.

Fixpoint json_items (d : list (string * Value)) : string :=
  match d with
  | [] => ""
  | [(k, v)] => json_string k +:+ ": " +:+ json_value v
  | (k, v) :: d' => json_string k +:+ ": " +:+ json_value v +:+ ", " +:+ json_items d'
  end.

(** [json.dumps(d)] for a dictionary of feature values. *)
Definition json_dumps (d : list (string * Value)) : string :=
  "{" +:+ json_items d +:+ "}".

(** [s.encode("utf-8")] for a string of ASCII characters. *)
Definition encode_utf8 (s : string) : list Z :=
  (λ c, Z.of_N (N_of_ascii c)) <$> list_ascii_of_string s.

(** *** MD5 (RFC 1321) on 32-bit words kept in [Z] *)

Definition add32 (x y : Z) : Z := ((x + y) mod 2 ^ 32)%Z.

Definition not32 (x : Z) : Z := Z.lxor x 0xffffffff.

Definition rotl32 (x c : Z) : Z :=
  Z.lor (Z.shiftl x c mod 2 ^ 32)%Z (Z.shiftr x (32 - c)).

Definition md5_K : list Z := [
  0xd76aa478; 0xe8c7b756; 0x242070db; 0xc1bdceee;
  0xf57c0faf; 0x4787c62a; 0xa8304613; 0xfd469501;
  0x698098d8; 0x8b44f7af; 0xffff5bb1; 0x895cd7be;
  0x6b901122; 0xfd987193; 0xa679438e; 0x49b40821;
  0xf61e2562; 0xc040b340; 0x265e5a51; 0xe9b6c7aa;
  0xd62f105d; 0x02441453; 0xd8a1e681; 0xe7d3fbc8;
  0x21e1cde6; 0xc33707d6; 0xf4d50d87; 0x455a14ed;
  0xa9e3e905; 0xfcefa3f8; 0x676f02d9; 0x8d2a4c8a;
  0xfffa3942; 0x8771f681; 0x6d9d6122; 0xfde5380c;
  0xa4beea44; 0x4bdecfa9; 0xf6bb4b60; 0xbebfbc70;
  0x289b7ec6; 0xeaa127fa; 0xd4ef3085; 0x04881d05;
  0xd9d4d039; 0xe6db99e5; 0x1fa27cf8; 0xc4ac5665;
  0xf4292244; 0x432aff97; 0xab9423a7; 0xfc93a039;
  0x655b59c3; 0x8f0ccc92; 0xffeff47d; 0x85845dd1;
  0x6fa87e4f; 0xfe2ce6e0; 0xa3014314; 0x4e0811a1;
  0xf7537e82; 0xbd3af235; 0x2ad7d2bb; 0xeb86d391 ]%Z.

Definition md5_s : list Z := [
  7; 12; 17; 22; 7; 12; 17; 22; 7; 12; 17; 22; 7; 12; 17; 22;
  5; 9; 14; 20; 5; 9; 14; 20; 5; 9; 14; 20; 5; 9; 14; 20;
  4; 11; 16; 23; 4; 11; 16; 23; 4; 11; 16; 23; 4; 11; 16; 23;
  6; 10; 15; 21; 6; 10; 15; 21; 6; 10; 15; 21; 6; 10; 15; 21 ]%Z.

Definition md5_init : Z * Z * Z * Z :=
  (0x67452301, 0xefcdab89, 0x98badcfe, 0x10325476)%Z.

(** Little-endian bytes of a number and back. *)
Fixpoint le_bytes (k : nat) (n : Z) : list Z :=
  match k with
  | 0 => []
  | S k' => (n mod 256)%Z :: le_bytes k' (n / 256)%Z
  end.

Fixpoint le_word (bs : list Z) : Z :=
  match bs with
  | [] => 0%Z
  | b :: bs' => (b + 256 * le_word bs')%Z
  end.

Fixpoint le_words (n : nat) (bs : list Z) : list Z :=
  match n with
  | 0 => []
  | S n' => le_word (take 4 bs) :: le_words n' (drop 4 bs)
  end.

Fixpoint md5_chunks (fuel : nat) (bs : list Z) : list (list Z) :=
  match fuel, bs with
  | S fuel', _ :: _ => take 64 bs :: md5_chunks fuel' (drop 64 bs)
  | _, _ => []
  end.

Definition md5_padding (msg : list Z) : list Z :=
  let len := Z.of_nat (length msg) in
  msg ++ [0x80%Z] ++ replicate (Z.to_nat ((55 - len) mod 64)) 0%Z
      ++ le_bytes 8 (8 * len).

Definition md5_round (M : list Z) (st : Z * Z * Z * Z) (i : nat) : Z * Z * Z * Z :=
  let '(A, B, C, D) := st in
  let iz := Z.of_nat i in
  let '(F, g) :=
    if i <? 16 then (Z.lor (Z.land B C) (Z.land (not32 B) D), iz)
    else if i <? 32 then (Z.lor (Z.land D B) (Z.land (not32 D) C), (5 * iz + 1) mod 16)%Z
    else if i <? 48 then (Z.lxor B (Z.lxor C D), (3 * iz + 5) mod 16)%Z
    else (Z.lxor C (Z.lor B (not32 D)), (7 * iz) mod 16)%Z in
  let F' := add32 (add32 (add32 F A) (nth i md5_K 0%Z)) (nth (Z.to_nat g) M 0%Z) in
  (D, add32 B (rotl32 F' (nth i md5_s 0%Z)), B, C).

Definition md5_chunk (st : Z * Z * Z * Z) (chunk : list Z) : Z * Z * Z * Z :=
  let '(A, B, C, D) := fold_left (md5_round (le_words 16 chunk)) (seq 0 64) st in
  let '(a0, b0, c0, d0) := st in
  (add32 a0 A, add32 b0 B, add32 c0 C, add32 d0 D).

Definition md5_state (msg : list Z) : Z * Z * Z * Z :=
  let padded := md5_padding msg in
  fold_left md5_chunk (md5_chunks (length padded) padded) md5_init.

(** The 128-bit digest as a number: the four words, little end first. *)
Definition md5_digest (msg : list Z) : Z :=
  let '(a, b, c, d) := md5_state msg in
  (a + 2 ^ 32 * b + 2 ^ 64 * c + 2 ^ 96 * d)%Z.

Fixpoint hex_le (k : nat) (n : Z) : string :=
  match k with
  | 0 => ""
  | S k' => hex_byte (n mod 256) +:+ hex_le k' (n / 256)%Z
  end.

(** [hashlib.md5(msg).hexdigest()] *)
Definition md5_hexdigest (msg : list Z) : string := hex_le 16 (md5_digest msg).

(** The key under which a feature combination is stored in, and looked
    up from, [node_registry]. *)
Definition node_hash (d : list (string * Value)) : string :=
  md5_hexdigest (encode_utf8 (json_dumps d)).

(** ** build_tree

    The function is modelled as the notebook calls it, with
    [verbose=False]: what is printed is left out. *)

(** A row of [df.groupBy(features).agg(...)]: the grouping columns in
    column order, and the aggregates. [F.avg] and [F.sum] give NULL for a
    group without a non-NULL value; [F.count("*")] is never NULL. The
    sub-category sums (their column names are withheld in the source) are
    kept by name. *)
Record GroupRow : Type := {
  g_features : list (string * Value);
  applicant_hit_percentage : option float;
  applicant_hit_count : option Z;
  g_refusal_percentage : option float;
  group_size : Z;
  g_hit_counts : list (string * option Z)
}.

(** The Spark DataFrame, as far as [build_tree] uses it: [df.count()] and
    the rows of [df.groupBy(features).agg(...)], which Spark returns in no
    particular order. *)
Record DataFrame : Type := {
  df_count : Z;
  df_group_by_agg : list string → list GroupRow
}.

(** [row[feature]] on a collected row. *)
Definition row_get (r : GroupRow) (feature : string) : result Value :=
  of_option (dict_get (g_features r) feature) (ValueError feature).

(** Ascending Spark order of a column value: NULL first, integers by
    value, strings by their code points. *)
Definition value_rank (v : option Value) : bool * (bool * (Z * list N)) :=
  match v with
  | None | Some VNull => (false, (false, (0%Z, [])))
  | Some (VInt z) => (true, (false, (z, [])))
  | Some (VStr s) => (true, (true, (0%Z, N_of_ascii <$> list_ascii_of_string s)))
  end.

Definition sort_key (features : list string) (r : GroupRow)
    : list (bool * (bool * (Z * list N))) :=
  (λ f, value_rank (dict_get (g_features r) f)) <$> features.

(** [r1] does not come after [r2] in [.sort(features, ascending=True)]. *)
Definition row_le (features : list string) (r1 r2 : GroupRow) : Prop :=
  ¬ lexico (sort_key features r2) (sort_key features r1).

Global Instance row_le_dec features : RelDecision (row_le features).
Proof. intros r1 r2. unfold row_le. apply _. Defined.

(** [.filter(group_size >= minimal_groupsize) ... .sort(features).collect()];
    the [profile_type] column is computed where the row is read, and the
    [node_id] column is never read. *)
Definition collect_layer (df : DataFrame) (th : Thresholds)
    (features_to_current_depth : list string) : list GroupRow :=
  merge_sort (row_le features_to_current_depth)
    (filter (λ r, (minimal_groupsize th ≤ group_size r)%Z)
            (df_group_by_agg df features_to_current_depth)).

Record BuildState : Type := {
  b_tree : DiGraph;
  node_registry : gmap string nat;
  current_node_number : nat
}.

(** [if isinstance(value, (int)): value = str(value)] *)
Definition str_if_int (v : Value) : Value :=
  match v with
  | VInt z => VStr (pretty z)
  | _ => v
  end.

(** [value.encode("utf-8")], of which only the success matters (the
    bytes go into the label): [None] has no attribute [encode]. *)
Definition encode_checked (v : Value) : result string :=
  match v with
  | VStr s => Ok s
  | _ => Raise AttributeError
  end.

(** [float(x)] on a value read from a double column: [float(None)]
    raises [TypeError]. *)
Definition float_checked (x : option float) : result float :=
  of_option x TypeError.

(** [{feature: row[feature] for feature in features}] *)
Definition feature_combination (r : GroupRow) (features : list string)
    : result (list (string * Value)) :=
  foldM_r (λ d feature, v ←ᵣ row_get r feature ;; Ok (dict_set d feature v))
          [] features.

(** [{k: v for k, v in d.items() if k != current_feature}] *)
Definition parent_combination (d : list (string * Value)) (current_feature : string)
    : list (string * Value) :=
  filter (λ kv, kv.1 ≠ current_feature) d.

Definition root_attrs (n : Z) : NodeAttrs :=
  {| fillcolor := "lightblue"; depth := 0; key := "Alle aanvragen";
     profile_type := inbetween; total_count := n;
     hit_percentage := None; refusal_percentage := None; hit_counts := None |}.

Definition mapping_profile_type_to_color (ty : ProfileType) : string :=
  match ty with
  | chance => "springgreen"
  | inbetween => "yellow"
  | risk => "red"
  end.

(** The [profile_type] column of a row. *)
Definition row_profile_type (th : Thresholds) (r : GroupRow) : ProfileType :=
  profile_type_column th (applicant_hit_percentage r) (g_refusal_percentage r).

(** The attributes given to the node of a row whose percentages are
    [hit] and [refusal]. *)
Definition row_attrs (th : Thresholds) (current_depth : nat)
    (current_feature_value : string) (r : GroupRow) (hit refusal : float)
    : NodeAttrs :=
  {| fillcolor := mapping_profile_type_to_color (row_profile_type th r);
     depth := current_depth;
     key := current_feature_value;
     profile_type := row_profile_type th r;
     total_count := group_size r;
     hit_percentage := Some (hit * 100)%float;
     refusal_percentage := Some (refusal * 100)%float;
     hit_counts := Some (g_hit_counts r) |}.

(** Body of [for current_feature_combination in df_feature_combinations]. *)
Definition build_row (th : Thresholds) (current_feature : string)
    (features_to_current_depth : list string) (current_depth : nat)
    (st : BuildState) (r : GroupRow) : result BuildState :=
  let number := S (current_node_number st) in
  v ←ᵣ row_get r current_feature ;;
  let current_feature_value := str_if_int v in
  current_values ←ᵣ feature_combination r features_to_current_depth ;;
  let parent_values := parent_combination current_values current_feature in
  let current_node_hash := node_hash current_values in
  let parent_node_hash := node_hash parent_values in
  parent_node_number ←ᵣ of_option (node_registry st !! parent_node_hash)
                                   (KeyError parent_node_hash) ;;
  let registry := <[current_node_hash := number]> (node_registry st) in
  key ←ᵣ encode_checked current_feature_value ;;
  hit ←ᵣ float_checked (applicant_hit_percentage r) ;;
  refusal ←ᵣ float_checked (g_refusal_percentage r) ;;
  let tree := add_node (b_tree st) number
                (row_attrs th current_depth key r hit refusal) in
  Ok {| b_tree := add_edge tree parent_node_number number;
        node_registry := registry;
        current_node_number := number |}.

(** Body of [for index, current_feature in enumerate(features_ordered)]. *)
Definition build_layer (df : DataFrame) (th : Thresholds)
    (features_ordered : list string) (st : BuildState) (layer : nat * string)
    : result BuildState :=
  let current_depth := layer.1 + 1 in
  let features_to_current_depth := take current_depth features_ordered in
  foldM_r (build_row th layer.2 features_to_current_depth current_depth) st
          (collect_layer df th features_to_current_depth).

Definition build_init (df : DataFrame) : BuildState :=
  {| b_tree := add_node empty_graph 0 (root_attrs (df_count df));
     node_registry := {[ node_hash [] := 0 ]};
     current_node_number := 0 |}.

(** [build_tree] returns the tree and the parameter set. *)
Definition build_tree (df : DataFrame) (features_ordered : list string)
    (th : Thresholds) : result (DiGraph * (list string * Thresholds)) :=
  st ←ᵣ foldM_r (build_layer df th features_ordered) (build_init df)
                (enumerate_from 0 features_ordered) ;;
  Ok (b_tree st, (features_ordered, th)).

(** ** prune_tree *)

Section Prune.

(** Iteration order of a Python [set] of node ids built from a list: the
    order is fixed by the hash table and is left unspecified here. *)
Variable set_order : list nat → list nat.

Variable min_depth_required : nat.

(** [[x for x in tree.nodes() if tree.out_degree(x) == 0]] *)
Definition leaves (t : DiGraph) : list nat :=
  filter (λ x, out_degree t x = 0) (node_ids t).

(** [[leaf for leaf in leaves if tree.nodes[leaf]['profile_type'] == 'inbetween']] *)
Definition leaves_of_type_inbetween (t : DiGraph) : list nat :=
  filter (λ leaf, profile_type <$> node_attrs t leaf = Some inbetween) (leaves t).

(** [[node for node in tree.predecessors(leaf)][0]] *)
Definition first_predecessor (t : DiGraph) (leaf : nat) : result nat :=
  of_option (head (predecessors t leaf)) IndexError.

(** Body of the loop over [parents_of_leaves]; the state is the tree and
    [last_run_clear]. *)
Definition prune_parent (st : DiGraph * bool) (parent_id : nat)
    : result (DiGraph * bool) :=
  let t := st.1 in
  parent ←ᵣ get_attrs t parent_id ;;
  if bool_decide (depth parent < min_depth_required) then Ok st else
  let children := successors t parent_id in
  children_outdegrees ←ᵣ mapM_r (out_degree_of t) children ;;
  if bool_decide (list_to_set children_outdegrees ≠@{gset nat} {[ 0 ]}) then Ok st else
  let parent_type := profile_type parent in
  leaf_types ←ᵣ mapM_r (λ child, a ←ᵣ get_attrs t child ;; Ok (profile_type a)) children ;;
  match remove_dups leaf_types with
  | [ty] =>
      if bool_decide (ty = parent_type)
      then t' ←ᵣ foldM_r remove_node t children ;; Ok (t', false)
      else Ok st
  | _ => Ok st
  end.

(** One iteration of the [while] loop: the tree after it and the final
    value of [last_run_clear]. *)
Definition prune_pass (t : DiGraph) : result (DiGraph * bool) :=
  let inb := leaves_of_type_inbetween t in
  t1 ←ᵣ foldM_r remove_node t inb ;;
  let clear := bool_decide (inb = []) in
  parents ←ᵣ mapM_r (first_predecessor t1) (leaves t1) ;;
  foldM_r prune_parent (t1, clear) (set_order parents).

(** The [while not last_run_clear] loop; [None] when the fuel runs out. *)
Fixpoint prune_loop (fuel : nat) (t : DiGraph) : option (result DiGraph) :=
  match fuel with
  | 0 => None
  | S fuel' =>
      match prune_pass t with
      | Raise e => Some (Raise e)
      | Ok (t', true) => Some (Ok t')
      | Ok (t', false) => prune_loop fuel' t'
      end
  end.

Definition prune_tree (t : DiGraph) : option (result DiGraph) :=
  prune_loop (S (node_count t)) t.

End Prune.

(** ** Paths from the root

    [nx.shortest_path(tree, source, target)].  In the trees handled here
    every node has at most one predecessor, so the only path to a node is
    found by walking up its predecessors; the walk follows the first
    predecessor and gives up after as many steps as there are nodes (a
    longer walk has entered a cycle, and there is no path). *)

Fixpoint path_up (fuel : nat) (t : DiGraph) (source x : nat) (acc : list nat)
    : option (list nat) :=
  if bool_decide (x = source) then Some (x :: acc) else
  match fuel with
  | 0 => None
  | S fuel' =>
      match predecessors t x with
      | p :: _ => path_up fuel' t source p (x :: acc)
      | [] => None
      end
  end.

Definition shortest_path (t : DiGraph) (source target : nat) : result (list nat) :=
  if has_node t source && has_node t target
  then of_option (path_up (node_count t) t source target []) NetworkXNoPath
  else Raise NodeNotFound.

(** [[x for x in tree.nodes() if tree.out_degree(x) == 0 and tree.in_degree(x) == 1]] *)
Definition profile_leaves (t : DiGraph) : list nat :=
  filter (λ x, out_degree t x = 0 ∧ in_degree t x = 1) (node_ids t).

(** ** filter_leaves_under_minimum_depth

    The counter [num_removed_nodes] is only printed and is left out. *)

(** Body of [for node in path[::-1]]. *)
Definition filter_node (t : DiGraph) (node : nat) : result DiGraph :=
  number_of_childs ←ᵣ out_degree_of t node ;;
  if bool_decide (number_of_childs = 0) then remove_node t node else Ok t.

(** Body of [for path in paths_to_leaves]. *)
Definition filter_path (min_depth_required : nat) (t : DiGraph) (path : list nat)
    : result DiGraph :=
  if bool_decide (min_depth_required < length path) then Ok t
  else foldM_r filter_node t (reverse path).

Definition filter_leaves_under_minimum_depth (t : DiGraph)
    (min_depth_required root_node_id : nat) : result DiGraph :=
  paths_to_leaves ←ᵣ mapM_r (shortest_path t root_node_id) (profile_leaves t) ;;
  foldM_r (filter_path min_depth_required) t paths_to_leaves.

(** ** export_profiles_to_dict_from_tree *)

Record Profile : Type := {
  p_type : ProfileType;
  p_hit_percentage : float;
  p_refusal_percentage : float;
  p_size : Z;
  p_hit_counts : list (string * option Z);
  p_features : list (string * string)
}.

(** Body of [for fragment_index, fragment in enumerate(path[1:])]. *)
Definition export_fragment (G : DiGraph) (dimensions : list string)
    (features : list (string * string)) (f : nat * nat)
    : result (list (string * string)) :=
  feature ←ᵣ of_option (dimensions !! f.1) IndexError ;;
  a ←ᵣ get_attrs G f.2 ;;
  Ok (dict_set features feature (key a)).

(** Body of [for index, path in enumerate(paths_to_leaves)]. *)
Definition export_profile (G : DiGraph) (dimensions : list string)
    (path : list nat) : result Profile :=
  leaf_node_id ←ᵣ of_option (last path) IndexError ;;
  leaf_node ←ᵣ get_attrs G leaf_node_id ;;
  hit ←ᵣ of_option (hit_percentage leaf_node) (KeyError "hit_percentage") ;;
  refusal ←ᵣ of_option (refusal_percentage leaf_node) (KeyError "refusal_percentage") ;;
  counts ←ᵣ of_option (hit_counts leaf_node) (KeyError "hit_counts") ;;
  features ←ᵣ foldM_r (export_fragment G dimensions) [] (enumerate_from 0 (tail path)) ;;
  Ok {| p_type := profile_type leaf_node;
        p_hit_percentage := (hit / 100)%float;
        p_refusal_percentage := (refusal / 100)%float;
        p_size := total_count leaf_node;
        p_hit_counts := counts;
        p_features := features |}.

(** The parameter [root_node_id] is not used by the body: the paths start
    at node [0]. *)
Definition export_profiles_to_dict_from_tree (G : DiGraph)
    (dimensions : list string) (root_node_id : nat)
    : result (list (nat * Profile)) :=
  paths_to_leaves ←ᵣ mapM_r (shortest_path G 0) (profile_leaves G) ;;
  profiles ←ᵣ mapM_r (export_profile G dimensions) paths_to_leaves ;;
  Ok (enumerate_from 0 profiles).

(** * Part II: notions used to state the properties *)

(** The comparison [a <= b] of two columns is TRUE. *)
Definition is_le (a b : option float) : Prop := sql_le a b = Some true.

(** The classification rule in the words of the specification, on the
    doubles of the statistics. *)
Definition classify (hit_percentage refusal_percentage
    chance_max_hit chance_max_refusal risk_min_hit : float) : ProfileType :=
  if double_le hit_percentage chance_max_hit
     && double_le refusal_percentage chance_max_refusal then chance
  else if double_le risk_min_hit hit_percentage then risk
  else inbetween.

(** What a step of [prune_tree] does to the tree and [last_run_clear]:
    nothing, or it removes a node and leaves [last_run_clear] at [False]. *)
Definition unchanged_or_smaller (st st' : DiGraph * bool) : Prop :=
  st' = st ∨ (st'.2 = false ∧ node_count st'.1 < node_count st.1).

(** [leaf_removals t t']: [t'] is reached from [t] by removing, one after
    the other, nodes that have no child at the moment they are removed. *)
Inductive leaf_removals : DiGraph → DiGraph → Prop :=
  | leaf_removals_refl t : leaf_removals t t
  | leaf_removals_step t x t' :
      x ∈ node_ids t → out_degree t x = 0 →
      leaf_removals (drop_node t x) t' → leaf_removals t t'.

(** The ['depth'] attribute of a node ([0] for a missing node). *)
Definition depth_of (t : DiGraph) (x : nat) : nat :=
  default 0 (depth <$> node_attrs t x).

(** Well-formed profile trees: node ids are unique, every edge joins two
    nodes and goes one level down, node [0] is at depth [0] and every
    other node has exactly one incoming edge. *)
Definition tree_ok (t : DiGraph) : bool :=
  bool_decide (NoDup (node_ids t))
  && forallb (λ e, has_node t e.1 && has_node t e.2
                   && bool_decide (depth_of t e.2 = S (depth_of t e.1))) (edges t)
  && forallb (λ x, if bool_decide (x = 0) then bool_decide (depth_of t x = 0)
                   else bool_decide (in_degree t x = 1)) (node_ids t).

(** Consecutive nodes of the list are joined by an edge. *)
Fixpoint chain (t : DiGraph) (l : list nat) : Prop :=
  match l with
  | a :: (b :: _) as l' => (a, b) ∈ edges t ∧ chain t l'
  | _ => True
  end.

(** What is known of the path computed for a profile leaf of [t0]. *)
Definition path_of_leaf (t0 : DiGraph) (leaf : nat) (path : list nat) : Prop :=
  last path = Some leaf ∧ chain t0 path ∧ length path = S (depth_of t0 leaf).

(** The ['key'] attribute of a node (the empty string for a missing node). *)
Definition key_of (G : DiGraph) (x : nat) : string :=
  default "" (key <$> node_attrs G x).

(** Every node but node [0] carries the group statistics. *)
Definition stats_ok (G : DiGraph) : bool :=
  forallb (λ n, bool_decide (n.1 = 0)
                || (bool_decide (is_Some (hit_percentage n.2))
                    && bool_decide (is_Some (refusal_percentage n.2))
                    && bool_decide (is_Some (hit_counts n.2)))) (nodes G).

(** The record the exporter builds for a leaf. *)
Definition profile_of (G : DiGraph) (dimensions : list string) (path : list nat)
    (a : NodeAttrs) (hit refusal : float) (counts : list (string * option Z))
    : Profile :=
  {| p_type := profile_type a;
     p_hit_percentage := (hit / 100)%float;
     p_refusal_percentage := (refusal / 100)%float;
     p_size := total_count a;
     p_hit_counts := counts;
     p_features := zip dimensions (key_of G <$> tail path) |}.

(** The four words of an MD5 state fit in 32 bits. *)
Definition words_in_range (st : Z * Z * Z * Z) : Prop :=
  let '(a, b, c, d) := st in
  (0 ≤ a < 2 ^ 32 ∧ 0 ≤ b < 2 ^ 32 ∧ 0 ≤ c < 2 ^ 32 ∧ 0 ≤ d < 2 ^ 32)%Z.

(** The text of a feature value that becomes the ['key'] of a node: the
    digits of an [int], the [str] itself (and the empty text for NULL,
    which never becomes a key). *)
Definition feature_value_string (v : Value) : string :=
  match v with
  | VInt z => pretty z
  | VStr s => s
  | VNull => ""
  end.

(** The ['key'] of the node of a row: its value of the current feature. *)
Definition row_key_string (current_feature : string) (r : GroupRow) : string :=
  match dict_get (g_features r) current_feature with
  | Some v => feature_value_string v
  | None => ""
  end.

(** The attributes of the node of a row, as a function of the row: its
    key, type, size, the two percentages times 100 and the hit counts.
    (For a row with a NULL percentage, which never becomes a node, the
    percentage is taken as [0].) *)
Definition row_node (th : Thresholds) (current_depth : nat)
    (current_feature : string) (r : GroupRow) : NodeAttrs :=
  row_attrs th current_depth (row_key_string current_feature r) r
    (default 0%float (applicant_hit_percentage r))
    (default 0%float (g_refusal_percentage r)).

(** The attributes of the nodes of one layer, in the order of the
    collected rows. *)
Definition layer_nodes (df : DataFrame) (th : Thresholds)
    (features_ordered : list string) (layer : nat * string) : list NodeAttrs :=
  row_node th (layer.1 + 1) layer.2
    <$> collect_layer df th (take (layer.1 + 1) features_ordered).

(** The ids given so far are [0], ..., [current_node_number]. *)
Definition ids_sequential (st : BuildState) : Prop :=
  node_ids (b_tree st) = seq 0 (S (current_node_number st)).

(** Each node of the list is followed by its parent. *)
Fixpoint rchain (t : DiGraph) (l : list nat) : Prop :=
  match l with
  | b :: (b' :: _) as l' => (b', b) ∈ edges t ∧ rchain t l'
  | _ => True
  end.

(** Every childless node of [cur] was childless in [t0] already, except
    possibly the node [next]. *)
Definition no_new_leaves (t0 cur : DiGraph) (next : option nat) : Prop :=
  ∀ x, x ∈ node_ids cur → out_degree cur x = 0 →
       out_degree t0 x = 0 ∨ next = Some x.

(** What [build_tree] keeps true of its state between two rows: the ids
    given are [0], ..., [current_node_number]; the edges end at the nodes
    [1], ..., [current_node_number], in this order, and start at a smaller
    id; the registry holds ids that have been given. *)
Definition build_inv (st : BuildState) : Prop :=
  node_ids (b_tree st) = seq 0 (S (current_node_number st)) ∧
  (edges (b_tree st)).*2 = seq 1 (current_node_number st) ∧
  Forall (λ e, e.1 < e.2) (edges (b_tree st)) ∧
  ∀ h n, node_registry st !! h = Some n → n ≤ current_node_number st.

(** [r] has a value in each of the columns [features]. *)
Definition row_has_columns (r : GroupRow) (features : list string) : Prop :=
  ∀ f, f ∈ features → is_Some (dict_get (g_features r) f).

(** [r'] has the values of [r] in the columns [features]. *)
Definition rows_agree (r r' : GroupRow) (features : list string) : Prop :=
  ∀ f, f ∈ features → dict_get (g_features r') f = dict_get (g_features r) f.

(** [r] can become a node of the layer of the feature [f]: its value of
    [f] is not NULL, and neither are its two averages. *)
Definition row_complete (f : string) (r : GroupRow) : Prop :=
  (∃ v, dict_get (g_features r) f = Some v ∧ v ≠ VNull) ∧
  is_Some (applicant_hit_percentage r) ∧ is_Some (g_refusal_percentage r).

(** The collected layers fit together: every row has its grouping
    columns, a value other than NULL in the last of them and averages
    other than NULL, and below the first layer the values of a row in the
    columns of the layer above are those of a row collected there. *)
Definition layers_consistent (df : DataFrame) (th : Thresholds)
    (features_ordered : list string) : Prop :=
  ∀ index f r, features_ordered !! index = Some f →
    r ∈ collect_layer df th (take (index + 1) features_ordered) →
    row_has_columns r (take (index + 1) features_ordered) ∧
    row_complete f r ∧
    (index = 0 ∨
     ∃ r', r' ∈ collect_layer df th (take index features_ordered) ∧
           rows_agree r r' (take index features_ordered)).

(** The key [h] is in [node_registry]. *)
Definition has_key (st : BuildState) (h : string) : Prop :=
  is_Some (node_registry st !! h).

(** Before layer [i + 1] is added the registry holds the key of the
    empty combination ([i = 0]) or the keys of the rows of layer [i]. *)
Definition registry_ready (df : DataFrame) (th : Thresholds)
    (features_ordered : list string) (st : BuildState) (i : nat) : Prop :=
  ∀ c, (i = 0 ∧ c = []) ∨
       (0 < i ∧ ∃ r', r' ∈ collect_layer df th (take i features_ordered) ∧
                      feature_combination r' (take i features_ordered) = Ok c) →
       has_key st (node_hash c).

(** The combinations that a build meets: the empty one, those of the
    collected rows, and their parents. *)
Definition occurring_combination (df : DataFrame) (th : Thresholds)
    (features_ordered : list string) (c : list (string * Value)) : Prop :=
  c = [] ∨
  ∃ index f r c',
    features_ordered !! index = Some f ∧
    r ∈ collect_layer df th (take (index + 1) features_ordered) ∧
    feature_combination r (take (index + 1) features_ordered) = Ok c' ∧
    (c = c' ∨ c = parent_combination c' f).

(** No two combinations of different lengths that the build meets have
    the same key. *)
Definition keys_tell_depths (df : DataFrame) (th : Thresholds)
    (features_ordered : list string) : Prop :=
  ∀ c1 c2, occurring_combination df th features_ordered c1 →
           occurring_combination df th features_ordered c2 →
           node_hash c1 = node_hash c2 → length c1 = length c2.

(** Every entry of the registry is the key of a combination that the
    build meets, and leads to a node whose depth is the length of that
    combination. *)
Definition registry_depths (df : DataFrame) (th : Thresholds)
    (features_ordered : list string) (st : BuildState) : Prop :=
  ∀ h n, node_registry st !! h = Some n →
    ∃ c, occurring_combination df th features_ordered c ∧ node_hash c = h ∧
         depth_of (b_tree st) n = length c.

(** Every edge goes one level down, and node [0] is at depth [0]. *)
Definition edges_go_down (t : DiGraph) : Prop :=
  depth_of t 0 = 0 ∧ ∀ p c, (p, c) ∈ edges t → depth_of t c = S (depth_of t p).

(** The local variables [tree], [node_registry] and [current_node_number]
    of [build_tree] when its two loops have ended. *)
Definition build_state (df : DataFrame) (features_ordered : list string)
    (th : Thresholds) : result BuildState :=
  foldM_r (build_layer df th features_ordered) (build_init df)
          (enumerate_from 0 features_ordered).

(** The combinations that a build registers up to and including the layer
    of depth [index + 1]: the empty one, for the root, and those of the
    rows collected for these layers. *)
Definition registered_upto (df : DataFrame) (th : Thresholds)
    (features_ordered : list string) (index : nat)
    (c : list (string * Value)) : Prop :=
  c = [] ∨
  ∃ i r, i ≤ index ∧ i < length features_ordered ∧
    r ∈ collect_layer df th (take (i + 1) features_ordered) ∧
    feature_combination r (take (i + 1) features_ordered) = Ok c.

(** The combinations that a build registers. *)
Definition registered_combination (df : DataFrame) (th : Thresholds)
    (features_ordered : list string) (c : list (string * Value)) : Prop :=
  registered_upto df th features_ordered (length features_ordered) c.

(** No two combinations that the build meets have the same key. *)
Definition keys_distinct (df : DataFrame) (th : Thresholds)
    (features_ordered : list string) : Prop :=
  ∀ c1 c2, occurring_combination df th features_ordered c1 →
           occurring_combination df th features_ordered c2 →
           node_hash c1 = node_hash c2 → c1 = c2.

(** The node [x] stands for the combination [c]: on the way from the root
    to [x] the keys of the nodes are the texts of the values of [c], none
    of which is NULL. *)
Inductive stands_for (t : DiGraph) : nat → list (string * Value) → Prop :=
  | stands_for_root : stands_for t 0 []
  | stands_for_child p x c f v :
      stands_for t p c → (p, x) ∈ edges t →
      key_of t x = feature_value_string v → v ≠ VNull →
      stands_for t x (c ++ [(f, v)]).

(** The features of a profile that a combination gives: the names with
    the texts of the values. *)
Definition combination_features (c : list (string * Value))
    : list (string * string) :=
  (λ kv, (kv.1, feature_value_string kv.2)) <$> c.

(** Every registered key leads to a node that stands for a combination
    with this key, and every node but the root has the attributes of a
    collected row and stands for the combination of that row. *)
Definition nodes_stand_for_rows (df : DataFrame) (th : Thresholds)
    (features_ordered : list string) (st : BuildState) : Prop :=
  build_inv st ∧
  (∀ h n, node_registry st !! h = Some n →
     ∃ c, occurring_combination df th features_ordered c ∧ node_hash c = h ∧
          stands_for (b_tree st) n c) ∧
  (∀ x a, node_attrs (b_tree st) x = Some a → x ≠ 0 →
     ∃ index f r c,
       features_ordered !! index = Some f ∧
       r ∈ collect_layer df th (take (index + 1) features_ordered) ∧
       feature_combination r (take (index + 1) features_ordered) = Ok c ∧
       a = row_node th (index + 1) f r ∧
       stands_for (b_tree st) x c).

(** * Part III: example data *)

(** Attributes of a non-root node, with percentages between 0 and 100. *)
Definition group_attrs (d : nat) (k : string) (ty : ProfileType) (n : Z)
    (hit refusal : float) : NodeAttrs :=
  {| fillcolor := mapping_profile_type_to_color ty; depth := d; key := k;
     profile_type := ty; total_count := n;
     hit_percentage := Some hit; refusal_percentage := Some refusal;
     hit_counts := Some [] |}.

(** Root with a single child of type [inbetween]. *)
Definition tree_one_inbetween : DiGraph :=
  {| nodes := [(0, root_attrs 100); (1, group_attrs 1 "A" inbetween 100 20 20)];
     edges := [(0, 1)] |}.

(** Root, one country, two age bands (the scenario of two features). *)
Definition tree_two_features : DiGraph :=
  {| nodes := [(0, root_attrs 160);
               (1, group_attrs 1 "A" inbetween 160 20 5);
               (2, group_attrs 2 "old" risk 60 50 5);
               (3, group_attrs 2 "young" chance 100 2 5)];
     edges := [(0, 1); (1, 2); (1, 3)] |}.

(** A depth-3 parent of type [risk] with three [risk] leaves, next to an
    [inbetween] leaf at depth 1. *)
Definition tree_risk_branch : DiGraph :=
  {| nodes := [(0, root_attrs 500);
               (1, group_attrs 1 "A" inbetween 400 30 5);
               (2, group_attrs 1 "B" inbetween 100 20 5);
               (3, group_attrs 2 "x" risk 400 45 5);
               (4, group_attrs 3 "p" risk 400 45 5);
               (5, group_attrs 4 "u" risk 100 50 5);
               (6, group_attrs 4 "v" risk 100 60 5);
               (7, group_attrs 4 "w" risk 200 41 5)];
     edges := [(0, 1); (0, 2); (1, 3); (3, 4); (4, 5); (4, 6); (4, 7)] |}.

(** Root with a single child of type [chance] at depth 1. *)
Definition tree_one_chance : DiGraph :=
  {| nodes := [(0, root_attrs 100); (1, group_attrs 1 "A" chance 100 2 5)];
     edges := [(0, 1)] |}.

(** Thresholds of the scenario: chance up to 5% hits and 10% refusals,
    risk from 40% hits, groups of at least 50. *)
Definition scenario_thresholds : Thresholds :=
  {| chance_max_hit_percentage_threshold := 5;
     chance_max_refusal_percentage_threshold := 10;
     risk_min_hit_percentage_threshold := 40;
     minimal_groupsize := 50 |}.

(** The double nearest to an integer (exact below [2 ^ 53]). *)
Definition float_of_Z (z : Z) : float := PrimFloat.of_uint63 (Uint63.of_Z z).

(** An aggregated row for [size] records with [hits] hits and [refused]
    refusals: the averages are the quotients of the doubles. *)
Definition group (fs : list (string * Value)) (hits refused size : Z) : GroupRow :=
  {| g_features := fs;
     applicant_hit_percentage := Some (float_of_Z hits / float_of_Z size)%float;
     applicant_hit_count := Some hits;
     g_refusal_percentage := Some (float_of_Z refused / float_of_Z size)%float;
     group_size := size;
     g_hit_counts := [] |}.

(** The scenario with the features [country] and [age_band]; the groups
    come in the order given by [swap]. *)
Definition scenario_df (swap : bool) : DataFrame :=
  {| df_count := 200;
     df_group_by_agg fs :=
       if bool_decide (fs = ["country"]) then
         let a := group [("country", VStr "A")] 32 5 160 in
         let b := group [("country", VStr "B")] 3 4 40 in
         if swap then [b; a] else [a; b]
       else if bool_decide (fs = ["country"; "age_band"]) then
         let young := group [("country", VStr "A"); ("age_band", VStr "young")] 2 5 100 in
         let old := group [("country", VStr "A"); ("age_band", VStr "old")] 30 0 60 in
         let b := group [("country", VStr "B"); ("age_band", VStr "old")] 3 4 40 in
         if swap then [b; young; old] else [old; b; young]
       else [] |}.

(** Rows that no dataset can produce: the group [A] is too small at depth
    1 and large enough at depth 2. *)
Definition inconsistent_df : DataFrame :=
  {| df_count := 200;
     df_group_by_agg fs :=
       if bool_decide (fs = ["country"]) then
         [group [("country", VStr "A")] 2 5 10]
       else if bool_decide (fs = ["country"; "age_band"]) then
         [group [("country", VStr "A"); ("age_band", VStr "old")] 30 0 60]
       else [] |}.

(** One feature with [2 ^ 128 + 1] groups of one record each, the values
    being the numerals of [0], ..., [2 ^ 128]. *)
Definition many_groups_df : DataFrame :=
  {| df_count := 2 ^ 128 + 1;
     df_group_by_agg fs :=
       if bool_decide (fs = ["f"])
       then (λ i, group [("f", VStr (pretty i))] 0 0 1) <$> seqZ 0 (2 ^ 128 + 1)
       else [] |}.

Definition thresholds_groups_of_one : Thresholds :=
  {| chance_max_hit_percentage_threshold := 5;
     chance_max_refusal_percentage_threshold := 10;
     risk_min_hit_percentage_threshold := 40;
     minimal_groupsize := 1 |}.

(** The feature [a] given twice; the group [x] is too small in the first
    layer and large enough in the second. *)
Definition repeated_feature_df : DataFrame :=
  {| df_count := 200;
     df_group_by_agg fs :=
       if bool_decide (fs = ["a"]) then
         [group [("a", VStr "x")] 2 5 10]
       else if bool_decide (fs = ["a"; "a"]) then
         [group [("a", VStr "x"); ("a", VStr "x")] 30 0 60]
       else [] |}.

(** One feature and one group, of type [inbetween]: 20 hits and 20
    refusals in 100 records. *)
Definition inbetween_df : DataFrame :=
  {| df_count := 100;
     df_group_by_agg fs :=
       if bool_decide (fs = ["country"])
       then [group [("country", VStr "A")] 20 20 100]
       else [] |}.

(** A tree that is its root only. *)
Definition tree_root_only : DiGraph :=
  {| nodes := [(0, root_attrs 100)]; edges := [] |}.

(** * Part IV: properties *)

(** ** Facts about graphs and the result monad *)

Lemma rbind_Ok {A B} (r : result A) (k : A → result B) (b : B) :
  rbind r k = Ok b → ∃ a, r = Ok a ∧ k a = Ok b.
Proof. destruct r as [a|e]; simpl; [eauto | discriminate]. Qed.

Ltac inv_bind H :=
  let x := fresh "x" in
  let Hx := fresh "Hx" in
  apply rbind_Ok in H as (x & Hx & H).

Lemma mapM_r_length {A B} (f : A → result B) l ys :
  mapM_r f l = Ok ys → length ys = length l.
Proof.
  revert ys. induction l as [|x l IH]; intros ys H; simpl in H.
  - by inversion H.
  - inv_bind H. inv_bind H. inversion H; subst. simpl. f_equal. eauto.
Qed.

Lemma filter_length_lt {A} (P : A → Prop) `{!∀ x, Decision (P x)} (l : list A) x :
  x ∈ l → ¬ P x → length (filter P l) < length l.
Proof.
  intros Hin Hn. induction l as [|y l IH]; [by apply elem_of_nil in Hin|].
  rewrite filter_cons. apply elem_of_cons in Hin as [->|Hin].
  - rewrite decide_False by done. simpl.
    pose proof (length_filter P l). lia.
  - specialize (IH Hin). destruct (decide (P y)); simpl; lia.
Qed.

Lemma has_node_true t x : has_node t x = true → x ∈ node_ids t.
Proof. unfold has_node. intros H. by apply bool_decide_eq_true in H. Qed.

Lemma remove_node_Ok t x t' :
  remove_node t x = Ok t' → x ∈ node_ids t ∧ t' = drop_node t x.
Proof.
  unfold remove_node. destruct (has_node t x) eqn:E; [|discriminate].
  intros [= <-]. split; [by apply has_node_true | done].
Qed.

Lemma drop_node_count t x :
  x ∈ node_ids t → node_count (drop_node t x) < node_count t.
Proof.
  unfold node_ids, node_count. intros Hin.
  apply list_elem_of_fmap in Hin as ([y a] & -> & Hin). simpl.
  eapply filter_length_lt; [exact Hin | simpl; tauto].
Qed.

Lemma remove_node_count t x t' :
  remove_node t x = Ok t' → node_count t' < node_count t.
Proof. intros H. apply remove_node_Ok in H as [? ->]. by apply drop_node_count. Qed.

Lemma remove_nodes_count t l t' :
  foldM_r remove_node t l = Ok t' →
  node_count t' ≤ node_count t ∧ (l ≠ [] → node_count t' < node_count t).
Proof.
  revert t. induction l as [|x l IH]; intros t H; simpl in H.
  - inversion H; subst. split; [lia | done].
  - inv_bind H. apply remove_node_count in Hx. apply IH in H as [H _].
    split; [lia | intros _; lia].
Qed.

(** ** Pruning: one pass either changes nothing or removes a node *)

Section PruneFacts.

Variable set_order : list nat → list nat.
Variable min_depth_required : nat.

Local Abbreviation prune_parent := (prune_parent min_depth_required).
Local Abbreviation prune_pass := (prune_pass set_order min_depth_required).
Local Abbreviation prune_loop := (prune_loop set_order min_depth_required).
Local Abbreviation prune_tree := (prune_tree set_order min_depth_required).

Lemma prune_parent_step st p st' :
  prune_parent st p = Ok st' → unchanged_or_smaller st st'.
Proof.
  unfold prune_parent. intros H. inv_bind H.
  case_bool_decide; [inversion H; by left|].
  inv_bind H. rename x0 into outs.
  case_bool_decide as Hset; [inversion H; by left|].
  inv_bind H.
  destruct (remove_dups x0) as [|ty [|??]]; try (inversion H; by left).
  case_bool_decide; [|inversion H; by left].
  inv_bind H. inversion H; subst. right. split; [done|]. simpl.
  apply remove_nodes_count in Hx2 as [_ Hlt]. apply Hlt.
  intros Hnil. apply mapM_r_length in Hx0. rewrite Hnil in Hx0.
  destruct outs; [|done]. simpl in Hset. set_solver.
Qed.

Lemma prune_parents_steps l : ∀ st st',
  foldM_r prune_parent st l = Ok st' → unchanged_or_smaller st st'.
Proof.
  induction l as [|p l IH]; intros st st' H; simpl in H.
  - inversion H. by left.
  - inv_bind H. apply prune_parent_step in Hx. apply IH in H.
    destruct Hx as [->|[Hc Hlt]]; [done|].
    destruct H as [->|[Hc' Hlt']]; right; [done|]. split; [done | lia].
Qed.

Lemma prune_pass_clear t t' :
  prune_pass t = Ok (t', true) → t' = t.
Proof.
  unfold prune_pass. intros H. inv_bind H. inv_bind H.
  apply prune_parents_steps in H as [H|[H _]]; [|done].
  inversion H as [[Ht Hc]]. symmetry in Hc. apply bool_decide_eq_true in Hc.
  rewrite Hc in Hx. simpl in Hx. by inversion Hx.
Qed.

Lemma prune_pass_again t t' :
  prune_pass t = Ok (t', false) → node_count t' < node_count t.
Proof.
  unfold prune_pass. intros H. inv_bind H. inv_bind H.
  apply remove_nodes_count in Hx as [Hle Hlt].
  apply prune_parents_steps in H as [H|[_ H]]; simpl in *; [|lia].
  inversion H as [[Ht Hc]]. symmetry in Hc. apply bool_decide_eq_false in Hc. subst. auto.
Qed.

Lemma prune_loop_enough_fuel fuel : ∀ t,
  node_count t < fuel → ∃ r, prune_loop fuel t = Some r.
Proof.
  induction fuel as [|fuel IH]; intros t Hlt; [lia|]. simpl.
  destruct (prune_pass t) as [[t' [|]]|e] eqn:E; eauto.
  apply IH. apply prune_pass_again in E. lia.
Qed.

Lemma prune_loop_fixed fuel : ∀ t t',
  prune_loop fuel t = Some (Ok t') → prune_pass t' = Ok (t', true).
Proof.
  induction fuel as [|fuel IH]; intros t t' H; simpl in H; [done|].
  destruct (prune_pass t) as [[t1 [|]]|e] eqn:E; [| eauto | done].
  inversion H; subst. pose proof (prune_pass_clear _ _ E). by subst.
Qed.

(** The outcome does not depend on the amount of fuel, once there is
    enough of it: the bounded loop stands for the unbounded [while]. *)
Lemma prune_loop_more_fuel fuel : ∀ fuel' t r,
  prune_loop fuel t = Some r → fuel ≤ fuel' → prune_loop fuel' t = Some r.
Proof.
  induction fuel as [|fuel IH]; intros fuel' t r H Hle; [done|].
  destruct fuel' as [|fuel']; [lia|]. simpl in *.
  destruct (prune_pass t) as [[t' [|]]|e]; try done.
  apply IH; [done | lia].
Qed.

End PruneFacts.

(** C9, amended. The pruning loop terminates on every tree: a pass that
    asks for another pass ([last_run_clear] left at [False]) ends with
    strictly fewer nodes than it started with, and the number of nodes is
    bounded below by zero, so the loop started with one unit of fuel more
    than the number of nodes always produces its outcome (a tree or a
    raised exception), whatever the iteration order of the parent set. *)
Theorem prune_tree_terminates (set_order : list nat → list nat)
    (min_depth_required : nat) (t : DiGraph) :
  (∀ t', prune_pass set_order min_depth_required t = Ok (t', false) →
         node_count t' < node_count t) ∧
  (∃ r, prune_tree set_order min_depth_required t = Some r).
Proof.
  split.
  - intros t'. apply prune_pass_again.
  - apply prune_loop_enough_fuel. lia.
Qed.

(** C4. Pruning is idempotent: when [prune_tree] returns a tree, running
    it again on that tree returns the same tree, after a single pass that
    removes nothing. *)
Theorem prune_tree_idempotent (set_order : list nat → list nat)
    (min_depth_required : nat) (t t' : DiGraph) :
  prune_tree set_order min_depth_required t = Some (Ok t') →
  prune_pass set_order min_depth_required t' = Ok (t', true) ∧
  prune_tree set_order min_depth_required t' = Some (Ok t').
Proof.
  intros H. apply prune_loop_fixed in H. split; [done|].
  unfold prune_tree. simpl. by rewrite H.
Qed.

(** ** A root that becomes childless *)

Lemma mapM_r_raises {A B} (f : A → result B) (e : exn) l x :
  (∀ y e', f y = Raise e' → e' = e) → x ∈ l → f x = Raise e →
  mapM_r f l = Raise e.
Proof.
  intros Honly Hx Hf. induction l as [|y l IH]; [by apply elem_of_nil in Hx|].
  simpl. destruct (f y) as [b|e'] eqn:Ey; simpl.
  - apply elem_of_cons in Hx as [->|Hx]; [congruence|].
    by rewrite (IH Hx).
  - by rewrite (Honly _ _ Ey).
Qed.

(** C5. [prune_tree] does not complete when the removal of the
    [inbetween] leaves leaves a childless node without a predecessor,
    which is what happens to the root when all its children are
    [inbetween] leaves: the list of the parents of the leaves is built
    with [[...][0]] on the empty list of the root's predecessors, and
    [IndexError] is raised. *)
Theorem prune_tree_raises_when_root_becomes_leaf
    (set_order : list nat → list nat) (min_depth_required : nat)
    (t t1 : DiGraph) (x : nat) :
  foldM_r remove_node t (leaves_of_type_inbetween t) = Ok t1 →
  x ∈ leaves t1 → predecessors t1 x = [] →
  prune_tree set_order min_depth_required t = Some (Raise IndexError).
Proof.
  intros H1 Hx Hp. unfold prune_tree. cbn [prune_loop].
  unfold prune_pass. rewrite H1. simpl.
  rewrite (mapM_r_raises (first_predecessor t1) IndexError (leaves t1) x); [done | | done |].
  - intros y e'. unfold first_predecessor.
    destruct (head (predecessors t1 y)); simpl; congruence.
  - unfold first_predecessor. by rewrite Hp.
Qed.

(** The tree built from one group of type [inbetween] is such a tree, and
    so is every tree whose root has [inbetween] leaves only. *)
Lemma prune_tree_raises_when_root_becomes_leaf_witness :
  ∃ t ps, build_tree inbetween_df ["country"] scenario_thresholds = Ok (t, ps) ∧
          node_ids t = [0; 1] ∧ edges t = [(0, 1)] ∧
          profile_type <$> node_attrs t 1 = Some inbetween ∧
          prune_tree remove_dups 3 t = Some (Raise IndexError).
Proof.
  eexists _, _. split; [vm_compute; reflexivity|].
  split; [reflexivity|]. split; [reflexivity|]. split; [reflexivity|].
  eapply (prune_tree_raises_when_root_becomes_leaf remove_dups 3 _ _ 0).
  - vm_compute. reflexivity.
  - vm_compute. left.
  - reflexivity.
Defined.

(** C9, as stated, fails: the node count is not bounded below by the
    root.  A tree that is its root only, as [build_tree] returns it when
    no group is large enough, loses its root, a leaf of type [inbetween],
    in the first pass, and the second pass returns the empty graph. *)
Lemma prune_tree_removes_lone_root :
  node_count tree_root_only = 1 ∧
  prune_pass remove_dups 3 tree_root_only = Ok (empty_graph, false) ∧
  prune_tree remove_dups 3 tree_root_only = Some (Ok empty_graph) ∧
  node_count empty_graph = 0.
Proof. vm_compute. auto. Qed.

(** ** The depth filter removes childless nodes only *)

Lemma leaf_removals_trans t1 t2 t3 :
  leaf_removals t1 t2 → leaf_removals t2 t3 → leaf_removals t1 t3.
Proof. induction 1; [done|]. intros. eapply leaf_removals_step; eauto. Qed.

Lemma node_ids_drop_node t x y :
  y ∈ node_ids (drop_node t x) ↔ y ∈ node_ids t ∧ y ≠ x.
Proof.
  unfold node_ids, drop_node. simpl. rewrite !list_elem_of_fmap. split.
  - intros ([z a] & -> & H). apply list_elem_of_filter in H as [H1 H2].
    split; [eexists; split; [|exact H2]|]; done.
  - intros [([z a] & -> & H) Hne]. exists (z, a). split; [done|].
    by apply list_elem_of_filter.
Qed.

Lemma edges_drop_node t x e :
  e ∈ edges (drop_node t x) ↔ e ∈ edges t ∧ e.1 ≠ x ∧ e.2 ≠ x.
Proof. unfold drop_node. simpl. rewrite list_elem_of_filter. tauto. Qed.

Lemma out_degree_edge t p c : (p, c) ∈ edges t → out_degree t p ≠ 0.
Proof.
  intros He Hz. unfold out_degree, successors in Hz.
  rewrite length_fmap in Hz. apply length_zero_iff_nil in Hz.
  assert ((p, c) ∈ filter (λ e : nat * nat, e.1 = p) (edges t)) as Hin
    by by apply list_elem_of_filter.
  rewrite Hz in Hin. by apply elem_of_nil in Hin.
Qed.

Lemma leaf_removals_nodes t t' y :
  leaf_removals t t' → y ∈ node_ids t' → y ∈ node_ids t.
Proof.
  induction 1 as [|t x t' _ _ _ IH]; [done|].
  intros Hy. apply IH in Hy. by apply node_ids_drop_node in Hy as [? _].
Qed.

(** A surviving node keeps its parent and the edge from it. *)
Lemma leaf_removals_keep_parent t t' p c :
  leaf_removals t t' → (p, c) ∈ edges t → p ∈ node_ids t → c ∈ node_ids t' →
  p ∈ node_ids t' ∧ (p, c) ∈ edges t'.
Proof.
  induction 1 as [|t x t' Hx Hdeg Hrem IH]; [done|].
  intros He Hp Hc.
  assert (c ≠ x) as Hcx.
  { eapply leaf_removals_nodes in Hc; [|exact Hrem].
    by apply node_ids_drop_node in Hc as [_ ?]. }
  assert (p ≠ x) as Hpx.
  { intros ->. by apply out_degree_edge in He. }
  apply IH; [| |done].
  - apply edges_drop_node. done.
  - apply node_ids_drop_node. done.
Qed.

Lemma filter_node_removals t node t' :
  filter_node t node = Ok t' → leaf_removals t t'.
Proof.
  unfold filter_node, out_degree_of. intros H. inv_bind H.
  destruct (has_node t node) eqn:E; [|done]. inversion Hx; subst.
  case_bool_decide as Hz.
  - apply remove_node_Ok in H as [Hin ->].
    eapply leaf_removals_step; [done.. | constructor].
  - inversion H. constructor.
Qed.

Lemma foldM_r_removals {A} (f : DiGraph → A → result DiGraph) :
  (∀ t a t', f t a = Ok t' → leaf_removals t t') →
  ∀ l t t', foldM_r f t l = Ok t' → leaf_removals t t'.
Proof.
  intros Hf. induction l as [|a l IH]; intros t t' H; simpl in H.
  - inversion H. constructor.
  - inv_bind H. eapply leaf_removals_trans; eauto.
Qed.

Lemma filter_path_removals m t path t' :
  filter_path m t path = Ok t' → leaf_removals t t'.
Proof.
  unfold filter_path. case_bool_decide.
  - intros [= <-]. constructor.
  - apply foldM_r_removals, filter_node_removals.
Qed.

Lemma filter_removals t m r t' :
  filter_leaves_under_minimum_depth t m r = Ok t' → leaf_removals t t'.
Proof.
  unfold filter_leaves_under_minimum_depth. intros H. inv_bind H.
  revert H. apply foldM_r_removals, filter_path_removals.
Qed.

Section TreeFacts.

Variable t : DiGraph.
Hypothesis Hok : tree_ok t = true.

Lemma tree_ok_NoDup : NoDup (node_ids t).
Proof.
  unfold tree_ok in Hok. apply andb_true_iff in Hok as [H _].
  apply andb_true_iff in H as [H _]. by apply bool_decide_eq_true in H.
Qed.

Lemma tree_ok_edge p c :
  (p, c) ∈ edges t →
  p ∈ node_ids t ∧ c ∈ node_ids t ∧ depth_of t c = S (depth_of t p).
Proof.
  unfold tree_ok in Hok. apply andb_true_iff in Hok as [H _].
  apply andb_true_iff in H as [_ H]. rewrite forallb_forall in H.
  intros He. apply list_elem_of_In, H in He. simpl in He.
  apply andb_true_iff in He as [He H3]. apply andb_true_iff in He as [H1 H2].
  apply bool_decide_eq_true in H3. auto using has_node_true.
Qed.

Lemma tree_ok_root : 0 ∈ node_ids t → depth_of t 0 = 0.
Proof.
  unfold tree_ok in Hok. apply andb_true_iff in Hok as [_ H].
  rewrite forallb_forall in H. intros Hx. apply list_elem_of_In, H in Hx.
  simpl in Hx. by apply bool_decide_eq_true in Hx.
Qed.

Lemma tree_ok_parent x :
  x ∈ node_ids t → x ≠ 0 → ∃ p, predecessors t x = [p] ∧ (p, x) ∈ edges t.
Proof.
  unfold tree_ok in Hok. apply andb_true_iff in Hok as [_ H].
  rewrite forallb_forall in H. intros Hx Hne. apply list_elem_of_In, H in Hx.
  rewrite bool_decide_eq_false_2 in Hx by done.
  apply bool_decide_eq_true in Hx. unfold in_degree in Hx.
  destruct (predecessors t x) as [|p [|??]] eqn:E; try done.
  exists p. split; [done|].
  assert (p ∈ predecessors t x) as Hp by (rewrite E; by left).
  unfold predecessors in Hp. apply list_elem_of_fmap in Hp as ([p' c] & -> & Hp).
  apply list_elem_of_filter in Hp as [Hc Hp]. simpl in *. by subst.
Qed.

Lemma tree_ok_depth_0 x : x ∈ node_ids t → depth_of t x = 0 → x = 0.
Proof.
  intros Hx Hd. destruct (decide (x = 0)) as [|Hne]; [done|].
  destruct (tree_ok_parent x Hx Hne) as (p & _ & He).
  apply tree_ok_edge in He as (_ & _ & He). lia.
Qed.

Lemma chain_snoc l : ∀ p x,
  chain t l → last l = Some p → (p, x) ∈ edges t → chain t (l ++ [x]).
Proof.
  induction l as [|a [|b l] IH]; intros p x Hc Hl He; simpl in *.
  - done.
  - inversion Hl; subst. done.
  - destruct Hc as [Hab Hc]. split; [done|]. eapply (IH p); done.
Qed.

(** The walk from a node at depth [d] up to node [0] succeeds with [d]
    units of fuel and yields a chain of [d + 1] nodes. *)
Lemma path_up_chain d : ∀ x,
  x ∈ node_ids t → depth_of t x = d →
  ∃ pre, length pre = S d ∧ last pre = Some x ∧ chain t pre ∧
         ∀ fuel acc, d ≤ fuel → path_up fuel t 0 x acc = Some (pre ++ acc).
Proof.
  induction d as [|d IH]; intros x Hx Hd.
  - apply tree_ok_depth_0 in Hd as ->; [|done]. exists [0].
    repeat split; try done. intros [|fuel] acc _; done.
  - assert (x ≠ 0) as Hne.
    { intros ->. rewrite tree_ok_root in Hd; done. }
    destruct (tree_ok_parent x Hx Hne) as (p & Hp & He).
    destruct (tree_ok_edge _ _ He) as (Hpin & _ & Hdp).
    destruct (IH p Hpin ltac:(lia)) as (pre & Hlen & Hlast & Hc & Hrun).
    exists (pre ++ [x]). repeat split.
    + rewrite length_app. simpl. lia.
    + by rewrite last_snoc.
    + eapply chain_snoc; done.
    + intros [|fuel] acc Hle; [lia|]. simpl.
      rewrite bool_decide_eq_false_2 by done. rewrite Hp.
      rewrite Hrun by lia. by rewrite <- app_assoc.
Qed.

Lemma chain_depths l : ∀ a i y,
  chain t (a :: l) → (a :: l) !! i = Some y → depth_of t y = depth_of t a + i.
Proof.
  induction l as [|b l IH]; intros a i y Hc Hi.
  - destruct i; [|done]. inversion Hi. lia.
  - destruct i as [|i]; [inversion Hi; lia|].
    destruct Hc as [Hab Hc]. apply tree_ok_edge in Hab as (_ & _ & Hab).
    rewrite (IH b i y Hc Hi). lia.
Qed.

Lemma chain_NoDup l : chain t l → NoDup l.
Proof.
  destruct l as [|a l]; [constructor|]. intros Hc. apply NoDup_alt.
  intros i j y Hi Hj.
  pose proof (chain_depths _ _ _ _ Hc Hi). pose proof (chain_depths _ _ _ _ Hc Hj).
  lia.
Qed.

Lemma chain_nodes l : ∀ x,
  chain t l → last l = Some x → x ∈ node_ids t → ∀ y, y ∈ l → y ∈ node_ids t.
Proof.
  induction l as [|a [|b l] IH]; intros x Hc Hl Hx y Hy.
  - by apply elem_of_nil in Hy.
  - apply list_elem_of_singleton in Hy as ->. by inversion Hl.
  - destruct Hc as [Hab Hc]. apply elem_of_cons in Hy as [->|Hy].
    + by apply tree_ok_edge in Hab as (? & _).
    + eapply IH; done.
Qed.

(** Only the last node of a chain can be childless. *)
Lemma chain_inner_has_child l : ∀ y,
  chain t l → y ∈ l → last l ≠ Some y → out_degree t y ≠ 0.
Proof.
  induction l as [|a [|b l] IH]; intros y Hc Hy Hl.
  - by apply elem_of_nil in Hy.
  - apply list_elem_of_singleton in Hy as ->. done.
  - destruct Hc as [Hab Hc]. apply elem_of_cons in Hy as [->|Hy].
    + by eapply out_degree_edge.
    + by apply IH.
Qed.

Lemma depth_lt_node_count x : x ∈ node_ids t → depth_of t x < node_count t.
Proof.
  intros Hx. destruct (path_up_chain _ x Hx eq_refl) as (pre & Hlen & Hl & Hc & _).
  assert (pre ⊆+ node_ids t) as Hsub.
  { apply NoDup_submseteq; [by apply chain_NoDup|]. by eapply chain_nodes. }
  apply submseteq_length in Hsub. unfold node_count.
  unfold node_ids in Hsub. rewrite length_fmap in Hsub. lia.
Qed.

(** Every node of a well-formed tree has its path from node [0]. *)
Lemma shortest_path_tree x :
  x ∈ node_ids t →
  ∃ path, shortest_path t 0 x = Ok path ∧ length path = S (depth_of t x) ∧
          last path = Some x ∧ chain t path.
Proof.
  intros Hx. destruct (path_up_chain _ x Hx eq_refl) as (pre & Hlen & Hl & Hc & Hrun).
  exists pre. repeat split; try done. unfold shortest_path.
  assert (0 ∈ node_ids t) as H0.
  { destruct pre as [|a l]; [done|].
    assert (depth_of t a = 0) as Ha.
    { assert (depth_of t x = depth_of t a + length l) as Hd.
      { apply (chain_depths l a (length l) x Hc).
        rewrite last_lookup in Hl. exact Hl. }
      simpl in Hlen. lia. }
    rewrite <- (tree_ok_depth_0 a); [|eapply chain_nodes; eauto; by left|done].
    eapply chain_nodes; eauto. by left. }
  unfold has_node. rewrite !bool_decide_eq_true_2 by done. simpl.
  rewrite Hrun by (pose proof (depth_lt_node_count x Hx); lia).
  by rewrite app_nil_r.
Qed.

End TreeFacts.

(** ** The depth filter completes on well-formed trees *)

Lemma mapM_r_Forall2 {A B} (f : A → result B) (R : A → B → Prop) l :
  (∀ x, x ∈ l → ∃ y, f x = Ok y ∧ R x y) →
  ∃ ys, mapM_r f l = Ok ys ∧ Forall2 R l ys.
Proof.
  induction l as [|x l IH]; intros H.
  - exists []. split; [done | constructor].
  - destruct (H x) as (y & Hy & HR); [by left|].
    destruct IH as (ys & Hys & HF); [intros; apply H; by right|].
    exists (y :: ys). simpl. rewrite Hy. simpl. rewrite Hys. simpl.
    split; [done | by constructor].
Qed.

Lemma filter_walk l : ∀ t,
  NoDup l → (∀ x, x ∈ l → x ∈ node_ids t) →
  ∃ t', foldM_r filter_node t l = Ok t' ∧
        ∀ y, y ∈ node_ids t → y ∉ l → y ∈ node_ids t'.
Proof.
  induction l as [|x l IH]; intros t Hnd Hin.
  - exists t. split; [done | auto].
  - apply NoDup_cons in Hnd as [Hx Hnd].
    assert (x ∈ node_ids t) as Hxin by (apply Hin; by left).
    assert (∃ t1, filter_node t x = Ok t1 ∧
                  ∀ y, y ∈ node_ids t → y ≠ x → y ∈ node_ids t1) as (t1 & H1 & Hk).
    { unfold filter_node, out_degree_of, remove_node, has_node.
      rewrite bool_decide_eq_true_2 by done. simpl.
      case_bool_decide; eexists; (split; [done|]); [|done].
      intros y ??. by apply node_ids_drop_node. }
    destruct (IH t1 Hnd) as (t' & H' & Hk').
    { intros y Hy. apply Hk; [apply Hin; by right | by intros ->]. }
    exists t'. simpl. rewrite H1. simpl. split; [done|].
    intros y Hy Hny. apply not_elem_of_cons in Hny as [??]. by auto.
Qed.

Section FilterCompletes.

Variable t0 : DiGraph.
Hypothesis Hok : tree_ok t0 = true.
Variable min_depth_required : nat.

Local Abbreviation path_of_leaf := (path_of_leaf t0).

Lemma chain_present t path : ∀ leaf,
  leaf_removals t0 t → chain t0 path → last path = Some leaf →
  leaf ∈ node_ids t → ∀ y, y ∈ path → y ∈ node_ids t.
Proof.
  intros leaf Hrem. induction path as [|a [|b l] IH]; intros Hc Hl Hleaf y Hy.
  - by apply elem_of_nil in Hy.
  - apply list_elem_of_singleton in Hy as ->. by inversion Hl.
  - destruct Hc as [Hab Hc].
    assert (∀ y, y ∈ b :: l → y ∈ node_ids t) as Hrest by by apply IH.
    apply elem_of_cons in Hy as [->|Hy]; [|by auto].
    eapply leaf_removals_keep_parent; [done.. | |].
    + by apply (tree_ok_edge _ Hok) in Hab as (? & _).
    + apply Hrest. by left.
Qed.

Lemma filter_paths_complete leaves paths :
  Forall2 path_of_leaf leaves paths → ∀ t,
  NoDup leaves →
  (∀ x, x ∈ leaves → out_degree t0 x = 0) →
  leaf_removals t0 t →
  (∀ x, x ∈ leaves → x ∈ node_ids t) →
  ∃ t', foldM_r (filter_path min_depth_required) t paths = Ok t'.
Proof.
  induction 1 as [|leaf path leaves paths (Hl & Hc & _) _ IH];
    intros t Hnd Hdeg Hrem Hin; [by eexists|].
  apply NoDup_cons in Hnd as [Hleaf Hnd].
  assert (∃ t1, filter_path min_depth_required t path = Ok t1 ∧
                ∀ y, y ∈ node_ids t → y ∉ path → y ∈ node_ids t1)
    as (t1 & H1 & Hk).
  { unfold filter_path. case_bool_decide; [by eauto|].
    destruct (filter_walk (reverse path) t) as (t1 & H1 & Hk).
    - rewrite reverse_Permutation. by eapply chain_NoDup.
    - intros y Hy. rewrite elem_of_reverse in Hy.
      apply (chain_present t path leaf Hrem Hc Hl); [apply Hin; by left | done].
    - exists t1. split; [done|]. intros y ? Hy. apply Hk; [done|].
      by rewrite elem_of_reverse. }
  destruct (IH t1) as (t' & H'); [done | | | |].
  - intros x ?. apply Hdeg. by right.
  - eapply leaf_removals_trans; [done|]. by eapply filter_path_removals.
  - intros x Hx. apply Hk; [apply Hin; by right|].
    intros Hxp. eapply (chain_inner_has_child t0); [exact Hc | exact Hxp | |].
    + rewrite Hl. intros [= ->]. done.
    + apply Hdeg. by right.
  - exists t'. simpl. rewrite H1. done.
Qed.

Lemma profile_leaves_paths :
  ∃ paths, mapM_r (shortest_path t0 0) (profile_leaves t0) = Ok paths ∧
           Forall2 path_of_leaf (profile_leaves t0) paths.
Proof.
  apply mapM_r_Forall2. intros x Hx.
  apply list_elem_of_filter in Hx as [_ Hx].
  destruct (shortest_path_tree t0 Hok x Hx) as (path & ? & ? & ? & ?).
  exists path. by repeat split.
Qed.

Lemma filter_completes_tree :
  ∃ t', filter_leaves_under_minimum_depth t0 min_depth_required 0 = Ok t'.
Proof.
  destruct profile_leaves_paths as (paths & Hp & HF).
  destruct (filter_paths_complete _ _ HF t0) as (t' & H').
  - apply NoDup_filter, (tree_ok_NoDup _ Hok).
  - intros x Hx. by apply list_elem_of_filter in Hx as [[? _] _].
  - constructor.
  - intros x Hx. by apply list_elem_of_filter in Hx as [_ ?].
  - exists t'. unfold filter_leaves_under_minimum_depth. rewrite Hp. done.
Qed.

End FilterCompletes.

(** ** The exporter on well-formed trees *)

Lemma node_attrs_elem G x a : node_attrs G x = Some a → (x, a) ∈ nodes G.
Proof.
  unfold node_attrs. destruct (find _ (nodes G)) as [[y b]|] eqn:E; [|done].
  intros [= <-]. apply find_some in E as [Hin Hy].
  apply bool_decide_eq_true in Hy. simpl in Hy. subst. by apply list_elem_of_In.
Qed.

Lemma node_attrs_is_Some G x : x ∈ node_ids G → is_Some (node_attrs G x).
Proof.
  intros Hx. unfold node_attrs.
  destruct (find _ (nodes G)) as [n|] eqn:E; [by eexists|].
  apply list_elem_of_fmap in Hx as ([y a] & -> & Hin).
  apply list_elem_of_In in Hin. eapply find_none in E; [|exact Hin].
  simpl in E. by rewrite bool_decide_eq_true_2 in E.
Qed.

Lemma dict_set_fresh {V} (d : list (string * V)) k v :
  k ∉ d.*1 → dict_set d k v = d ++ [(k, v)].
Proof.
  induction d as [|[k' v'] d IH]; intros Hk; simpl; [done|].
  rewrite fmap_cons in Hk. apply not_elem_of_cons in Hk as [Hne Hk].
  rewrite bool_decide_eq_false_2 by done. by rewrite IH.
Qed.

Lemma mapM_r_lookup {A B} (f : A → result B) l : ∀ ys i x,
  mapM_r f l = Ok ys → l !! i = Some x → ∃ y, ys !! i = Some y ∧ f x = Ok y.
Proof.
  induction l as [|a l IH]; intros ys i x H Hi; [done|].
  simpl in H. inv_bind H. inv_bind H. inversion H; subst.
  destruct i as [|i]; simpl in *; [inversion Hi; subst; eauto | eauto].
Qed.

Lemma enumerate_from_lookup {A} (l : list A) : ∀ n i x,
  l !! i = Some x → enumerate_from n l !! i = Some (n + i, x).
Proof.
  induction l as [|a l IH]; intros n i x Hi; [done|].
  destruct i as [|i]; simpl in *.
  - inversion Hi. by rewrite Nat.add_0_r.
  - rewrite (IH (S n) i x Hi). f_equal. f_equal. lia.
Qed.

Lemma export_fragments G dimensions l : ∀ i acc,
  NoDup dimensions → (∀ x, x ∈ l → x ∈ node_ids G) →
  i + length l ≤ length dimensions → acc.*1 = take i dimensions →
  foldM_r (export_fragment G dimensions) acc (enumerate_from i l)
  = Ok (acc ++ zip (drop i dimensions) (key_of G <$> l)).
Proof.
  intros i acc Hnd. revert i acc.
  induction l as [|x l IH]; intros i acc Hin Hlen Hacc; simpl.
  - destruct (drop i dimensions); by rewrite app_nil_r.
  - simpl in Hlen.
    destruct (lookup_lt_is_Some_2 dimensions i) as [f Hf]; [lia|].
    destruct (node_attrs_is_Some G x) as [a Ha]; [apply Hin; by left|].
    unfold export_fragment at 1, get_attrs. simpl. rewrite Hf, Ha. simpl.
    rewrite dict_set_fresh.
    + rewrite IH.
      * rewrite (drop_S _ _ _ Hf). simpl. rewrite <- app_assoc. simpl.
        unfold key_of at 2. by rewrite Ha.
      * intros; apply Hin; by right.
      * lia.
      * rewrite fmap_app, Hacc. simpl. by rewrite (take_S_r _ _ _ Hf).
    + rewrite Hacc. intros Hf'. apply list_elem_of_lookup in Hf' as [j Hj].
      pose proof (lookup_lt_Some _ _ _ Hj) as Hlt. rewrite length_take in Hlt.
      rewrite lookup_take_lt in Hj by lia.
      pose proof (NoDup_lookup _ _ _ _ Hnd Hj Hf). lia.
Qed.

Lemma tail_length {A} (l : list A) : length (tail l) = pred (length l).
Proof. by destruct l. Qed.

Section ExportFacts.

Variable G : DiGraph.
Variable dimensions : list string.
Hypothesis Hok : tree_ok G = true.
Hypothesis Hstats : stats_ok G = true.
Hypothesis Hnd : NoDup dimensions.

Local Abbreviation profile_of := (profile_of G dimensions).

Lemma profile_leaf_not_root leaf : leaf ∈ profile_leaves G → leaf ≠ 0.
Proof.
  intros Hl ->. apply list_elem_of_filter in Hl as [[_ Hin] H0].
  unfold in_degree in Hin.
  destruct (predecessors G 0) as [|p [|??]] eqn:E; try done.
  assert (p ∈ predecessors G 0) as Hp by (rewrite E; by left).
  unfold predecessors in Hp. apply list_elem_of_fmap in Hp as ([p' c] & -> & Hp).
  apply list_elem_of_filter in Hp as [Hc Hp]. simpl in *. subst.
  apply (tree_ok_edge _ Hok) in Hp as (_ & _ & Hp).
  rewrite (tree_ok_root _ Hok H0) in Hp. done.
Qed.

Lemma stats_of_node x a :
  node_attrs G x = Some a → x ≠ 0 →
  ∃ hit refusal counts, hit_percentage a = Some hit ∧
    refusal_percentage a = Some refusal ∧ hit_counts a = Some counts.
Proof.
  intros Ha Hne. apply node_attrs_elem, list_elem_of_In in Ha.
  unfold stats_ok in Hstats. rewrite forallb_forall in Hstats.
  apply Hstats in Ha. simpl in Ha.
  rewrite bool_decide_eq_false_2 in Ha by done. simpl in Ha.
  apply andb_true_iff in Ha as [Ha H3]. apply andb_true_iff in Ha as [H1 H2].
  apply bool_decide_eq_true in H1 as [??], H2 as [??], H3 as [??].
  by do 3 eexists.
Qed.

Lemma export_profile_leaf leaf :
  leaf ∈ profile_leaves G → depth_of G leaf ≤ length dimensions →
  ∃ path a hit refusal counts,
    shortest_path G 0 leaf = Ok path ∧ node_attrs G leaf = Some a ∧
    hit_percentage a = Some hit ∧ refusal_percentage a = Some refusal ∧
    hit_counts a = Some counts ∧
    export_profile G dimensions path = Ok (profile_of path a hit refusal counts) ∧
    length (zip dimensions (key_of G <$> tail path)) = depth a.
Proof.
  intros Hl Hd. pose proof (profile_leaf_not_root leaf Hl) as Hne.
  apply list_elem_of_filter in Hl as [_ Hin].
  destruct (shortest_path_tree G Hok leaf Hin) as (path & Hp & Hlen & Hlast & Hc).
  destruct (node_attrs_is_Some G leaf Hin) as [a Ha].
  destruct (stats_of_node leaf a Ha Hne) as (hit & refusal & counts & H1 & H2 & H3).
  assert (depth_of G leaf = depth a) as Hda by (unfold depth_of; by rewrite Ha).
  exists path, a, hit, refusal, counts. repeat split; try done.
  - unfold export_profile, get_attrs. rewrite Hlast. simpl. rewrite Ha. simpl.
    rewrite H1, H2, H3. simpl.
    rewrite (export_fragments G dimensions (tail path) 0 []); try done.
    + intros x Hx. eapply (chain_nodes G Hok); [exact Hc | exact Hlast | done |].
      destruct path; [done | by right].
    + rewrite tail_length. simpl. lia.
  - rewrite length_zip_with, length_fmap, tail_length. lia.
Qed.

Lemma export_profiles_complete leaves :
  (∀ leaf, leaf ∈ leaves → leaf ∈ profile_leaves G ∧
                            depth_of G leaf ≤ length dimensions) →
  ∃ paths profiles,
    mapM_r (shortest_path G 0) leaves = Ok paths ∧
    mapM_r (export_profile G dimensions) paths = Ok profiles.
Proof.
  induction leaves as [|leaf leaves IH]; intros H; [by exists [], []|].
  destruct (H leaf) as [Hl Hd]; [by left|].
  destruct (export_profile_leaf leaf Hl Hd) as (path & a & h & r & c & Hp & _ & _ & _ & _ & He & _).
  destruct IH as (paths & profiles & H1 & H2); [intros; apply H; by right|].
  exists (path :: paths), (profile_of path a h r c :: profiles). simpl.
  rewrite Hp, He. simpl. rewrite H1, H2. done.
Qed.

End ExportFacts.

(** ** Statements about pruning, filtering and exporting *)

(** C6, as stated, fails: a too-shallow profile directly below the root
    is removed and the root, childless by then, is removed after it. *)
Lemma filter_removes_childless_root :
  has_node tree_one_chance 0 = true ∧
  filter_leaves_under_minimum_depth tree_one_chance 3 0 = Ok empty_graph ∧
  has_node empty_graph 0 = false.
Proof. vm_compute. auto. Qed.

(** C7, as stated, fails: with a feature name given twice the later
    value replaces the earlier one, and the profile of a leaf at depth 2
    has one feature. *)
Lemma export_merges_repeated_feature :
  tree_ok tree_two_features = true ∧
  profile_leaves tree_two_features = [2; 3] ∧
  depth_of tree_two_features 2 = 2 ∧
  ∃ profiles,
    export_profiles_to_dict_from_tree tree_two_features ["a"; "a"] 0
      = Ok profiles ∧
    (p_features ∘ snd) <$> profiles = [[("a", "old")]; [("a", "young")]].
Proof.
  split; [vm_compute; reflexivity|]. split; [vm_compute; reflexivity|].
  split; [reflexivity|]. eexists. split; vm_compute; reflexivity.
Qed.

(** C7, amended. In a well-formed tree whose non-root nodes carry their statistics,
    exported with a duplicate-free feature list that is at least as long
    as the leaves are deep, the [i]-th leaf with one incoming edge yields
    the [i]-th profile: its features pair the feature names, in order,
    with the keys of the non-root nodes of the path from the root, there
    are as many of them as the depth of the leaf, and the record carries
    the leaf's type, its two percentages divided by 100, its group size
    and its hit counts. *)
Theorem export_profile_of_leaf (G : DiGraph) (dimensions : list string)
    (root_node_id : nat) :
  tree_ok G = true → stats_ok G = true → NoDup dimensions →
  Forall (λ leaf, depth_of G leaf ≤ length dimensions) (profile_leaves G) →
  ∃ profiles,
    export_profiles_to_dict_from_tree G dimensions root_node_id = Ok profiles ∧
    ∀ i leaf, profile_leaves G !! i = Some leaf →
      ∃ path a hit refusal counts prof,
        shortest_path G 0 leaf = Ok path ∧ node_attrs G leaf = Some a ∧
        hit_percentage a = Some hit ∧ refusal_percentage a = Some refusal ∧
        hit_counts a = Some counts ∧
        profiles !! i = Some (i, prof) ∧
        p_type prof = profile_type a ∧
        p_hit_percentage prof = (hit / 100)%float ∧
        p_refusal_percentage prof = (refusal / 100)%float ∧
        p_size prof = total_count a ∧
        p_hit_counts prof = counts ∧
        p_features prof = zip dimensions (key_of G <$> tail path) ∧
        length (p_features prof) = depth a.
Proof.
  intros Hok Hstats Hnd Hdepth. rewrite Forall_forall in Hdepth.
  destruct (export_profiles_complete G dimensions Hok Hstats Hnd (profile_leaves G))
    as (paths & profiles & H1 & H2); [by auto|].
  exists (enumerate_from 0 profiles). split.
  { unfold export_profiles_to_dict_from_tree. rewrite H1. simpl. by rewrite H2. }
  intros i leaf Hi.
  destruct (mapM_r_lookup _ _ _ _ _ H1 Hi) as (path' & Hpi & Hp').
  destruct (mapM_r_lookup _ _ _ _ _ H2 Hpi) as (prof & Hqi & Hq).
  assert (leaf ∈ profile_leaves G) as Hl by (apply list_elem_of_lookup; eauto).
  destruct (export_profile_leaf G dimensions Hok Hstats Hnd leaf Hl (Hdepth _ Hl))
    as (path & a & hit & refusal & counts & Hp & Ha & Hh & Hr & Hc & He & Hlen).
  rewrite Hp in Hp'. inversion Hp'; subst path'.
  rewrite He in Hq. inversion Hq; subst prof.
  exists path, a, hit, refusal, counts, (profile_of G dimensions path a hit refusal counts).
  repeat split; try done.
  by rewrite (enumerate_from_lookup _ 0 i _ Hqi).
Qed.

Lemma export_profile_of_leaf_witness :
  ∃ profiles,
    export_profiles_to_dict_from_tree tree_two_features ["country"; "age_band"] 0
      = Ok profiles ∧
    (p_features ∘ snd) <$> profiles
      = [[("country", "A"); ("age_band", "old")];
         [("country", "A"); ("age_band", "young")]].
Proof.
  destruct (export_profile_of_leaf tree_two_features ["country"; "age_band"] 0)
    as (profiles & H & _).
  - reflexivity.
  - reflexivity.
  - apply (bool_decide_unpack _). vm_compute. exact I.
  - apply (bool_decide_unpack _). vm_compute. exact I.
  - exists profiles. split; [exact H|].
    vm_compute in H. inversion H. reflexivity.
Defined.

(** C10. The exporter ignores its [root_node_id] argument: the paths
    start at node [0] whatever value is passed. *)
Theorem export_ignores_root_node_id (G : DiGraph) (dimensions : list string)
    (r1 r2 : nat) :
  export_profiles_to_dict_from_tree G dimensions r1
  = export_profiles_to_dict_from_tree G dimensions r2.
Proof. reflexivity. Qed.

(** The passes of [prune_tree] on a concrete tree: the first pass removes
    nodes and asks for another one. *)
Lemma prune_tree_terminates_witness :
  ∃ t', prune_pass remove_dups 3 tree_risk_branch = Ok (t', false) ∧
        node_count t' < node_count tree_risk_branch ∧
        ∃ r, prune_tree remove_dups 3 tree_risk_branch = Some r.
Proof.
  eexists. split; [reflexivity|].
  destruct (prune_tree_terminates remove_dups 3 tree_risk_branch) as [Hlt Hr].
  split; [apply Hlt; reflexivity | exact Hr].
Defined.

Lemma prune_tree_idempotent_witness :
  ∃ t', prune_tree remove_dups 3 tree_risk_branch = Some (Ok t') ∧
        node_ids t' = [0; 1; 3; 4] ∧
        prune_tree remove_dups 3 t' = Some (Ok t').
Proof.
  eexists. split; [reflexivity|]. split; [reflexivity|].
  apply (prune_tree_idempotent remove_dups 3 tree_risk_branch). reflexivity.
Defined.

(** ** The classification rule is the fixed-order rule *)

(** C1. For all statistics and thresholds the [profile_type] column is
    computed by the fixed-order rule on the thresholds divided by 100:
    [chance] when both percentages are at most the chance thresholds,
    otherwise [risk] when the hit percentage is at least the risk
    threshold, otherwise [inbetween]; it is a function into the three
    types, so every input gets exactly one of them.  The percentages are
    doubles or NULL; the division by 100 and the comparisons are those of
    doubles, and a comparison with NULL is not TRUE. *)
Theorem profile_type_fixed_order_rule (th : Thresholds)
    (hit refusal : option float) :
  let chance_max_hit :=
    Some (chance_max_hit_percentage_threshold th / 100)%float in
  let chance_max_refusal :=
    Some (chance_max_refusal_percentage_threshold th / 100)%float in
  let risk_min_hit :=
    Some (risk_min_hit_percentage_threshold th / 100)%float in
  let ty := profile_type_column th hit refusal in
  (is_le hit chance_max_hit ∧ is_le refusal chance_max_refusal → ty = chance) ∧
  (¬ (is_le hit chance_max_hit ∧ is_le refusal chance_max_refusal) →
   is_le risk_min_hit hit → ty = risk) ∧
  (¬ (is_le hit chance_max_hit ∧ is_le refusal chance_max_refusal) →
   ¬ is_le risk_min_hit hit → ty = inbetween) ∧
  (ty = chance ∨ ty = risk ∨ ty = inbetween) ∧
  (∀ h r, hit = Some h → refusal = Some r →
     ty = classify h r (chance_max_hit_percentage_threshold th / 100)
                       (chance_max_refusal_percentage_threshold th / 100)
                       (risk_min_hit_percentage_threshold th / 100)).
Proof.
  intros cmh cmr rmh ty.
  unfold ty, profile_type_column, classify, is_le, sql_ge, sql_and.
  fold cmh cmr rmh. unfold cmh, cmr, rmh, sql_le.
  destruct hit as [h|], refusal as [r|]; simpl;
    repeat match goal with
           | |- context [double_le ?a ?b] => destruct (double_le a b) eqn:?
           end; simpl;
    repeat split; intros;
    try match goal with H : ¬ _ |- _ => exfalso; apply H; by split end;
    try match goal with H : _ ∧ _ |- _ => destruct H end;
    simplify_eq; try done; auto;
    repeat match goal with H : double_le _ _ = _ |- _ => rewrite H; clear H end;
    done.
Qed.

(** With a NULL hit percentage no condition is TRUE and the type is
    [inbetween]. *)
Lemma profile_type_null_hit_percentage (th : Thresholds) (refusal : option float) :
  profile_type_column th None refusal = inbetween.
Proof.
  unfold profile_type_column, sql_ge, sql_le, sql_and. simpl.
  destruct refusal as [r|]; [destruct (double_le _ _)|]; done.
Qed.

(** The quotient of a threshold by 100 is rounded: with the thresholds
    2.8 and 3.6, a group with 7 hits in 250 records (2.8 per cent) is not
    [chance] and a group with 9 hits in 250 (3.6 per cent) is not [risk],
    because 2.8 / 100 is the double below 7 / 250 and 3.6 / 100 the
    double above 9 / 250. *)
Lemma profile_type_rounded_thresholds :
  let th := {| chance_max_hit_percentage_threshold := float_of_Z 28 / 10;
               chance_max_refusal_percentage_threshold := 100;
               risk_min_hit_percentage_threshold := float_of_Z 36 / 10;
               minimal_groupsize := 1 |} in
  profile_type_column th (Some (float_of_Z 7 / float_of_Z 250)%float) (Some 0%float)
    = inbetween ∧
  profile_type_column th (Some (float_of_Z 9 / float_of_Z 250)%float) (Some 0%float)
    = inbetween.
Proof. split; vm_compute; reflexivity. Qed.

Lemma profile_type_fixed_order_rule_witness :
  profile_type_column scenario_thresholds
    (Some (float_of_Z 2 / float_of_Z 100)%float)
    (Some (float_of_Z 5 / float_of_Z 100)%float) = chance ∧
  profile_type_column scenario_thresholds
    (Some (float_of_Z 50 / float_of_Z 100)%float)
    (Some (float_of_Z 5 / float_of_Z 100)%float) = risk ∧
  profile_type_column scenario_thresholds
    (Some (float_of_Z 20 / float_of_Z 100)%float)
    (Some (float_of_Z 5 / float_of_Z 100)%float) = inbetween ∧
  profile_type_column scenario_thresholds None
    (Some (float_of_Z 5 / float_of_Z 100)%float) = inbetween.
Proof.
  split; [|split; [|split]].
  - destruct (profile_type_fixed_order_rule scenario_thresholds
                (Some (float_of_Z 2 / float_of_Z 100)%float)
                (Some (float_of_Z 5 / float_of_Z 100)%float)) as (H & _).
    apply H. split; vm_compute; reflexivity.
  - destruct (profile_type_fixed_order_rule scenario_thresholds
                (Some (float_of_Z 50 / float_of_Z 100)%float)
                (Some (float_of_Z 5 / float_of_Z 100)%float)) as (_ & H & _).
    apply H; [intros [H1 _]; revert H1|]; vm_compute; [discriminate | reflexivity].
  - destruct (profile_type_fixed_order_rule scenario_thresholds
                (Some (float_of_Z 20 / float_of_Z 100)%float)
                (Some (float_of_Z 5 / float_of_Z 100)%float)) as (_ & _ & H & _).
    apply H; [intros [H1 _]; revert H1 | intros H1; revert H1];
      vm_compute; discriminate.
  - destruct (profile_type_fixed_order_rule scenario_thresholds None
                (Some (float_of_Z 5 / float_of_Z 100)%float)) as (_ & _ & H & _).
    apply H; [intros [H1 _]; revert H1 | intros H1; revert H1];
      vm_compute; discriminate.
Defined.

(** ** Node hashes are 128-bit digests *)

Lemma add32_range x y : (0 ≤ add32 x y < 2 ^ 32)%Z.
Proof. unfold add32. apply Z.mod_pos_bound. lia. Qed.

Lemma md5_chunk_range st chunk : words_in_range (md5_chunk st chunk).
Proof.
  unfold md5_chunk.
  destruct (fold_left _ _ st) as [[[A B] C] D]. destruct st as [[[a b] c] d].
  unfold words_in_range. auto using add32_range.
Qed.

Lemma md5_chunks_range chunks : ∀ st,
  words_in_range st → words_in_range (fold_left md5_chunk chunks st).
Proof.
  induction chunks as [|c chunks IH]; intros st H; simpl; [done|].
  apply IH, md5_chunk_range.
Qed.

Lemma md5_digest_range msg : (0 ≤ md5_digest msg < 2 ^ 128)%Z.
Proof.
  unfold md5_digest, md5_state.
  pose proof (md5_chunks_range
    (md5_chunks (length (md5_padding msg)) (md5_padding msg)) md5_init) as H.
  destruct (fold_left _ _ md5_init) as [[[a b] c] d].
  unfold words_in_range, md5_init in H. lia.
Qed.

Lemma hex_byte_length b : String.length (hex_byte b) = 2.
Proof. done. Qed.

Lemma string_app_length (s1 s2 : string) :
  String.length (s1 +:+ s2) = String.length s1 + String.length s2.
Proof. induction s1 as [|c s1 IH]; simpl; [done | by rewrite IH]. Qed.

Lemma hex_le_length k : ∀ n, String.length (hex_le k n) = 2 * k.
Proof.
  induction k as [|k IH]; intros n; [done|].
  cbn [hex_le]. rewrite string_app_length, hex_byte_length, IH. lia.
Qed.

(** The MD5 and JSON models on messages whose digests are known (the
    values are those that [hashlib] returns). *)
Example md5_empty : md5_hexdigest [] = "d41d8cd98f00b204e9800998ecf8427e".
Proof. vm_compute. reflexivity. Qed.

Example md5_abc :
  md5_hexdigest (encode_utf8 "abc") = "900150983cd24fb0d6963f7d28e17f72".
Proof. vm_compute. reflexivity. Qed.

Example md5_two_blocks :
  md5_hexdigest (encode_utf8
    "12345678901234567890123456789012345678901234567890123456789012345678901234567890")
  = "57edf4a22be3c955ac49da2e2107b67a".
Proof. vm_compute. reflexivity. Qed.

Example node_hash_country_age_band :
  node_hash [("country", VStr "A"); ("age_band", VStr "old")]
  = "7bf25d752a77892717391c57a19f5ceb".
Proof. vm_compute. reflexivity. Qed.

(** A negative integer and a string with a quote, a backslash, control
    characters, DEL and a character above 127. *)
Example node_hash_escapes :
  node_hash [("n", VInt (-12));
             ("s", VStr (String "a" (String quote_char (String "b"
                     (String backslash (String "c" (String (ascii_of_nat 10)
                     (String (ascii_of_nat 9) (String (ascii_of_nat 1)
                     (String (ascii_of_nat 127) (String (ascii_of_nat 233)
                     "")))))))))))]
  = "a8fab48593d386f5f12e09668cecd95c".
Proof. vm_compute. reflexivity. Qed.

(** [json.dumps] writes [None] as [null]. *)
Example node_hash_null :
  node_hash [("a", VNull); ("b", VInt 3)] = "e35df67500e7318841366e9eb7a9a448".
Proof. vm_compute. reflexivity. Qed.

(** Among the values of a function on a duplicate-free list two are
    equal, or all are distinct. *)
Lemma fmap_collision_or_NoDup {A B} `{EqDecision B} (f : A → B) (l : list A) :
  NoDup l →
  NoDup (f <$> l) ∨ ∃ i j, i ∈ l ∧ j ∈ l ∧ i ≠ j ∧ f i = f j.
Proof.
  induction l as [|a l IH]; intros Hnd; [left; constructor|].
  apply NoDup_cons in Hnd as [Ha Hnd].
  destruct (IH Hnd) as [Hf|(i & j & Hi & Hj & Hne & Heq)].
  - destruct (decide (f a ∈ f <$> l)) as [Hin|Hnin].
    + right. apply list_elem_of_fmap in Hin as (j & Heq & Hj).
      exists a, j. split; [by left|]. split; [by right|].
      split; [|done]. intros ->. done.
    + left. rewrite fmap_cons. by apply NoDup_cons.
  - right. exists i, j. split; [by right|]. split; [by right|]. done.
Qed.

(** A function from [0..n] into [0..n-1] takes one value twice. *)
Lemma collision_in_range (f : Z → Z) (n : Z) :
  (0 ≤ n)%Z →
  (∀ i, (0 ≤ i ≤ n)%Z → (0 ≤ f i < n)%Z) →
  ∃ i j, (0 ≤ i ≤ n)%Z ∧ (0 ≤ j ≤ n)%Z ∧ i ≠ j ∧ f i = f j.
Proof.
  intros Hn Hrange.
  destruct (fmap_collision_or_NoDup f (seqZ 0 (n + 1)) (NoDup_seqZ _ _))
    as [Hnd|(i & j & Hi & Hj & Hne & Heq)].
  - assert (f <$> seqZ 0 (n + 1) ⊆+ seqZ 0 n) as Hsub.
    { apply NoDup_submseteq; [done|]. intros y Hy.
      apply list_elem_of_fmap in Hy as (i & -> & Hi). apply elem_of_seqZ in Hi.
      apply elem_of_seqZ. specialize (Hrange i). lia. }
    apply submseteq_length in Hsub.
    rewrite length_fmap, !length_seqZ in Hsub. lia.
  - apply elem_of_seqZ in Hi, Hj. exists i, j. repeat split; (done || lia).
Qed.

(** ** A missing parent aborts the build *)

Lemma foldM_r_app {A S} (f : S → A → result S) l1 l2 s :
  foldM_r f s (l1 ++ l2) = (s' ←ᵣ foldM_r f s l1 ;; foldM_r f s' l2).
Proof.
  revert s. induction l1 as [|x l1 IH]; intros s; simpl; [done|].
  destruct (f s x); simpl; [apply IH | done].
Qed.

Lemma foldM_r_ext {A S} (f g : S → A → result S) l s :
  (∀ s x, x ∈ l → f s x = g s x) → foldM_r f s l = foldM_r g s l.
Proof.
  revert s. induction l as [|x l IH]; intros s H; simpl; [done|].
  rewrite H by by left. destruct (g s x); simpl; [|done].
  apply IH. intros; apply H; by right.
Qed.

(** What a row that is added without an exception has, and the state
    after it. *)
Lemma build_row_Ok_inv th f fs d st r st' :
  build_row th f fs d st r = Ok st' →
  ∃ v c p hit refusal,
    row_get r f = Ok v ∧ v ≠ VNull ∧
    feature_combination r fs = Ok c ∧
    node_registry st !! node_hash (parent_combination c f) = Some p ∧
    applicant_hit_percentage r = Some hit ∧
    g_refusal_percentage r = Some refusal ∧
    row_node th d f r = row_attrs th d (feature_value_string v) r hit refusal ∧
    st' = {| b_tree := add_edge (add_node (b_tree st) (S (current_node_number st))
                                   (row_node th d f r))
                                p (S (current_node_number st));
             node_registry := <[node_hash c := S (current_node_number st)]>
                                (node_registry st);
             current_node_number := S (current_node_number st) |}.
Proof.
  unfold build_row. intros H.
  inv_bind H. inv_bind H. inv_bind H. inv_bind H. inv_bind H. inv_bind H.
  inversion H; subst; clear H. rename x into v. rename x0 into c.
  unfold of_option in Hx1.
  destruct (node_registry st !! _) as [p|] eqn:Ep; [|done].
  inversion Hx1; subst x1. clear Hx1.
  unfold float_checked, of_option in Hx3, Hx4.
  destruct (applicant_hit_percentage r) as [hit|] eqn:Eh; [|done].
  destruct (g_refusal_percentage r) as [refusal|] eqn:Er; [|done].
  inversion Hx3; inversion Hx4; subst x3 x4. clear Hx3 Hx4.
  assert (v ≠ VNull ∧ x2 = feature_value_string v) as [Hv Hkey].
  { destruct v; simpl in Hx2; inversion Hx2; done. }
  subst x2.
  assert (row_node th d f r = row_attrs th d (feature_value_string v) r hit refusal)
    as Hnode.
  { unfold row_node, row_key_string. rewrite Eh, Er. unfold row_get in Hx.
    destruct (dict_get (g_features r) f); inversion Hx; by subst. }
  exists v, c, p, hit, refusal. rewrite Hnode. done.
Qed.

(** ** The collected rows do not depend on the order of the groups *)

Section SortOrder.

Variable features : list string.

Global Instance row_le_total : Total (row_le features).
Proof.
  intros r1 r2. unfold row_le.
  destruct (trichotomy lexico (sort_key features r1) (sort_key features r2))
    as [H|[H|H]].
  - left. intros H'. by apply (strict_anti_symm (R:=lexico) _ _ H).
  - left. rewrite H. apply irreflexivity, _.
  - right. intros H'. by apply (strict_anti_symm (R:=lexico) _ _ H).
Qed.

Global Instance row_le_trans : Transitive (row_le features).
Proof.
  intros r1 r2 r3. unfold row_le. intros H12 H23 H31.
  destruct (trichotomy lexico (sort_key features r2) (sort_key features r3))
    as [H|[H|H]]; [|congruence|done].
  apply H12. by trans (sort_key features r3).
Qed.

Lemma row_le_antisym_key r1 r2 :
  row_le features r1 r2 → row_le features r2 r1 →
  sort_key features r1 = sort_key features r2.
Proof.
  unfold row_le. intros H12 H21.
  by destruct (trichotomy lexico (sort_key features r1) (sort_key features r2))
    as [H|[H|H]].
Qed.

End SortOrder.

Lemma NoDup_fmap_eq {A B} (f : A → B) (l : list A) x y :
  NoDup (f <$> l) → x ∈ l → y ∈ l → f x = f y → x = y.
Proof.
  induction l as [|a l IH]; intros Hnd Hx Hy Hf; [by apply elem_of_nil in Hx|].
  rewrite fmap_cons in Hnd. apply NoDup_cons in Hnd as [Ha Hnd].
  apply elem_of_cons in Hx as [->|Hx], Hy as [->|Hy]; [done | | | by apply IH].
  - destruct Ha. rewrite Hf. by apply list_elem_of_fmap_2.
  - destruct Ha. rewrite <- Hf. by apply list_elem_of_fmap_2.
Qed.

Lemma collect_layer_sorted df th features :
  StronglySorted (row_le features) (collect_layer df th features).
Proof. unfold collect_layer. apply StronglySorted_merge_sort; apply _. Qed.

Lemma collect_layer_elem df th features r :
  r ∈ collect_layer df th features → r ∈ df_group_by_agg df features.
Proof.
  unfold collect_layer. rewrite merge_sort_Permutation.
  intros H. by apply list_elem_of_filter in H as [_ ?].
Qed.

Lemma collect_layer_perm df1 df2 th features :
  df_group_by_agg df1 features ≡ₚ df_group_by_agg df2 features →
  NoDup (sort_key features <$> df_group_by_agg df1 features) →
  collect_layer df1 th features = collect_layer df2 th features.
Proof.
  intros Hperm Hnd.
  apply (StronglySorted_unique_strong (row_le features));
    [| apply collect_layer_sorted.. |].
  - intros r1 r2 H1 H2 H12 H21.
    apply collect_layer_elem in H1, H2. rewrite <- Hperm in H2.
    eapply NoDup_fmap_eq; [exact Hnd | done.. |].
    by apply row_le_antisym_key.
  - unfold collect_layer. rewrite !merge_sort_Permutation. by rewrite Hperm.
Qed.

(** ** Node ids follow the order of the collected rows *)

Lemma build_row_nodes th f fs d st r st' :
  build_row th f fs d st r = Ok st' → ids_sequential st →
  ids_sequential st' ∧
  (nodes (b_tree st')).*2
  = (nodes (b_tree st)).*2 ++ [row_node th d f r].
Proof.
  unfold ids_sequential. intros H Hids.
  apply build_row_Ok_inv in H as (v & c & p & hit & refusal & _ & _ & _ & _ & _ & _ & _ & ->).
  assert (has_node (b_tree st) (S (current_node_number st)) = false) as Hfresh.
  { unfold has_node. apply bool_decide_eq_false_2. rewrite Hids.
    rewrite elem_of_seq. lia. }
  unfold node_ids in *. cbn [b_tree add_edge add_node nodes current_node_number].
  rewrite Hfresh, !fmap_app. cbn [fmap list_fmap fst snd].
  split; [|done].
  rewrite Hids. symmetry. exact (seq_S (S (current_node_number st)) 0).
Qed.

Lemma build_rows_nodes th f fs d rows : ∀ st st',
  foldM_r (build_row th f fs d) st rows = Ok st' → ids_sequential st →
  ids_sequential st' ∧
  (nodes (b_tree st')).*2
  = (nodes (b_tree st)).*2 ++ (row_node th d f <$> rows).
Proof.
  induction rows as [|r rows IH]; intros st st' H Hids; simpl in H.
  - inversion H; subst. by rewrite app_nil_r.
  - inv_bind H. destruct (build_row_nodes _ _ _ _ _ _ _ Hx Hids) as [Hids1 Hn1].
    destruct (IH _ _ H Hids1) as [Hids' Hn']. split; [done|].
    rewrite Hn', Hn1, <- app_assoc. done.
Qed.

Lemma build_layers_nodes df th fs layers : ∀ st st',
  foldM_r (build_layer df th fs) st layers = Ok st' → ids_sequential st →
  ids_sequential st' ∧
  (nodes (b_tree st')).*2
  = (nodes (b_tree st)).*2 ++ concat (layer_nodes df th fs <$> layers).
Proof.
  induction layers as [|layer layers IH]; intros st st' H Hids; simpl in H.
  - inversion H; subst. by rewrite app_nil_r.
  - inv_bind H. unfold build_layer in Hx.
    destruct (build_rows_nodes _ _ _ _ _ _ _ Hx Hids) as [Hids1 Hn1].
    destruct (IH _ _ H Hids1) as [Hids' Hn']. split; [done|].
    rewrite Hn', Hn1, <- app_assoc. done.
Qed.

(** C8. The build is deterministic.  Two DataFrames with the same row
    count whose aggregations return the same groups, in any order and one
    row per combination, give the same outcome (the same tree with the
    same ids, attributes and edges, or the same exception).  The rows of
    a layer are collected in ascending order of their feature values, ids
    are given in sequence, and the nodes follow the root layer by layer,
    within a layer in the order of the collected rows. *)
Theorem build_tree_deterministic (df1 df2 : DataFrame)
    (features_ordered : list string) (th : Thresholds) :
  df_count df1 = df_count df2 →
  (∀ fs, df_group_by_agg df1 fs ≡ₚ df_group_by_agg df2 fs) →
  (∀ fs, NoDup (sort_key fs <$> df_group_by_agg df1 fs)) →
  build_tree df1 features_ordered th = build_tree df2 features_ordered th ∧
  (∀ fs, StronglySorted (row_le fs) (collect_layer df1 th fs)) ∧
  (∀ t ps, build_tree df1 features_ordered th = Ok (t, ps) →
     node_ids t = seq 0 (node_count t) ∧
     (nodes t).*2 = root_attrs (df_count df1)
                    :: concat (layer_nodes df1 th features_ordered
                               <$> enumerate_from 0 features_ordered)).
Proof.
  intros Hcount Hperm Hnd. split; [|split].
  - unfold build_tree.
    assert (build_init df1 = build_init df2) as ->
      by (unfold build_init; by rewrite Hcount).
    rewrite (foldM_r_ext (build_layer df1 th features_ordered)
                         (build_layer df2 th features_ordered)); [done|].
    intros st layer _. unfold build_layer.
    by rewrite (collect_layer_perm df1 df2).
  - intros fs. apply collect_layer_sorted.
  - intros t ps H. unfold build_tree in H. inv_bind H. inversion H; subst.
    destruct (build_layers_nodes _ _ _ _ _ _ Hx) as [Hids Hn]; [done|].
    split; [|exact Hn].
    unfold ids_sequential in Hids. rewrite Hids. f_equal.
    unfold node_count. rewrite <- (length_fmap fst). fold (node_ids (b_tree x)).
    by rewrite Hids, length_seq.
Qed.

Lemma build_tree_deterministic_witness :
  build_tree (scenario_df false) ["country"; "age_band"] scenario_thresholds
  = build_tree (scenario_df true) ["country"; "age_band"] scenario_thresholds.
Proof.
  apply (build_tree_deterministic (scenario_df false) (scenario_df true)).
  - reflexivity.
  - intros fs. simpl. repeat case_bool_decide.
    + apply perm_swap.
    + apply (Permutation_cons_append [_; _]).
    + reflexivity.
  - intros fs. simpl. repeat case_bool_decide; subst;
      apply (bool_decide_unpack _); vm_compute; exact I.
Defined.

(** * Part V: further properties of the four functions *)

(** ** What removals do to the rest of the graph *)

Lemma out_degree_pos_edge t x : out_degree t x ≠ 0 → ∃ c, (x, c) ∈ edges t.
Proof.
  unfold out_degree, successors. rewrite length_fmap. intros H.
  destruct (filter _ (edges t)) as [|[p c] l] eqn:E; [done|].
  assert ((p, c) ∈ filter (λ e : nat * nat, e.1 = x) (edges t)) as Hin
    by (rewrite E; by left).
  apply list_elem_of_filter in Hin as [Hp Hin]. simpl in Hp. subst. eauto.
Qed.

Lemma out_degree_drop_node_0 t y x :
  out_degree t x = 0 → out_degree (drop_node t y) x = 0.
Proof.
  intros H. destruct (decide (out_degree (drop_node t y) x = 0)) as [|Hne]; [done|].
  apply out_degree_pos_edge in Hne as [c Hc].
  apply edges_drop_node in Hc as [Hc _]. by apply out_degree_edge in Hc.
Qed.

Lemma leaf_removals_edges t t' e :
  leaf_removals t t' → e ∈ edges t' → e ∈ edges t.
Proof.
  induction 1 as [|t x t' _ _ _ IH]; [done|].
  intros He. apply IH in He. by apply edges_drop_node in He as [? _].
Qed.

Lemma leaf_removals_out_degree_0 t t' x :
  leaf_removals t t' → out_degree t x = 0 → out_degree t' x = 0.
Proof.
  intros Hrem H. destruct (decide (out_degree t' x = 0)) as [|Hne]; [done|].
  apply out_degree_pos_edge in Hne as [c Hc].
  eapply leaf_removals_edges in Hc; [|done]. by apply out_degree_edge in Hc.
Qed.

(** Removing a childless node leaves the predecessors and the attributes
    of every other node as they were. *)
Lemma predecessors_drop_leaf t y x :
  out_degree t y = 0 → x ≠ y →
  predecessors (drop_node t y) x = predecessors t x.
Proof.
  intros Hy Hne. unfold predecessors, drop_node. simpl. f_equal.
  assert (∀ e, e ∈ edges t → e.1 ≠ y) as Hsrc.
  { intros [p c] He Hp. simpl in Hp. subst p. by apply out_degree_edge in He. }
  induction (edges t) as [|e l IH]; [done|].
  rewrite !filter_cons.
  assert (e.1 ≠ y) by (apply Hsrc; by left).
  assert (∀ e', e' ∈ l → e'.1 ≠ y) by (intros; apply Hsrc; by right).
  destruct (decide (e.2 = x)) as [He|He].
  - rewrite decide_True by (split; [done | congruence]).
    rewrite filter_cons, decide_True by done. f_equal. by apply IH.
  - destruct (decide (e.1 ≠ y ∧ e.2 ≠ y)); [|by apply IH].
    rewrite filter_cons, decide_False by done. by apply IH.
Qed.

Lemma node_attrs_drop_node t y x :
  x ≠ y → node_attrs (drop_node t y) x = node_attrs t x.
Proof.
  intros Hne. unfold node_attrs, drop_node. simpl. f_equal.
  induction (nodes t) as [|[z a] l IH]; [done|].
  rewrite filter_cons. simpl. destruct (decide (z ≠ y)) as [Hz|Hz]; simpl.
  - case_bool_decide; [done | apply IH].
  - rewrite bool_decide_eq_false_2 by (intros ->; apply Hz; congruence). apply IH.
Qed.

Lemma leaf_removals_predecessors t t' x :
  leaf_removals t t' → x ∈ node_ids t' → predecessors t' x = predecessors t x.
Proof.
  induction 1 as [|t y t' _ Hy Hrem IH]; [done|].
  intros Hx. rewrite (IH Hx). apply predecessors_drop_leaf; [done|].
  eapply leaf_removals_nodes in Hx; [|done].
  by apply node_ids_drop_node in Hx as [_ ?].
Qed.

Lemma leaf_removals_node_attrs t t' x :
  leaf_removals t t' → x ∈ node_ids t' → node_attrs t' x = node_attrs t x.
Proof.
  induction 1 as [|t y t' _ Hy Hrem IH]; [done|].
  intros Hx. rewrite (IH Hx). apply node_attrs_drop_node.
  eapply leaf_removals_nodes in Hx; [|done].
  by apply node_ids_drop_node in Hx as [_ ?].
Qed.

(** ** prune_tree removes childless nodes only *)

Lemma mapM_r_elem {A B} (f : A → result B) l ys x :
  mapM_r f l = Ok ys → x ∈ l → ∃ y, y ∈ ys ∧ f x = Ok y.
Proof.
  intros H Hx. apply list_elem_of_lookup in Hx as [i Hi].
  destruct (mapM_r_lookup _ _ _ _ _ H Hi) as (y & Hy & Hf).
  exists y. split; [by eapply list_elem_of_lookup_2 | done].
Qed.

Lemma remove_leaves_removals l : ∀ t t',
  (∀ x, x ∈ l → out_degree t x = 0) →
  foldM_r remove_node t l = Ok t' → leaf_removals t t'.
Proof.
  induction l as [|x l IH]; intros t t' Hl H; simpl in H.
  - inversion H. constructor.
  - inv_bind H. apply remove_node_Ok in Hx as [Hin ->].
    eapply leaf_removals_step; [done | apply Hl; by left |].
    apply IH; [|done]. intros y Hy. apply out_degree_drop_node_0, Hl. by right.
Qed.

Section PruneRemovals.

Variable set_order : list nat → list nat.
Variable min_depth_required : nat.

Lemma prune_parent_removals st p st' :
  prune_parent min_depth_required st p = Ok st' → leaf_removals st.1 st'.1.
Proof.
  unfold prune_parent. intros H. inv_bind H.
  case_bool_decide; [inversion H; constructor|].
  inv_bind H. rename x0 into outs.
  case_bool_decide as Hset; [inversion H; constructor|].
  inv_bind H.
  destruct (remove_dups x0) as [|ty [|??]]; try (inversion H; constructor).
  case_bool_decide; [|inversion H; constructor].
  inv_bind H. inversion H; subst; simpl.
  eapply remove_leaves_removals; [|done].
  intros c Hc. destruct (mapM_r_elem _ _ _ _ Hx0 Hc) as (d & Hd & Hout).
  unfold out_degree_of in Hout. destruct (has_node st.1 c); [|done].
  inversion Hout; subst.
  assert (out_degree st.1 c ∈ (list_to_set outs : gset nat)) as Hs
    by by apply elem_of_list_to_set.
  rewrite Hset in Hs. by apply elem_of_singleton in Hs.
Qed.

Lemma prune_pass_removals t st' :
  prune_pass set_order min_depth_required t = Ok st' → leaf_removals t st'.1.
Proof.
  unfold prune_pass. intros H. inv_bind H. inv_bind H.
  eapply leaf_removals_trans.
  - eapply remove_leaves_removals; [|done]. intros y Hy.
    unfold leaves_of_type_inbetween, leaves in Hy.
    apply list_elem_of_filter in Hy as [_ Hy].
    by apply list_elem_of_filter in Hy as [? _].
  - clear Hx Hx0. revert H. generalize (set_order x0). intros l.
    change x with ((x, bool_decide (leaves_of_type_inbetween t = [])).1) at 2.
    generalize (x, bool_decide (leaves_of_type_inbetween t = [])).
    induction l as [|p l IH]; intros st H; simpl in H.
    + inversion H. constructor.
    + inv_bind H. eapply leaf_removals_trans; [by eapply prune_parent_removals|].
      by apply IH.
Qed.

Lemma prune_loop_removals fuel : ∀ t t',
  prune_loop set_order min_depth_required fuel t = Some (Ok t') →
  leaf_removals t t'.
Proof.
  induction fuel as [|fuel IH]; intros t t' H; simpl in H; [done|].
  destruct (prune_pass set_order min_depth_required t) as [[t1 c]|e] eqn:E;
    [|done].
  apply prune_pass_removals in E. simpl in E.
  destruct c; [inversion H; by subst|].
  eapply leaf_removals_trans; [done | by apply IH].
Qed.

(** What the last pass of a successful run shows of the returned tree. *)
Lemma prune_pass_fixed_facts t :
  prune_pass set_order min_depth_required t = Ok (t, true) →
  leaves_of_type_inbetween t = [] ∧
  ∃ parents, mapM_r (first_predecessor t) (leaves t) = Ok parents ∧
    foldM_r (prune_parent min_depth_required) (t, true) (set_order parents)
    = Ok (t, true).
Proof.
  unfold prune_pass. intros H. inv_bind H. inv_bind H.
  pose proof H as H'.
  apply prune_parents_steps in H' as [H'|[H' _]]; [|done].
  injection H' as Ht Hc. subst x. rewrite <- Hc in H.
  symmetry in Hc. apply bool_decide_eq_true in Hc.
  split; [done|]. by exists x0.
Qed.

End PruneRemovals.

(** X1. When [prune_tree] returns a tree, that tree is the input with
    some nodes removed, each childless when it was removed: no node is
    added, and every node that is left has the attributes and the
    predecessors it had. *)
Theorem prune_tree_removes_childless_nodes_only
    (set_order : list nat → list nat) (min_depth_required : nat)
    (t t' : DiGraph) :
  prune_tree set_order min_depth_required t = Some (Ok t') →
  leaf_removals t t' ∧
  ∀ x, x ∈ node_ids t' →
       x ∈ node_ids t ∧ node_attrs t' x = node_attrs t x ∧
       predecessors t' x = predecessors t x.
Proof.
  intros H. apply prune_loop_removals in H. split; [done|]. intros x Hx.
  split; [by eapply leaf_removals_nodes|].
  split; [by apply leaf_removals_node_attrs | by apply leaf_removals_predecessors].
Qed.

Lemma prune_tree_removes_childless_nodes_only_witness :
  ∃ t', prune_tree remove_dups 3 tree_risk_branch = Some (Ok t') ∧
        node_ids t' = [0; 1; 3; 4] ∧ leaf_removals tree_risk_branch t'.
Proof.
  eexists. split; [reflexivity|]. split; [reflexivity|].
  apply (prune_tree_removes_childless_nodes_only remove_dups 3 tree_risk_branch).
  reflexivity.
Defined.

(** X2. In the tree that [prune_tree] returns every childless node has a
    predecessor and a type other than [inbetween]: no [inbetween] leaf is
    left, and a node without predecessor (the root) is never left
    childless. *)
Theorem prune_tree_leaves_are_typed_children
    (set_order : list nat → list nat) (min_depth_required : nat)
    (t t' : DiGraph) :
  prune_tree set_order min_depth_required t = Some (Ok t') →
  ∀ x, x ∈ leaves t' →
       predecessors t' x ≠ [] ∧
       ∀ a, node_attrs t' x = Some a → profile_type a ≠ inbetween.
Proof.
  intros H x Hx. apply prune_loop_fixed, prune_pass_fixed_facts in H
    as (Hinb & parents & Hp & _).
  split.
  - destruct (mapM_r_elem _ _ _ _ Hp Hx) as (p & _ & Hf).
    unfold first_predecessor in Hf. intros Hnil. by rewrite Hnil in Hf.
  - intros a Ha Hty.
    assert (x ∈ leaves_of_type_inbetween t') as Hin.
    { apply list_elem_of_filter. split; [|done]. rewrite Ha. simpl. by rewrite Hty. }
    rewrite Hinb in Hin. by apply elem_of_nil in Hin.
Qed.

Lemma prune_tree_leaves_are_typed_children_witness :
  ∃ t', prune_tree remove_dups 3 tree_risk_branch = Some (Ok t') ∧
        leaves t' = [4] ∧ predecessors t' 4 ≠ [].
Proof.
  eexists. split; [reflexivity|]. split; [reflexivity|].
  eapply (prune_tree_leaves_are_typed_children remove_dups 3 tree_risk_branch);
    [reflexivity | vm_compute; by left].
Defined.

(** ** The returned tree is a fixed point of the second pruning rule *)

Lemma elem_of_successors t p c : c ∈ successors t p ↔ (p, c) ∈ edges t.
Proof.
  unfold successors. rewrite list_elem_of_fmap. split.
  - intros ([p' c'] & -> & H). apply list_elem_of_filter in H as [Hp H].
    simpl in Hp. by subst.
  - intros H. exists (p, c). split; [done|]. by apply list_elem_of_filter.
Qed.

Lemma elem_of_predecessors t p c : p ∈ predecessors t c ↔ (p, c) ∈ edges t.
Proof.
  unfold predecessors. rewrite list_elem_of_fmap. split.
  - intros ([p' c'] & -> & H). apply list_elem_of_filter in H as [Hp H].
    simpl in Hp. by subst.
  - intros H. exists (p, c). split; [done|]. by apply list_elem_of_filter.
Qed.

Lemma mapM_r_elem_inv {A B} (f : A → result B) l : ∀ ys y,
  mapM_r f l = Ok ys → y ∈ ys → ∃ x, x ∈ l ∧ f x = Ok y.
Proof.
  induction l as [|a l IH]; intros ys y H Hy; simpl in H.
  - inversion H; subst. by apply elem_of_nil in Hy.
  - inv_bind H. inv_bind H. inversion H; subst.
    apply elem_of_cons in Hy as [->|Hy].
    + exists a. split; [by left | done].
    + destruct (IH _ _ Hx0 Hy) as (z & ? & ?). exists z. split; [by right | done].
Qed.

Lemma remove_dups_all_eq {A} `{EqDecision A} (l : list A) (x : A) :
  l ≠ [] → Forall (λ y, y = x) l → remove_dups l = [x].
Proof.
  induction l as [|y l IH]; intros Hne Hall; [done|].
  apply Forall_cons in Hall as [-> Hall]. simpl.
  destruct l as [|z l]; [done|].
  pose proof Hall as Hall'. apply Forall_cons in Hall' as [-> _].
  destruct (decide_rel elem_of x (x :: l)) as [_|Hn]; [by apply IH|].
  destruct Hn. by left.
Qed.

Section PruneFixedPoint.

Variable min_depth_required : nat.

Lemma prune_parents_all_unchanged l : ∀ st,
  foldM_r (prune_parent min_depth_required) st l = Ok st →
  ∀ p, p ∈ l → prune_parent min_depth_required st p = Ok st.
Proof.
  induction l as [|q l IH]; intros st H p Hp; [by apply elem_of_nil in Hp|].
  simpl in H. inv_bind H.
  assert (x = st) as ->.
  { pose proof (prune_parent_step _ _ _ _ Hx) as [->|[_ H1]]; [done|].
    pose proof (prune_parents_steps _ _ _ _ H) as [->|[_ H2]]; lia. }
  apply elem_of_cons in Hp as [->|Hp]; [done | by apply IH].
Qed.

(** A parent that the second rule looks at and leaves alone, although it
    is deep enough and all its children are leaves, has a child of
    another type. *)
Lemma prune_parent_unchanged_inv t p a :
  prune_parent min_depth_required (t, true) p = Ok (t, true) →
  node_attrs t p = Some a → min_depth_required ≤ depth a →
  successors t p ≠ [] →
  (∀ c, c ∈ successors t p → c ∈ node_ids t ∧ out_degree t c = 0) →
  ∃ c b, c ∈ successors t p ∧ node_attrs t c = Some b ∧
         profile_type b ≠ profile_type a.
Proof.
  unfold prune_parent, get_attrs. simpl. intros H Ha Hd Hne Hch.
  rewrite Ha in H. simpl in H.
  rewrite bool_decide_eq_false_2 in H by lia.
  inv_bind H. rename x into outs.
  assert (list_to_set outs = ({[0]} : gset nat)) as Hset.
  { apply set_eq. intros d. rewrite elem_of_list_to_set, elem_of_singleton. split.
    - intros Hdin. destruct (mapM_r_elem_inv _ _ _ _ Hx Hdin) as (c & Hc & Hout).
      destruct (Hch c Hc) as [Hin Hz]. unfold out_degree_of, has_node in Hout.
      rewrite bool_decide_eq_true_2 in Hout by done. inversion Hout. lia.
    - intros ->. destruct (successors t p) as [|c l] eqn:E; [done|].
      destruct (mapM_r_elem _ _ _ c Hx) as (d & Hdin & Hout); [by left|].
      destruct (Hch c) as [Hin Hz]; [by left|].
      unfold out_degree_of, has_node in Hout.
      rewrite bool_decide_eq_true_2 in Hout by done.
      inversion Hout; subst. by rewrite Hz in Hdin. }
  rewrite bool_decide_eq_false_2 in H by (intros Hn; by apply Hn).
  inv_bind H. rename x into types.
  destruct (decide (Forall (λ ty, ty = profile_type a) types)) as [Hall|Hex].
  - rewrite (remove_dups_all_eq types (profile_type a)) in H; [| |done].
    + rewrite bool_decide_eq_true_2 in H by done. inv_bind H. by inversion H.
    + intros ->. apply mapM_r_length in Hx0. by destruct (successors t p).
  - apply not_Forall_Exists in Hex; [|apply _].
    apply Exists_exists in Hex as (ty & Hty & Hne').
    destruct (mapM_r_elem_inv _ _ _ _ Hx0 Hty) as (c & Hc & Hget).
    inv_bind Hget. inversion Hget; subst. unfold of_option in Hx1.
    destruct (node_attrs t c) as [b|] eqn:Eb; [|done]. inversion Hx1; subst.
    by exists c, x.
Qed.

End PruneFixedPoint.

(** X3. The tree that [prune_tree] returns is a fixed point of the second
    pruning rule: a parent of a leaf that is at least
    [min_depth_required] deep and whose children are all leaves has a
    child whose type differs from its own.  This holds when iterating
    over the set of parents visits each of them. *)
Theorem prune_tree_leaves_no_uniform_group
    (set_order : list nat → list nat) (min_depth_required : nat)
    (t t' : DiGraph) :
  (∀ l x, x ∈ l → x ∈ set_order l) →
  prune_tree set_order min_depth_required t = Some (Ok t') →
  ∀ leaf p a,
    leaf ∈ leaves t' → head (predecessors t' leaf) = Some p →
    node_attrs t' p = Some a → min_depth_required ≤ depth a →
    (∀ c, c ∈ successors t' p → c ∈ node_ids t' ∧ out_degree t' c = 0) →
    ∃ c b, c ∈ successors t' p ∧ node_attrs t' c = Some b ∧
           profile_type b ≠ profile_type a.
Proof.
  intros Hall H leaf p a Hleaf Hp Ha Hd Hch.
  apply prune_loop_fixed, prune_pass_fixed_facts in H
    as (_ & parents & Hps & Hfold).
  assert (p ∈ parents) as Hpin.
  { destruct (mapM_r_elem _ _ _ _ Hps Hleaf) as (q & Hq & Hf).
    unfold first_predecessor in Hf. rewrite Hp in Hf. by inversion Hf; subst. }
  apply (prune_parent_unchanged_inv min_depth_required t' p a); try done.
  - eapply prune_parents_all_unchanged; [exact Hfold | by apply Hall].
  - assert (leaf ∈ successors t' p) as Hs.
    { apply elem_of_successors, elem_of_predecessors.
      destruct (predecessors t' leaf) as [|q l]; [done|].
      inversion Hp; subst. by left. }
    intros Hnil. rewrite Hnil in Hs. by apply elem_of_nil in Hs.
Qed.

Lemma prune_tree_leaves_no_uniform_group_witness :
  prune_tree remove_dups 1 tree_two_features = Some (Ok tree_two_features) ∧
  ∃ c b, c ∈ successors tree_two_features 1 ∧
         node_attrs tree_two_features c = Some b ∧
         profile_type b ≠ inbetween.
Proof.
  split; [reflexivity|].
  refine (prune_tree_leaves_no_uniform_group remove_dups 1 tree_two_features
            tree_two_features _ eq_refl 2 1
            (group_attrs 1 "A" inbetween 160 20 5) _ eq_refl eq_refl _ _).
  - intros l x. apply elem_of_remove_dups.
  - vm_compute. by left.
  - simpl. lia.
  - intros c Hc. vm_compute in Hc.
    apply elem_of_cons in Hc as [->|Hc];
      [|apply list_elem_of_singleton in Hc as ->];
      (split; [apply (bool_decide_unpack _); vm_compute; exact I | reflexivity]).
Defined.

(** ** Which profiles the depth filter keeps *)

Lemma filter_walk_keeps l : ∀ cur cur' y,
  foldM_r filter_node cur l = Ok cur' →
  y ∈ node_ids cur → y ∉ l → y ∈ node_ids cur'.
Proof.
  induction l as [|b l IH]; intros cur cur' y H Hy Hnl; simpl in H.
  - by inversion H; subst.
  - inv_bind H. apply not_elem_of_cons in Hnl as [Hne Hnl].
    eapply IH; [exact H | | done].
    unfold filter_node in Hx. inv_bind Hx. case_bool_decide.
    + apply remove_node_Ok in Hx as [_ ->]. by apply node_ids_drop_node.
    + by inversion Hx; subst.
Qed.

Lemma rchain_snoc t l : ∀ a b,
  rchain t l → last l = Some b → (a, b) ∈ edges t → rchain t (l ++ [a]).
Proof.
  induction l as [|x [|y l] IH]; intros a b Hc Hl He; simpl in *.
  - done.
  - inversion Hl; subst. done.
  - destruct Hc as [Hxy Hc]. split; [done|]. eapply (IH a b); done.
Qed.

Lemma chain_rchain_reverse t l : chain t l → rchain t (reverse l).
Proof.
  induction l as [|a [|b l] IH]; intros Hc; [done..|].
  destruct Hc as [Hab Hc]. rewrite reverse_cons.
  eapply (rchain_snoc _ _ a b); [by apply IH | | done].
  by rewrite last_reverse.
Qed.

Section FilterSurvivors.

Variable t0 : DiGraph.
Hypothesis Hok : tree_ok t0 = true.
Variable min_depth_required : nat.

Lemma tree_ok_root_no_parent p : (p, 0) ∈ edges t0 → False.
Proof.
  intros He. destruct (tree_ok_edge _ Hok _ _ He) as (_ & H0 & Hd).
  rewrite (tree_ok_root _ Hok H0) in Hd. done.
Qed.

Lemma tree_ok_unique_parent p p' c :
  (p, c) ∈ edges t0 → (p', c) ∈ edges t0 → p = p'.
Proof.
  intros He He'.
  assert (c ≠ 0) as Hne by (intros ->; by apply tree_ok_root_no_parent in He).
  destruct (tree_ok_edge _ Hok _ _ He) as (_ & Hc & _).
  destruct (tree_ok_parent _ Hok c Hc Hne) as (q & Hq & _).
  apply elem_of_predecessors in He, He'. rewrite Hq in He, He'.
  apply list_elem_of_singleton in He, He'. congruence.
Qed.

Lemma path_head_root path x :
  chain t0 path → last path = Some x → x ∈ node_ids t0 →
  length path = S (depth_of t0 x) → head path = Some 0.
Proof.
  intros Hc Hl Hx Hlen. destruct path as [|a l]; [done|]. simpl. f_equal.
  assert (depth_of t0 x = depth_of t0 a + length l) as Hd.
  { apply (chain_depths t0 Hok l a (length l) x Hc).
    rewrite last_lookup in Hl. exact Hl. }
  apply (tree_ok_depth_0 t0 Hok).
  - eapply (chain_nodes t0 Hok); [exact Hc | exact Hl | done | by left].
  - simpl in Hlen. lia.
Qed.

(** Walking up a path makes no node childless that stays in the tree. *)
Lemma filter_walk_no_new_leaves l : ∀ cur cur',
  leaf_removals t0 cur → rchain t0 l → (l ≠ [] → last l = Some 0) →
  no_new_leaves t0 cur (head l) →
  foldM_r filter_node cur l = Ok cur' → no_new_leaves t0 cur' None.
Proof.
  induction l as [|b l IH]; intros cur cur' Hrem Hc Hlast Hinv H; simpl in H.
  - inversion H; subst. intros x Hx Hz. destruct (Hinv x Hx Hz); [by left | done].
  - inv_bind H. rename x into cur1.
    assert (leaf_removals cur cur1) as Hstep by by eapply filter_node_removals.
    apply (IH cur1 cur'); [by eapply leaf_removals_trans | | | | done].
    + destruct l; [done | by destruct Hc].
    + intros Hne. specialize (Hlast ltac:(done)).
      destruct l; [done|]. by rewrite last_cons_cons in Hlast.
    + unfold filter_node, out_degree_of in Hx.
      destruct (has_node cur b) eqn:Eb; [|done]. simpl in Hx.
      case_bool_decide as Hz.
      * apply remove_node_Ok in Hx as [_ ->].
        intros x Hxin Hxz. apply node_ids_drop_node in Hxin as [Hxin Hxb].
        destruct (decide (out_degree cur x = 0)) as [Hcz|Hcz].
        { destruct (Hinv x Hxin Hcz) as [?|Heq]; [by left|].
          simpl in Heq. congruence. }
        apply out_degree_pos_edge in Hcz as [c Hedge].
        assert (c = b) as ->.
        { destruct (decide (c = b)) as [|Hcb]; [done|].
          assert ((x, c) ∈ edges (drop_node cur b)) as He'
            by (apply edges_drop_node; done).
          by apply out_degree_edge in He'. }
        eapply leaf_removals_edges in Hedge; [|done].
        destruct l as [|b' l].
        { specialize (Hlast ltac:(done)). inversion Hlast; subst.
          by apply tree_ok_root_no_parent in Hedge. }
        right. simpl. f_equal. destruct Hc as [Hb' _].
        by eapply tree_ok_unique_parent.
      * inversion Hx; subst. intros x Hxin Hxz.
        destruct (Hinv x Hxin Hxz) as [?|Heq]; [by left|].
        simpl in Heq. inversion Heq; subst. done.
Qed.

Lemma filter_paths_no_new_leaves leaves paths :
  Forall2 (path_of_leaf t0) leaves paths →
  (∀ x, x ∈ leaves → x ∈ node_ids t0) → ∀ cur cur',
  leaf_removals t0 cur → no_new_leaves t0 cur None →
  foldM_r (filter_path min_depth_required) cur paths = Ok cur' →
  no_new_leaves t0 cur' None.
Proof.
  induction 1 as [|leaf path leaves paths (Hl & Hc & Hlen) _ IH];
    intros Hin cur cur' Hrem Hinv H; simpl in H; [by inversion H; subst|].
  inv_bind H. rename x into cur1.
  apply (IH ltac:(intros; apply Hin; by right) cur1 cur');
    [eapply leaf_removals_trans; [done | by eapply filter_path_removals] | | done].
  unfold filter_path in Hx. case_bool_decide; [by inversion Hx; subst|].
  eapply (filter_walk_no_new_leaves (reverse path)); [done | | | | done].
  - by apply chain_rchain_reverse.
  - intros _. rewrite last_reverse.
    eapply path_head_root; [done.. | apply Hin; by left | done].
  - intros x Hx' Hz. left. destruct (Hinv x Hx' Hz); done.
Qed.

(** A too-shallow profile leaf is gone after its path has been walked. *)
Lemma filter_paths_remove_shallow leaves paths :
  Forall2 (path_of_leaf t0) leaves paths → ∀ cur cur' x,
  leaf_removals t0 cur →
  foldM_r (filter_path min_depth_required) cur paths = Ok cur' →
  x ∈ leaves → out_degree t0 x = 0 → S (depth_of t0 x) ≤ min_depth_required →
  x ∉ node_ids cur'.
Proof.
  induction 1 as [|leaf path leaves paths (Hl & Hc & Hlen) _ IH];
    intros cur cur' x Hrem H Hx Hz Hd; [by apply elem_of_nil in Hx|].
  simpl in H. inv_bind H. rename x0 into cur1.
  assert (leaf_removals cur cur1) as Hstep by by eapply filter_path_removals.
  assert (leaf_removals cur1 cur') as Hrest.
  { revert H. apply foldM_r_removals. intros ???. apply filter_path_removals. }
  destruct (decide (x = leaf)) as [->|Hne].
  - intros Hin. eapply leaf_removals_nodes in Hin; [|exact Hrest].
    unfold filter_path in Hx0.
    rewrite bool_decide_eq_false_2 in Hx0 by lia.
    apply last_Some in Hl as [l' ->]. rewrite reverse_app in Hx0.
    simpl in Hx0. inv_bind Hx0. rename x into cur2.
    assert (leaf ∉ node_ids cur2) as Hgone.
    { unfold filter_node, out_degree_of in Hx1.
      destruct (has_node cur leaf); simpl in Hx1; [|done].
      rewrite bool_decide_eq_true_2 in Hx1
        by by eapply leaf_removals_out_degree_0.
      apply remove_node_Ok in Hx1 as [_ ->]. rewrite node_ids_drop_node. tauto. }
    apply Hgone. eapply leaf_removals_nodes; [|exact Hin].
    revert Hx0. apply foldM_r_removals, filter_node_removals.
  - apply elem_of_cons in Hx as [?|Hx]; [done|].
    eapply (IH cur1); [by eapply leaf_removals_trans | done..].
Qed.

(** A childless node that is deep enough is never removed. *)
Lemma filter_paths_keep_deep leaves paths :
  Forall2 (path_of_leaf t0) leaves paths → ∀ cur cur' x,
  foldM_r (filter_path min_depth_required) cur paths = Ok cur' →
  out_degree t0 x = 0 → min_depth_required ≤ depth_of t0 x →
  x ∈ node_ids cur → x ∈ node_ids cur'.
Proof.
  induction 1 as [|leaf path leaves paths (Hl & Hc & Hlen) _ IH];
    intros cur cur' x H Hz Hd Hx; simpl in H; [by inversion H; subst|].
  inv_bind H. rename x0 into cur1. eapply (IH cur1); [done.. |].
  unfold filter_path in Hx0. case_bool_decide as Hlong; [by inversion Hx0; subst|].
  eapply filter_walk_keeps; [exact Hx0 | done |].
  rewrite elem_of_reverse. intros Hin.
  eapply (chain_inner_has_child t0); [exact Hc | exact Hin | | done].
  rewrite Hl. intros [= ->]. lia.
Qed.

Lemma filter_survivors t' :
  filter_leaves_under_minimum_depth t0 min_depth_required 0 = Ok t' →
  ∀ x, x ∈ profile_leaves t' ↔
       x ∈ profile_leaves t0 ∧ min_depth_required ≤ depth_of t0 x.
Proof.
  intros H. pose proof (filter_removals _ _ _ _ H) as Hrem.
  unfold filter_leaves_under_minimum_depth in H. inv_bind H.
  destruct (profile_leaves_paths t0 Hok) as (paths & Hp & HF).
  rewrite Hp in Hx. inversion Hx; subst x. clear Hx.
  assert (∀ x, x ∈ profile_leaves t0 → x ∈ node_ids t0) as Hin.
  { intros x Hx. by apply list_elem_of_filter in Hx as [_ ?]. }
  assert (no_new_leaves t0 t' None) as Hnew.
  { eapply filter_paths_no_new_leaves; [done.. | constructor | | done].
    intros x ??. by left. }
  intros x. split.
  - intros Hx. apply list_elem_of_filter in Hx as [[Hout Hdeg] Hx].
    assert (x ∈ node_ids t0) as Hx0 by by eapply leaf_removals_nodes.
    assert (out_degree t0 x = 0) as Hout0 by (by destruct (Hnew x Hx Hout)).
    assert (x ∈ profile_leaves t0) as Hleaf.
    { apply list_elem_of_filter. split; [|done]. split; [done|].
      unfold in_degree in *. by rewrite <- (leaf_removals_predecessors t0 t'). }
    split; [done|].
    destruct (decide (min_depth_required ≤ depth_of t0 x)) as [|Hd]; [done|].
    exfalso. eapply filter_paths_remove_shallow; [exact HF | | exact H | ..];
      [constructor | done | done | lia | done].
  - intros [Hx Hd]. pose proof Hx as Hx'.
    apply list_elem_of_filter in Hx as [[Hout Hdeg] Hx].
    assert (x ∈ node_ids t') as Hxt
      by (eapply filter_paths_keep_deep; [exact HF | exact H | done..]).
    apply list_elem_of_filter. split; [|done]. split.
    + by eapply leaf_removals_out_degree_0.
    + unfold in_degree in *. by rewrite (leaf_removals_predecessors t0 t').
Qed.

End FilterSurvivors.

(** X4. On a well-formed tree the depth filter keeps exactly the profiles
    that are long enough: the leaves with one incoming edge of the
    filtered tree are those of the input whose depth is at least
    [min_depth_required]; no shorter profile is left and no new leaf
    appears. *)
Theorem filter_keeps_exactly_the_deep_profiles (t : DiGraph)
    (min_depth_required : nat) (t' : DiGraph) :
  tree_ok t = true →
  filter_leaves_under_minimum_depth t min_depth_required 0 = Ok t' →
  ∀ x, x ∈ profile_leaves t' ↔
       x ∈ profile_leaves t ∧ min_depth_required ≤ depth_of t x.
Proof. intros Hok. by apply filter_survivors. Qed.

Lemma filter_keeps_exactly_the_deep_profiles_witness :
  ∃ t', filter_leaves_under_minimum_depth tree_risk_branch 3 0 = Ok t' ∧
        5 ∈ profile_leaves t' ∧ 2 ∉ profile_leaves t'.
Proof.
  eexists. split; [reflexivity|].
  pose proof (filter_keeps_exactly_the_deep_profiles tree_risk_branch 3 _
                eq_refl eq_refl) as H.
  split.
  - apply H. split; [|vm_compute; lia].
    apply (bool_decide_unpack _). vm_compute. exact I.
  - intros H2. apply H in H2 as [_ H2]. vm_compute in H2. lia.
Defined.

(** ** Removals keep the tree well-formed *)

Lemma tree_ok_intro t :
  NoDup (node_ids t) →
  (∀ p c, (p, c) ∈ edges t →
          p ∈ node_ids t ∧ c ∈ node_ids t ∧ depth_of t c = S (depth_of t p)) →
  (∀ x, x ∈ node_ids t →
        (x = 0 → depth_of t x = 0) ∧ (x ≠ 0 → in_degree t x = 1)) →
  tree_ok t = true.
Proof.
  intros Hnd He Hn. unfold tree_ok. rewrite !andb_true_iff. repeat split.
  - by apply bool_decide_eq_true.
  - apply forallb_forall. intros [p c] Hin. apply list_elem_of_In, He in Hin
      as (Hp & Hc & Hd). simpl. unfold has_node.
    rewrite !bool_decide_eq_true_2 by done. done.
  - apply forallb_forall. intros x Hin. apply list_elem_of_In, Hn in Hin as [H0 H1].
    case_bool_decide; apply bool_decide_eq_true; auto.
Qed.

Lemma tree_ok_in_degree t x :
  tree_ok t = true → x ∈ node_ids t → x ≠ 0 → in_degree t x = 1.
Proof.
  intros Hok Hx Hne. destruct (tree_ok_parent t Hok x Hx Hne) as (p & Hp & _).
  unfold in_degree. by rewrite Hp.
Qed.

Lemma drop_leaf_tree_ok t y :
  tree_ok t = true → out_degree t y = 0 → tree_ok (drop_node t y) = true.
Proof.
  intros Hok Hy. apply tree_ok_intro.
  - eapply sublist_NoDup; [apply (tree_ok_NoDup t Hok)|].
    unfold node_ids, drop_node. simpl. apply fmap_sublist, sublist_filter.
  - intros p c He. apply edges_drop_node in He as (He & Hp & Hc).
    simpl in Hp, Hc. destruct (tree_ok_edge t Hok _ _ He) as (Hpin & Hcin & Hd).
    rewrite !node_ids_drop_node. unfold depth_of.
    rewrite !node_attrs_drop_node by done. done.
  - intros x Hx. apply node_ids_drop_node in Hx as [Hx Hne]. unfold depth_of.
    rewrite node_attrs_drop_node by done. split.
    + intros ->. by apply (tree_ok_root t Hok).
    + intros H0. unfold in_degree. rewrite predecessors_drop_leaf by done.
      by apply tree_ok_in_degree.
Qed.

Lemma drop_node_stats_ok t y : stats_ok t = true → stats_ok (drop_node t y) = true.
Proof.
  unfold stats_ok, drop_node. simpl. rewrite !forallb_forall.
  intros H n Hn. apply H. apply list_elem_of_In in Hn.
  apply list_elem_of_filter in Hn as [_ Hn]. by apply list_elem_of_In.
Qed.

Lemma leaf_removals_tree_ok t t' :
  leaf_removals t t' → tree_ok t = true → tree_ok t' = true.
Proof. induction 1; [done|]. intros. by apply IHleaf_removals, drop_leaf_tree_ok. Qed.

Lemma leaf_removals_stats_ok t t' :
  leaf_removals t t' → stats_ok t = true → stats_ok t' = true.
Proof. induction 1; [done|]. intros. by apply IHleaf_removals, drop_node_stats_ok. Qed.

Lemma leaf_removals_depth_of t t' x :
  leaf_removals t t' → x ∈ node_ids t' → depth_of t' x = depth_of t x.
Proof. intros. unfold depth_of. by rewrite (leaf_removals_node_attrs t t'). Qed.

Section FilterRoot.

Variable t0 : DiGraph.
Hypothesis Hok : tree_ok t0 = true.
Variable min_depth_required : nat.
Variable t' : DiGraph.
Hypothesis Hfilter :
  filter_leaves_under_minimum_depth t0 min_depth_required 0 = Ok t'.

Lemma filter_no_new_leaves x :
  x ∈ node_ids t' → out_degree t' x = 0 → out_degree t0 x = 0.
Proof.
  pose proof Hfilter as H. pose proof (filter_removals _ _ _ _ H) as Hrem.
  unfold filter_leaves_under_minimum_depth in H. inv_bind H.
  destruct (profile_leaves_paths t0 Hok) as (paths & Hp & HF).
  rewrite Hp in Hx. inversion Hx; subst x0. clear Hx.
  assert (no_new_leaves t0 t' None) as Hnew.
  { eapply filter_paths_no_new_leaves; [done.. | | constructor | | done].
    - intros y Hy. by apply list_elem_of_filter in Hy as [_ ?].
    - intros y ??. by left. }
  intros Hx Hz. by destruct (Hnew x Hx Hz).
Qed.

(** A node of greatest depth. *)
Lemma deepest_node (l : list nat) (d : nat → nat) :
  l ≠ [] → ∃ x, x ∈ l ∧ ∀ y, y ∈ l → d y ≤ d x.
Proof.
  induction l as [|a l IH]; [done|]. intros _.
  destruct l as [|b l].
  - exists a. split; [by left|]. intros y Hy.
    apply list_elem_of_singleton in Hy as ->. done.
  - destruct IH as (x & Hx & Hmax); [done|].
    destruct (decide (d x ≤ d a)).
    + exists a. split; [by left|]. intros y Hy.
      apply elem_of_cons in Hy as [->|Hy]; [done|]. specialize (Hmax y Hy). lia.
    + exists x. split; [by right|]. intros y Hy.
      apply elem_of_cons in Hy as [->|Hy]; [lia | by apply Hmax].
Qed.

(** The root is left only when it had no child or some profile is deep
    enough. *)
Lemma filter_root_survives :
  0 ∈ node_ids t' →
  out_degree t0 0 = 0 ∨
  ∃ leaf, leaf ∈ profile_leaves t0 ∧ min_depth_required ≤ depth_of t0 leaf.
Proof.
  intros H0.
  pose proof (filter_removals _ _ _ _ Hfilter) as Hrem.
  pose proof (leaf_removals_tree_ok _ _ Hrem Hok) as Hok'.
  destruct (deepest_node (node_ids t') (depth_of t')) as (x & Hx & Hmax).
  { intros Hnil. rewrite Hnil in H0. by apply elem_of_nil in H0. }
  assert (out_degree t' x = 0) as Hleaf.
  { destruct (decide (out_degree t' x = 0)) as [|Hne]; [done|].
    apply out_degree_pos_edge in Hne as [c Hc].
    destruct (tree_ok_edge _ Hok' _ _ Hc) as (_ & Hcin & Hd).
    specialize (Hmax c Hcin). lia. }
  destruct (decide (x = 0)) as [->|Hne].
  - left. by apply filter_no_new_leaves.
  - right. exists x.
    apply (filter_survivors t0 Hok min_depth_required t' Hfilter).
    apply list_elem_of_filter. split; [|done]. split; [done|].
    destruct (tree_ok_parent _ Hok' x Hx Hne) as (q & Hq & _).
    unfold in_degree. by rewrite Hq.
Qed.

End FilterRoot.

(** C6, amended. The depth filter removes a node only when that node has
    zero children at that moment, and a node that survives keeps its
    parent and the edge from it, so the shared prefixes of surviving
    deeper profiles stay intact.  On a well-formed tree, with root [0],
    every node of a too-shallow path is visited, from the leaf up to and
    including the root, and removed when childless: the too-shallow
    profile leaves are removed and the others are kept; no node that had
    children is left childless; and the root itself is left only when it
    had no child or some profile is deep enough. *)
Theorem filter_removes_childless_nodes_only (t : DiGraph)
    (min_depth_required root_node_id : nat) (t' : DiGraph) :
  filter_leaves_under_minimum_depth t min_depth_required root_node_id = Ok t' →
  leaf_removals t t' ∧
  (∀ p c, (p, c) ∈ edges t → p ∈ node_ids t → c ∈ node_ids t' →
          p ∈ node_ids t' ∧ (p, c) ∈ edges t') ∧
  (tree_ok t = true → root_node_id = 0 →
   (∀ x, x ∈ profile_leaves t → depth_of t x < min_depth_required →
         x ∉ node_ids t') ∧
   (∀ x, x ∈ profile_leaves t → min_depth_required ≤ depth_of t x →
         x ∈ node_ids t') ∧
   (∀ x, x ∈ node_ids t' → out_degree t' x = 0 → out_degree t x = 0) ∧
   (0 ∈ node_ids t' →
    out_degree t 0 = 0 ∨
    ∃ leaf, leaf ∈ profile_leaves t ∧ min_depth_required ≤ depth_of t leaf)).
Proof.
  intros H. pose proof (filter_removals _ _ _ _ H) as Hrem.
  split; [done|]. split.
  { intros p c. by apply leaf_removals_keep_parent. }
  intros Hok ->. split; [|split; [|split]].
  - intros x Hx Hd Hin.
    assert (x ∈ profile_leaves t') as Hx'.
    { apply list_elem_of_filter in Hx as [[Hout Hdeg] Hx].
      apply list_elem_of_filter. split; [|done]. split.
      - by eapply leaf_removals_out_degree_0.
      - unfold in_degree in *. by rewrite (leaf_removals_predecessors t t'). }
    apply (filter_survivors t Hok min_depth_required t' H) in Hx' as [_ ?]. lia.
  - intros x Hx Hd.
    assert (x ∈ profile_leaves t') as Hx'
      by by apply (filter_survivors t Hok min_depth_required t' H).
    by apply list_elem_of_filter in Hx' as [_ ?].
  - intros x. by apply (filter_no_new_leaves t Hok min_depth_required t' H).
  - by apply (filter_root_survives t Hok min_depth_required t' H).
Qed.

Lemma filter_removes_childless_nodes_only_witness :
  ∃ t', filter_leaves_under_minimum_depth tree_risk_branch 3 0 = Ok t' ∧
        node_ids t' = [0; 1; 3; 4; 5; 6; 7] ∧
        leaf_removals tree_risk_branch t' ∧
        2 ∉ node_ids t'.
Proof.
  eexists. split; [reflexivity|]. split; [reflexivity|].
  destruct (filter_removes_childless_nodes_only tree_risk_branch 3 0 _ eq_refl)
    as (Hrem & _ & Htree).
  split; [exact Hrem|].
  destruct (Htree eq_refl eq_refl) as (Hshallow & _).
  apply Hshallow; [|vm_compute; lia].
  apply (bool_decide_unpack _). vm_compute. exact I.
Defined.

(** X5. [prune_tree] keeps a well-formed tree well-formed: the tree it
    returns has unique ids, edges that go one level down between nodes
    of the tree, one parent for every node but node [0], and statistics
    on every node but node [0]. *)
Theorem prune_tree_keeps_tree_well_formed
    (set_order : list nat → list nat) (min_depth_required : nat)
    (t t' : DiGraph) :
  tree_ok t = true → stats_ok t = true →
  prune_tree set_order min_depth_required t = Some (Ok t') →
  tree_ok t' = true ∧ stats_ok t' = true.
Proof.
  intros Hok Hst H. apply prune_loop_removals in H.
  split; [by eapply leaf_removals_tree_ok | by eapply leaf_removals_stats_ok].
Qed.

Lemma prune_tree_keeps_tree_well_formed_witness :
  ∃ t', prune_tree remove_dups 3 tree_risk_branch = Some (Ok t') ∧
        tree_ok t' = true ∧ stats_ok t' = true.
Proof.
  eexists. split; [reflexivity|].
  apply (prune_tree_keeps_tree_well_formed remove_dups 3 tree_risk_branch);
    reflexivity.
Defined.

(** X6. The depth filter keeps a well-formed tree well-formed, whatever
    root id it is given. *)
Theorem filter_keeps_tree_well_formed (t : DiGraph)
    (min_depth_required root_node_id : nat) (t' : DiGraph) :
  tree_ok t = true → stats_ok t = true →
  filter_leaves_under_minimum_depth t min_depth_required root_node_id = Ok t' →
  tree_ok t' = true ∧ stats_ok t' = true.
Proof.
  intros Hok Hst H. apply filter_removals in H.
  split; [by eapply leaf_removals_tree_ok | by eapply leaf_removals_stats_ok].
Qed.

Lemma filter_keeps_tree_well_formed_witness :
  ∃ t', filter_leaves_under_minimum_depth tree_risk_branch 3 0 = Ok t' ∧
        tree_ok t' = true ∧ stats_ok t' = true.
Proof.
  eexists. split; [reflexivity|].
  apply (filter_keeps_tree_well_formed tree_risk_branch 3 0); reflexivity.
Defined.

(** ** Pruning, filtering and exporting in a row *)

Lemma elem_of_enumerate_from {A} (l : list A) : ∀ n i x,
  (i, x) ∈ enumerate_from n l → n ≤ i ∧ l !! (i - n) = Some x.
Proof.
  induction l as [|a l IH]; intros n i x H; simpl in H.
  - by apply elem_of_nil in H.
  - apply elem_of_cons in H as [H|H].
    + inversion H; subst. split; [lia|]. by rewrite Nat.sub_diag.
    + apply IH in H as [Hle Hl]. split; [lia|].
      replace (i - n) with (S (i - S n)) by lia. done.
Qed.

Lemma mapM_r_lookup_inv {A B} (f : A → result B) l : ∀ ys i y,
  mapM_r f l = Ok ys → ys !! i = Some y → ∃ x, l !! i = Some x ∧ f x = Ok y.
Proof.
  induction l as [|a l IH]; intros ys i y H Hi; simpl in H.
  - inversion H; subst. done.
  - inv_bind H. inv_bind H. inversion H; subst.
    destruct i as [|i]; simpl in *; [inversion Hi; subst; eauto | eauto].
Qed.

(** After pruning, the depth filter and the exporter complete, and every
    exported profile is the one of a node of the tree given to
    [prune_tree]: a node other than [0], of a type other than
    [inbetween], at depth [min_depth_required] or deeper. *)
Lemma prune_filter_export_leaves (set_order : list nat → list nat)
    (min_depth_required : nat) (t t1 : DiGraph) (dimensions : list string)
    (root_node_id : nat) :
  tree_ok t = true → stats_ok t = true → NoDup dimensions →
  (∀ x, x ∈ node_ids t → depth_of t x ≤ length dimensions) →
  prune_tree set_order min_depth_required t = Some (Ok t1) →
  ∃ t2 profiles,
    filter_leaves_under_minimum_depth t1 min_depth_required 0 = Ok t2 ∧
    export_profiles_to_dict_from_tree t2 dimensions root_node_id = Ok profiles ∧
    ∀ i prof, (i, prof) ∈ profiles →
      ∃ leaf a path hit refusal counts,
        leaf ≠ 0 ∧ node_attrs t leaf = Some a ∧
        p_type prof = profile_type a ∧ p_size prof = total_count a ∧
        length (p_features prof) = depth a ∧
        profile_type a ≠ inbetween ∧ min_depth_required ≤ depth a ∧
        chain t path ∧ head path = Some 0 ∧ last path = Some leaf ∧
        hit_percentage a = Some hit ∧ refusal_percentage a = Some refusal ∧
        hit_counts a = Some counts ∧
        prof = profile_of t dimensions path a hit refusal counts.
Proof.
  intros Hok Hst Hnd Hdepth Hprune.
  pose proof (prune_loop_removals _ _ _ _ _ Hprune) as Hrem1.
  pose proof (leaf_removals_tree_ok _ _ Hrem1 Hok) as Hok1.
  pose proof (leaf_removals_stats_ok _ _ Hrem1 Hst) as Hst1.
  destruct (filter_completes_tree t1 Hok1 min_depth_required) as [t2 Hfilter].
  pose proof (filter_removals _ _ _ _ Hfilter) as Hrem2.
  pose proof (leaf_removals_tree_ok _ _ Hrem2 Hok1) as Hok2.
  pose proof (leaf_removals_stats_ok _ _ Hrem2 Hst1) as Hst2.
  assert (∀ x, x ∈ node_ids t2 → depth_of t2 x = depth_of t1 x ∧
                                  depth_of t2 x ≤ length dimensions) as Hd2.
  { intros x Hx. pose proof (leaf_removals_nodes _ _ _ Hrem2 Hx) as Hx1.
    rewrite (leaf_removals_depth_of t1 t2) by done. split; [done|].
    rewrite (leaf_removals_depth_of t t1) by done.
    by eapply Hdepth, leaf_removals_nodes. }
  destruct (export_profiles_complete t2 dimensions Hok2 Hst2 Hnd (profile_leaves t2))
    as (paths & profiles & H1 & H2).
  { intros leaf Hl. split; [done|]. apply Hd2.
    by apply list_elem_of_filter in Hl as [_ ?]. }
  exists t2, (enumerate_from 0 profiles). split; [done|]. split.
  { unfold export_profiles_to_dict_from_tree. rewrite H1. simpl. by rewrite H2. }
  intros i prof Hin. apply elem_of_enumerate_from in Hin as [_ Hi].
  destruct (mapM_r_lookup_inv _ _ _ _ _ H2 Hi) as (path' & Hpi & Hq).
  destruct (mapM_r_lookup_inv _ _ _ _ _ H1 Hpi) as (leaf & Hli & Hp').
  assert (leaf ∈ profile_leaves t2) as Hl by (apply list_elem_of_lookup; eauto).
  assert (leaf ∈ node_ids t2) as Hl2 by by apply list_elem_of_filter in Hl as [_ ?].
  pose proof (leaf_removals_nodes _ _ _ Hrem2 Hl2) as Hl1'.
  destruct (export_profile_leaf t2 dimensions Hok2 Hst2 Hnd leaf Hl
              (proj2 (Hd2 _ Hl2)))
    as (path & a & hit & refusal & counts & Hp & Ha & Hh & Hr & Hcn & He & Hlen).
  rewrite Hp in Hp'. inversion Hp'; subst path'.
  rewrite He in Hq. inversion Hq; subst prof. simpl.
  pose proof (profile_leaf_not_root t2 Hok2 leaf Hl) as Hne.
  destruct (shortest_path_tree t2 Hok2 leaf Hl2)
    as (path2 & Hp2 & Hlen2 & Hlast2 & Hc2).
  rewrite Hp in Hp2. inversion Hp2; subst path2. clear Hp2.
  assert (∀ y, y ∈ node_ids t2 → node_attrs t2 y = node_attrs t y) as Hattrs.
  { intros y Hy. rewrite (leaf_removals_node_attrs t1 t2) by done.
    apply leaf_removals_node_attrs; [done|]. by eapply leaf_removals_nodes. }
  assert (chain t path) as Hc.
  { clear -Hc2 Hrem1 Hrem2. induction path as [|x [|y l] IH]; [done..|].
    destruct Hc2 as [Hxy Hc2]. split; [|by apply IH].
    eapply leaf_removals_edges; [exact Hrem1|].
    eapply leaf_removals_edges; [exact Hrem2 | done]. }
  apply (filter_survivors t1 Hok1 min_depth_required t2 Hfilter) in Hl
    as [Hl1 Hdeep].
  exists leaf, a, path, hit, refusal, counts. split; [done|]. split.
  { by rewrite <- Hattrs. }
  split; [done|]. split; [done|]. split; [done|]. split.
  { apply prune_loop_fixed, prune_pass_fixed_facts in Hprune as (Hinb & _).
    intros Hty.
    assert (leaf ∈ leaves_of_type_inbetween t1) as Hin.
    { apply list_elem_of_filter. split.
      - rewrite <- (leaf_removals_node_attrs t1 t2), Ha by done.
        simpl. by rewrite Hty.
      - apply list_elem_of_filter in Hl1 as [[? _] ?].
        by apply list_elem_of_filter. }
    rewrite Hinb in Hin. by apply elem_of_nil in Hin. }
  split.
  { destruct (Hd2 _ Hl2) as [Heq _].
    unfold depth_of in Heq at 1. rewrite Ha in Heq. simpl in Heq. lia. }
  split; [done|]. split.
  { by eapply (path_head_root t2 Hok2). }
  split; [done|]. split; [done|]. split; [done|]. split; [done|].
  unfold profile_of. f_equal. f_equal. apply list_fmap_ext.
  intros j y Hy. unfold key_of. rewrite Hattrs; [done|].
  eapply (chain_nodes t2 Hok2); [exact Hc2 | exact Hlast2 | done |].
  apply list_elem_of_lookup_2 in Hy. destruct path; [done | by right].
Qed.

(** X7. The three steps after the build, run in a row with the same
    minimum depth on a well-formed tree: when pruning returns, the depth
    filter and the exporter complete, and every exported profile has a
    type other than [inbetween] and at least [min_depth_required]
    features.  The feature list has no duplicates and is as long as the
    tree is deep. *)
Theorem pruned_filtered_profiles_are_typed_and_deep
    (set_order : list nat → list nat) (min_depth_required : nat)
    (t t1 : DiGraph) (dimensions : list string) (root_node_id : nat) :
  tree_ok t = true → stats_ok t = true → NoDup dimensions →
  (∀ x, x ∈ node_ids t → depth_of t x ≤ length dimensions) →
  prune_tree set_order min_depth_required t = Some (Ok t1) →
  ∃ t2 profiles,
    filter_leaves_under_minimum_depth t1 min_depth_required 0 = Ok t2 ∧
    export_profiles_to_dict_from_tree t2 dimensions root_node_id = Ok profiles ∧
    ∀ i prof, (i, prof) ∈ profiles →
      p_type prof ≠ inbetween ∧ min_depth_required ≤ length (p_features prof).
Proof.
  intros Hok Hst Hnd Hdepth Hprune.
  destruct (prune_filter_export_leaves set_order min_depth_required t t1
              dimensions root_node_id Hok Hst Hnd Hdepth Hprune)
    as (t2 & profiles & H1 & H2 & H).
  exists t2, profiles. split; [done|]. split; [done|].
  intros i prof Hin.
  destruct (H _ _ Hin)
    as (leaf & a & path & hit & refusal & counts
        & _ & _ & Ety & _ & Elen & Hne & Hm & _).
  by rewrite Ety, Elen.
Qed.

Lemma pruned_filtered_profiles_are_typed_and_deep_witness :
  ∃ t2 profiles,
    filter_leaves_under_minimum_depth tree_two_features 2 0 = Ok t2 ∧
    export_profiles_to_dict_from_tree t2 ["country"; "age_band"] 0 = Ok profiles ∧
    ∀ i prof, (i, prof) ∈ profiles →
      p_type prof ≠ inbetween ∧ 2 ≤ length (p_features prof).
Proof.
  apply (pruned_filtered_profiles_are_typed_and_deep remove_dups 2
           tree_two_features tree_two_features ["country"; "age_band"] 0).
  - reflexivity.
  - reflexivity.
  - apply (bool_decide_unpack _). vm_compute. exact I.
  - intros x Hx. vm_compute in Hx.
    repeat (apply elem_of_cons in Hx as [->|Hx]; [vm_compute; lia|]).
    by apply elem_of_nil in Hx.
  - reflexivity.
Defined.

(** ** The exporter: keys and the length of the feature list *)

Lemma enumerate_from_fst {A} (l : list A) : ∀ n,
  (enumerate_from n l).*1 = seq n (length l).
Proof. induction l as [|a l IH]; intros n; simpl; [done | by rewrite IH]. Qed.

(** X8. The mapping that the exporter returns has the keys [0], [1], ...
    in this order, one for each leaf with one incoming edge, whatever
    the tree. *)
Theorem export_keys_are_consecutive (G : DiGraph) (dimensions : list string)
    (root_node_id : nat) (profiles : list (nat * Profile)) :
  export_profiles_to_dict_from_tree G dimensions root_node_id = Ok profiles →
  profiles.*1 = seq 0 (length (profile_leaves G)).
Proof.
  unfold export_profiles_to_dict_from_tree. intros H. inv_bind H. inv_bind H.
  inversion H; subst. rewrite enumerate_from_fst.
  apply mapM_r_length in Hx, Hx0. by rewrite Hx0, Hx.
Qed.

Lemma export_keys_are_consecutive_witness :
  ∃ profiles,
    export_profiles_to_dict_from_tree tree_risk_branch ["a"; "b"; "c"; "d"] 0
      = Ok profiles ∧
    profiles.*1 = [0; 1; 2; 3].
Proof.
  eexists. split; [reflexivity|].
  apply (export_keys_are_consecutive tree_risk_branch ["a"; "b"; "c"; "d"] 0).
  reflexivity.
Defined.

Lemma mapM_r_first_raise {A B} (f : A → result B) (e : exn) l :
  (∀ x, x ∈ l → (∃ y, f x = Ok y) ∨ f x = Raise e) →
  (∃ x, x ∈ l ∧ f x = Raise e) → mapM_r f l = Raise e.
Proof.
  induction l as [|a l IH]; intros Hall (x & Hx & Hf).
  - by apply elem_of_nil in Hx.
  - simpl. destruct (Hall a) as [[y Hy]|Hr]; [by left | | by rewrite Hr].
    rewrite Hy. simpl. rewrite IH; [done | intros; apply Hall; by right |].
    apply elem_of_cons in Hx as [->|Hx]; [congruence | eauto].
Qed.

(** The loop over the fragments of a path completes when the feature
    list is long enough and raises [IndexError] when it is not. *)
Lemma export_fragments_length G dimensions l : ∀ i acc,
  (∀ x, x ∈ l → x ∈ node_ids G) → i ≤ length dimensions →
  (i + length l ≤ length dimensions →
   ∃ features, foldM_r (export_fragment G dimensions) acc (enumerate_from i l)
               = Ok features) ∧
  (length dimensions < i + length l →
   foldM_r (export_fragment G dimensions) acc (enumerate_from i l)
   = Raise IndexError).
Proof.
  induction l as [|x l IH]; intros i acc Hin Hi; simpl.
  - split; [by eexists | lia].
  - destruct (node_attrs_is_Some G x) as [a Ha]; [apply Hin; by left|].
    unfold export_fragment at 1 3, get_attrs. simpl.
    destruct (dimensions !! i) as [f|] eqn:Ef; simpl.
    + rewrite Ha. simpl.
      apply lookup_lt_Some in Ef.
      destruct (IH (S i) (dict_set acc f (key a))) as [H1 H2];
        [intros; apply Hin; by right | lia |].
      split; intros; [apply H1 | apply H2]; lia.
    + apply lookup_ge_None in Ef. split; [lia | done].
Qed.

Section ExportShort.

Variable G : DiGraph.
Variable dimensions : list string.
Hypothesis Hok : tree_ok G = true.
Hypothesis Hstats : stats_ok G = true.

Lemma export_profile_short leaf path :
  leaf ∈ profile_leaves G → shortest_path G 0 leaf = Ok path →
  (depth_of G leaf ≤ length dimensions →
   ∃ prof, export_profile G dimensions path = Ok prof) ∧
  (length dimensions < depth_of G leaf →
   export_profile G dimensions path = Raise IndexError).
Proof.
  intros Hl Hp. pose proof (profile_leaf_not_root G Hok leaf Hl) as Hne.
  apply list_elem_of_filter in Hl as [_ Hin].
  destruct (shortest_path_tree G Hok leaf Hin) as (path' & Hp' & Hlen & Hlast & Hc).
  rewrite Hp in Hp'. inversion Hp'; subst path'.
  destruct (node_attrs_is_Some G leaf Hin) as [a Ha].
  destruct (stats_of_node G Hstats leaf a Ha Hne)
    as (hit & refusal & counts & H1 & H2 & H3).
  unfold export_profile, get_attrs. rewrite Hlast. simpl. rewrite Ha. simpl.
  rewrite H1, H2, H3. simpl.
  destruct (export_fragments_length G dimensions (tail path) 0 []) as [Hlong Hshort].
  { intros x Hx. eapply (chain_nodes G Hok); [exact Hc | exact Hlast | done |].
    destruct path; [done | by right]. }
  { lia. }
  rewrite tail_length, Hlen in Hlong, Hshort. simpl in Hlong, Hshort. split.
  - intros Hd. destruct (Hlong Hd) as [fs ->]. simpl. by eexists.
  - intros Hd. by rewrite (Hshort Hd).
Qed.

Lemma export_short_raises leaf :
  leaf ∈ profile_leaves G → length dimensions < depth_of G leaf →
  ∀ root_node_id,
    export_profiles_to_dict_from_tree G dimensions root_node_id = Raise IndexError.
Proof.
  intros Hl Hd r. unfold export_profiles_to_dict_from_tree.
  destruct (profile_leaves_paths G Hok) as (paths & Hp & HF).
  rewrite Hp. simpl.
  assert (∀ path, path ∈ paths →
            ∃ x, x ∈ profile_leaves G ∧ shortest_path G 0 x = Ok path) as Hfrom.
  { intros path Hpath. by eapply mapM_r_elem_inv. }
  rewrite (mapM_r_first_raise _ IndexError); [done | |].
  - intros path Hpath. destruct (Hfrom path Hpath) as (x & Hx & Hpx).
    destruct (export_profile_short x path Hx Hpx) as [Hlong Hshort].
    destruct (decide (depth_of G x ≤ length dimensions)); [left | right]; auto.
    apply Hshort. lia.
  - destruct (mapM_r_elem _ _ _ _ Hp Hl) as (path & Hpath & Hpx).
    exists path. split; [done|].
    by apply (export_profile_short leaf path Hl Hpx).
Qed.

End ExportShort.

(** X9. A feature list that is shorter than the depth of some leaf with
    one incoming edge makes the exporter raise [IndexError], on every
    well-formed tree with statistics: no profile is returned with its
    features cut short. *)
Theorem export_raises_on_short_feature_list (G : DiGraph)
    (dimensions : list string) (root_node_id leaf : nat) :
  tree_ok G = true → stats_ok G = true →
  leaf ∈ profile_leaves G → length dimensions < depth_of G leaf →
  export_profiles_to_dict_from_tree G dimensions root_node_id = Raise IndexError.
Proof. intros. by eapply export_short_raises. Qed.

Lemma export_raises_on_short_feature_list_witness :
  export_profiles_to_dict_from_tree tree_two_features ["country"] 0
  = Raise IndexError.
Proof.
  apply (export_raises_on_short_feature_list tree_two_features ["country"] 0 2).
  - reflexivity.
  - reflexivity.
  - apply (bool_decide_unpack _). vm_compute. exact I.
  - vm_compute. lia.
Defined.

(** ** The shape of the tree that [build_tree] returns *)

Lemma build_row_inv th f fs d st r st' :
  build_row th f fs d st r = Ok st' → build_inv st → build_inv st'.
Proof.
  intros H (Hids & Hedges & Hlt & Hreg).
  apply build_row_Ok_inv in H
    as (v & c & p & hit & refusal & _ & _ & _ & Ep & _ & _ & _ & ->).
  apply Hreg in Ep.
  unfold build_inv. cbn [b_tree node_registry current_node_number].
  assert (has_node (b_tree st) (S (current_node_number st)) = false) as Hfresh.
  { unfold has_node. apply bool_decide_eq_false_2. rewrite Hids.
    rewrite elem_of_seq. lia. }
  assert (bool_decide ((p, S (current_node_number st)) ∈ edges (b_tree st)) = false)
    as Hnew.
  { apply bool_decide_eq_false_2. intros Hin.
    apply (list_elem_of_fmap_2 snd) in Hin. simpl in Hin. rewrite Hedges in Hin.
    apply elem_of_seq in Hin. lia. }
  unfold node_ids in *. cbn [add_edge add_node nodes edges].
  rewrite Hfresh, Hnew, !fmap_app. cbn [fmap list_fmap fst snd].
  repeat split.
  - rewrite Hids. symmetry. exact (seq_S (S (current_node_number st)) 0).
  - rewrite Hedges. symmetry. exact (seq_S (current_node_number st) 1).
  - apply Forall_app. split; [done|]. apply Forall_singleton. simpl. lia.
  - intros h n Hl. apply lookup_insert_Some in Hl as [[_ <-]|[_ Hl]]; [lia|].
    apply Hreg in Hl. lia.
Qed.

Lemma build_rows_inv th f fs d rows : ∀ st st',
  foldM_r (build_row th f fs d) st rows = Ok st' → build_inv st → build_inv st'.
Proof.
  induction rows as [|r rows IH]; intros st st' H Hinv; simpl in H.
  - by inversion H; subst.
  - inv_bind H. eapply IH; [done|]. by eapply build_row_inv.
Qed.

Lemma build_layers_inv df th fs layers : ∀ st st',
  foldM_r (build_layer df th fs) st layers = Ok st' → build_inv st → build_inv st'.
Proof.
  induction layers as [|layer layers IH]; intros st st' H Hinv; simpl in H.
  - by inversion H; subst.
  - inv_bind H. eapply IH; [done|]. unfold build_layer in Hx.
    by eapply build_rows_inv.
Qed.

Lemma build_init_inv df : build_inv (build_init df).
Proof.
  unfold build_inv, build_init. simpl. repeat split; [constructor|].
  intros h n Hl. apply lookup_singleton_Some in Hl as [_ <-]. done.
Qed.

Lemma filter_snd_length (l : list (nat * nat)) x :
  length (filter (λ e, e.2 = x) l) = length (filter (λ y, y = x) (l.*2)).
Proof.
  induction l as [|e l IH]; [done|]. rewrite fmap_cons, !filter_cons.
  destruct (decide (e.2 = x)); simpl; by rewrite IH.
Qed.

Lemma filter_eq_seq_length x n : ∀ a,
  length (filter (λ y, y = x) (seq a n))
  = if bool_decide (a ≤ x < a + n) then 1 else 0.
Proof.
  induction n as [|n IH]; intros a; simpl.
  - rewrite bool_decide_eq_false_2 by lia. done.
  - rewrite filter_cons. destruct (decide (a = x)) as [->|Hne]; simpl.
    + rewrite IH, bool_decide_eq_false_2 by lia.
      rewrite bool_decide_eq_true_2 by lia. done.
    + rewrite IH. repeat case_bool_decide; lia.
Qed.

(** X10. In the tree that [build_tree] returns the ids are [0], [1], ...
    in the order of creation; there is one edge per node but node [0],
    it arrives from a node with a smaller id, and the edges come in the
    order of the nodes they end at; so node [0] has no incoming edge and
    every other node has exactly one, and the graph has no cycle. *)
Theorem build_tree_gives_every_node_one_parent (df : DataFrame)
    (features_ordered : list string) (th : Thresholds) (t : DiGraph)
    (ps : list string * Thresholds) :
  build_tree df features_ordered th = Ok (t, ps) →
  node_ids t = seq 0 (node_count t) ∧
  (edges t).*2 = seq 1 (node_count t - 1) ∧
  (∀ p c, (p, c) ∈ edges t → p < c ∧ p ∈ node_ids t) ∧
  (∀ x, x ∈ node_ids t → in_degree t x = if bool_decide (x = 0) then 0 else 1).
Proof.
  unfold build_tree. intros H. inv_bind H. inversion H; subst; clear H.
  pose proof (build_layers_inv _ _ _ _ _ _ Hx (build_init_inv df))
    as (Hids & Hedges & Hlt & _).
  assert (node_count (b_tree x) = S (current_node_number x)) as Hcount.
  { unfold node_count. rewrite <- (length_fmap fst). fold (node_ids (b_tree x)).
    by rewrite Hids, length_seq. }
  rewrite Hcount. simpl. rewrite Nat.sub_0_r. repeat split; try done.
  - rewrite Forall_forall in Hlt. by apply (Hlt (p, c)).
  - rewrite Hids, elem_of_seq.
    assert (c ∈ (edges (b_tree x)).*2) as Hc by by apply (list_elem_of_fmap_2 snd) in H.
    rewrite Hedges in Hc. apply elem_of_seq in Hc.
    rewrite Forall_forall in Hlt. specialize (Hlt _ H). simpl in Hlt. lia.
  - intros y Hy. rewrite Hids in Hy. apply elem_of_seq in Hy.
    unfold in_degree, predecessors. rewrite length_fmap, filter_snd_length.
    rewrite Hedges, filter_eq_seq_length. repeat case_bool_decide; lia.
Qed.

Lemma build_tree_gives_every_node_one_parent_witness :
  ∃ t ps, build_tree (scenario_df false) ["country"; "age_band"]
            scenario_thresholds = Ok (t, ps) ∧
          edges t = [(0, 1); (1, 2); (1, 3)] ∧ in_degree t 3 = 1.
Proof.
  eexists _, _. split; [vm_compute; reflexivity|]. split; [reflexivity|].
  eapply (build_tree_gives_every_node_one_parent (scenario_df false)
    ["country"; "age_band"] scenario_thresholds).
  - vm_compute. reflexivity.
  - vm_compute. do 3 right. by left.
Defined.

(** ** The nodes that [build_tree] creates *)

Lemma build_tree_nodes df fs th t ps :
  build_tree df fs th = Ok (t, ps) →
  ∃ l, nodes t = (0, root_attrs (df_count df)) :: l ∧
       (∀ x a, (x, a) ∈ l → x ≠ 0) ∧
       l.*2 = concat (layer_nodes df th fs <$> enumerate_from 0 fs).
Proof.
  unfold build_tree. intros H. inv_bind H. inversion H; subst; clear H.
  destruct (build_layers_nodes _ _ _ _ _ _ Hx) as [Hids Hn]; [done|].
  unfold ids_sequential, node_ids in Hids. simpl in Hn.
  destruct (nodes (b_tree x)) as [|[z a] l]; [done|].
  rewrite !fmap_cons in *. simpl in *. inversion Hids as [[Hz Hl]].
  inversion Hn as [[Ha Hl2]]. exists l. split; [done|]. split; [|done].
  intros y b Hin ->. apply (list_elem_of_fmap_2 fst) in Hin. simpl in Hin.
  rewrite Hl in Hin. apply elem_of_seq in Hin. lia.
Qed.

Lemma layer_nodes_elem df th fs a :
  a ∈ concat (layer_nodes df th fs <$> enumerate_from 0 fs) →
  ∃ index f r, fs !! index = Some f ∧
    r ∈ collect_layer df th (take (index + 1) fs) ∧
    a = row_node th (index + 1) f r.
Proof.
  intros H. apply list_elem_of_In, in_concat in H as (l & Hl & Ha).
  apply list_elem_of_In, list_elem_of_fmap in Hl as ([i f] & -> & Hl).
  apply elem_of_enumerate_from in Hl as [_ Hl]. rewrite Nat.sub_0_r in Hl.
  apply list_elem_of_In in Ha. unfold layer_nodes in Ha. simpl in Ha.
  apply list_elem_of_fmap in Ha as (r & -> & Hr). by exists i, f, r.
Qed.

(** In a loop that ends without an exception the body has ended without
    one at every element. *)
Lemma foldM_r_Ok_elem {A S} (f : S → A → result S) l x : ∀ s s',
  foldM_r f s l = Ok s' → x ∈ l → ∃ s1 s2, f s1 x = Ok s2.
Proof.
  induction l as [|y l IH]; intros s s' H Hx; [by apply elem_of_nil in Hx|].
  simpl in H. inv_bind H. apply elem_of_cons in Hx as [->|Hx]; [eauto|].
  by eapply IH.
Qed.

(** Every collected row of a build that returns was added as a node. *)
Lemma build_tree_rows_added df fs th t ps index f r :
  build_tree df fs th = Ok (t, ps) →
  fs !! index = Some f → r ∈ collect_layer df th (take (index + 1) fs) →
  ∃ st st', build_row th f (take (index + 1) fs) (index + 1) st r = Ok st'.
Proof.
  unfold build_tree. intros H Hf Hr. inv_bind H. clear H.
  assert ((index, f) ∈ enumerate_from 0 fs) as Hin.
  { apply list_elem_of_lookup. exists index. by apply enumerate_from_lookup. }
  destruct (foldM_r_Ok_elem _ _ _ _ _ Hx Hin) as (s1 & s2 & Hl).
  unfold build_layer in Hl. simpl in Hl.
  by eapply foldM_r_Ok_elem.
Qed.

(** The nodes of the tree that [build_tree] returns, by the rows they
    come from. *)
Lemma build_tree_node_rows df fs th t ps :
  build_tree df fs th = Ok (t, ps) →
  node_attrs t 0 = Some (root_attrs (df_count df)) ∧
  ∀ x a, node_attrs t x = Some a → x ≠ 0 →
    ∃ index f r v hit refusal,
      fs !! index = Some f ∧
      r ∈ collect_layer df th (take (index + 1) fs) ∧
      row_get r f = Ok v ∧ v ≠ VNull ∧
      applicant_hit_percentage r = Some hit ∧
      g_refusal_percentage r = Some refusal ∧
      a = row_attrs th (index + 1) (feature_value_string v) r hit refusal.
Proof.
  intros H. destruct (build_tree_nodes _ _ _ _ _ H) as (l & Hn & Hl & Hattrs).
  split; [unfold node_attrs; by rewrite Hn|].
  intros x a Ha Hne. apply node_attrs_elem in Ha. rewrite Hn in Ha.
  apply elem_of_cons in Ha as [Ha|Ha]; [by inversion Ha|].
  apply (list_elem_of_fmap_2 snd) in Ha. rewrite Hattrs in Ha. simpl in Ha.
  apply layer_nodes_elem in Ha as (index & f & r & Hf & Hr & ->).
  destruct (build_tree_rows_added _ _ _ _ _ _ _ _ H Hf Hr) as (st & st' & Hrow).
  apply build_row_Ok_inv in Hrow
    as (v & c & p & hit & refusal & Hv & Hnn & _ & _ & Hh & Hre & Hnode & _).
  by exists index, f, r, v, hit, refusal.
Qed.

(** X11. In the tree that [build_tree] returns node [0] is the root with
    the row count of the DataFrame, and every other node stands for a
    group of the DataFrame of at least [minimal_groupsize] records, on a
    prefix of the features: its depth is the number of grouping features,
    its key the text of the group's value of the last of them, its type
    the [profile_type] of the group, its size the group's size, and its
    percentages the group's averages times 100; the averages and the
    value are not NULL. *)
Theorem build_tree_nodes_are_large_groups (df : DataFrame)
    (features_ordered : list string) (th : Thresholds) (t : DiGraph)
    (ps : list string * Thresholds) :
  build_tree df features_ordered th = Ok (t, ps) →
  node_attrs t 0 = Some (root_attrs (df_count df)) ∧
  stats_ok t = true ∧
  ∀ x a, node_attrs t x = Some a → x ≠ 0 →
    (minimal_groupsize th ≤ total_count a)%Z ∧
    1 ≤ depth a ≤ length features_ordered ∧
    fillcolor a = mapping_profile_type_to_color (profile_type a) ∧
    ∃ f r v hit refusal,
      features_ordered !! (depth a - 1) = Some f ∧
      r ∈ df_group_by_agg df (take (depth a) features_ordered) ∧
      dict_get (g_features r) f = Some v ∧ v ≠ VNull ∧
      applicant_hit_percentage r = Some hit ∧
      g_refusal_percentage r = Some refusal ∧
      key a = feature_value_string v ∧
      profile_type a = profile_type_column th (Some hit) (Some refusal) ∧
      total_count a = group_size r ∧
      hit_percentage a = Some (hit * 100)%float ∧
      refusal_percentage a = Some (refusal * 100)%float ∧
      hit_counts a = Some (g_hit_counts r).
Proof.
  intros H. destruct (build_tree_node_rows _ _ _ _ _ H) as [Hroot Hrows].
  split; [done|]. split.
  - unfold stats_ok. apply forallb_forall. intros [x a] Hin.
    apply list_elem_of_In in Hin. simpl.
    destruct (decide (x = 0)) as [->|Hne]; [done|].
    rewrite bool_decide_eq_false_2 by done. simpl.
    destruct (build_tree_nodes _ _ _ _ _ H) as (l & Hn & Hl & Hattrs).
    rewrite Hn in Hin. apply elem_of_cons in Hin as [Hin|Hin]; [by inversion Hin|].
    apply (list_elem_of_fmap_2 snd) in Hin. rewrite Hattrs in Hin.
    apply layer_nodes_elem in Hin as (i & f & r & _ & _ & Ha). simpl in Ha.
    by subst a.
  - intros x a Ha Hne.
    destruct (Hrows _ _ Ha Hne)
      as (i & f & r & v & hit & refusal & Hf & Hr & Hv & Hnn & Hh & Hre & ->).
    simpl. pose proof (lookup_lt_Some _ _ _ Hf) as Hlt.
    unfold collect_layer in Hr. rewrite merge_sort_Permutation in Hr.
    apply list_elem_of_filter in Hr as [Hsize Hr].
    split; [done|]. split; [lia|]. split; [done|].
    exists f, r, v, hit, refusal.
    replace (i + 1 - 1) with i by lia. split; [done|]. split; [done|].
    unfold row_get, of_option in Hv.
    destruct (dict_get (g_features r) f) as [v'|]; [|done].
    inversion Hv; subst v'. unfold row_profile_type. rewrite Hh, Hre. done.
Qed.

Lemma build_tree_nodes_are_large_groups_witness :
  ∃ t ps, build_tree (scenario_df false) ["country"; "age_band"]
            scenario_thresholds = Ok (t, ps) ∧
          node_count t = 4 ∧ stats_ok t = true.
Proof.
  eexists _, _. split; [vm_compute; reflexivity|]. split; [reflexivity|].
  eapply (build_tree_nodes_are_large_groups (scenario_df false)
            ["country"; "age_band"] scenario_thresholds).
  vm_compute. reflexivity.
Defined.

(** ** [build_tree] completes on layers that fit together *)

Lemma dict_set_keys {V} (d : list (string * V)) k v k' :
  k' ∈ (dict_set d k v).*1 → k' ∈ d.*1 ∨ k' = k.
Proof.
  induction d as [|[k0 v0] d IH]; simpl.
  - intros Hk. apply list_elem_of_singleton in Hk. by right.
  - case_bool_decide; simpl; rewrite !elem_of_cons.
    + intros [->|Hk]; [by right | left; by right].
    + intros [->|Hk]; [left; by left|].
      destruct (IH Hk); [left; by right | by right].
Qed.

Lemma filter_all {A} (P : A → Prop) `{!∀ x, Decision (P x)} (l : list A) :
  (∀ x, x ∈ l → P x) → filter P l = l.
Proof.
  induction l as [|x l IH]; intros Hall; [done|].
  rewrite filter_cons, decide_True by (apply Hall; by left).
  rewrite IH; [done | intros; apply Hall; by right].
Qed.

Section Combinations.

Variable r : GroupRow.

Local Abbreviation add_feature :=
  (λ (d : list (string * Value)) (feature : string),
     v ←ᵣ row_get r feature ;; Ok (dict_set d feature v)).

Lemma combination_keys l : ∀ acc c,
  foldM_r add_feature acc l = Ok c → ∀ k, k ∈ c.*1 → k ∈ acc.*1 ∨ k ∈ l.
Proof.
  induction l as [|f l IH]; intros acc c H k Hk; simpl in H.
  - inversion H; subst. by left.
  - inv_bind H. inv_bind Hx. inversion Hx; subst.
    destruct (IH _ _ H k Hk) as [Hin|Hin]; [|right; by right].
    apply dict_set_keys in Hin as [?| ->]; [by left | right; by left].
Qed.

Lemma combination_Ok l : ∀ acc,
  row_has_columns r l → ∃ c, foldM_r add_feature acc l = Ok c.
Proof.
  induction l as [|f l IH]; intros acc Hcols; simpl; [by eexists|].
  destruct (Hcols f) as [v Hv]; [by left|]. unfold row_get. rewrite Hv. simpl.
  apply IH. intros g Hg. apply Hcols. by right.
Qed.

(** The combination of a row in the columns [l ++ [f]] is its combination
    in the columns [l] followed by the value of [f], and removing [f]
    from it gives the combination in the columns [l] back. *)
Lemma combination_snoc l f c0 v :
  f ∉ l → feature_combination r l = Ok c0 → row_get r f = Ok v →
  feature_combination r (l ++ [f]) = Ok (c0 ++ [(f, v)]) ∧
  parent_combination (c0 ++ [(f, v)]) f = c0.
Proof.
  unfold feature_combination. intros Hf Hc Hv.
  assert (∀ k, k ∈ c0.*1 → k ≠ f) as Hkeys.
  { intros k Hk ->. destruct (combination_keys _ _ _ Hc _ Hk) as [H|H]; [|done].
    by apply elem_of_nil in H. }
  split.
  - rewrite foldM_r_app, Hc. simpl. rewrite Hv. simpl.
    rewrite dict_set_fresh; [done|]. intros H. by apply Hkeys in H.
  - unfold parent_combination. rewrite filter_app, filter_all.
    + rewrite filter_cons, decide_False by (simpl; tauto). by rewrite app_nil_r.
    + intros [k w] Hin. simpl. apply Hkeys.
      by apply (list_elem_of_fmap_2 fst) in Hin.
Qed.

End Combinations.

Lemma combination_agree r r' l :
  rows_agree r r' l → feature_combination r' l = feature_combination r l.
Proof.
  intros H. unfold feature_combination. apply foldM_r_ext.
  intros d f Hf. unfold row_get. by rewrite (H f Hf).
Qed.

Lemma build_row_keys th f fs d st r st' :
  build_row th f fs d st r = Ok st' →
  (∀ h, has_key st h → has_key st' h) ∧
  ∀ c, feature_combination r fs = Ok c → has_key st' (node_hash c).
Proof.
  unfold has_key. intros H.
  apply build_row_Ok_inv in H
    as (v & c0 & p & hit & refusal & _ & _ & Hc0 & _ & _ & _ & _ & ->).
  simpl. split.
  - intros h [n Hn]. destruct (decide (node_hash c0 = h)) as [->|Hne].
    + rewrite lookup_insert_eq. by eexists.
    + rewrite lookup_insert_ne by done. by eexists.
  - intros c Hc. rewrite Hc0 in Hc. inversion Hc; subst.
    rewrite lookup_insert_eq. by eexists.
Qed.

Lemma build_row_Ok th f fs d st r c :
  row_complete f r → feature_combination r fs = Ok c →
  has_key st (node_hash (parent_combination c f)) →
  ∃ st', build_row th f fs d st r = Ok st'.
Proof.
  unfold build_row, has_key, row_get.
  intros ((v & Hv & Hnn) & [hit Hh] & [refusal Hr]) Hc [n Hn].
  rewrite Hv. simpl. rewrite Hc. simpl. rewrite Hn. simpl.
  rewrite Hh, Hr. destruct v; [| |done]; simpl; by eexists.
Qed.

Lemma build_rows_succeed th f fs d rows : ∀ st,
  (∀ r, r ∈ rows → ∃ c, row_complete f r ∧ feature_combination r fs = Ok c ∧
                         has_key st (node_hash (parent_combination c f))) →
  ∃ st', foldM_r (build_row th f fs d) st rows = Ok st' ∧
         (∀ h, has_key st h → has_key st' h) ∧
         ∀ r c, r ∈ rows → feature_combination r fs = Ok c →
                has_key st' (node_hash c).
Proof.
  induction rows as [|r rows IH]; intros st Hrows.
  - exists st. split; [done|]. split; [done|]. intros ?? H. by apply elem_of_nil in H.
  - destruct (Hrows r) as (c & Hv & Hc & Hk); [by left|].
    destruct (build_row_Ok th f fs d st r c Hv Hc Hk) as [st1 H1].
    destruct (build_row_keys _ _ _ _ _ _ _ H1) as [Hmono Hnew].
    destruct (IH st1) as (st' & H' & Hmono' & Hnew').
    { intros r' Hr'. destruct (Hrows r') as (c' & ? & ? & ?); [by right|].
      exists c'. auto. }
    exists st'. simpl. rewrite H1. simpl. split; [done|]. split; [by auto|].
    intros r' c' Hr' Hc'. apply elem_of_cons in Hr' as [->|Hr']; [|by eauto].
    by apply Hmono', Hnew.
Qed.

Section BuildSucceeds.

Variable df : DataFrame.
Variable th : Thresholds.
Variable features_ordered : list string.
Hypothesis Hnd : NoDup features_ordered.
Hypothesis Hcons : layers_consistent df th features_ordered.

Lemma build_layers_succeed l : ∀ i st,
  drop i features_ordered = l → registry_ready df th features_ordered st i →
  ∃ st', foldM_r (build_layer df th features_ordered) st (enumerate_from i l)
         = Ok st'.
Proof.
  induction l as [|f l IH]; intros i st Hdrop Hready; simpl; [by eexists|].
  assert (features_ordered !! i = Some f) as Hf.
  { rewrite <- (Nat.add_0_r i), <- lookup_drop, Hdrop. done. }
  assert (drop (S i) features_ordered = l) as Hdrop'.
  { rewrite (drop_S _ _ _ Hf) in Hdrop. by inversion Hdrop. }
  pose proof (lookup_lt_Some _ _ _ Hf) as Hlt.
  assert (take (i + 1) features_ordered = take i features_ordered ++ [f]) as Htake
    by (rewrite Nat.add_1_r; by apply take_S_r).
  assert (f ∉ take i features_ordered) as Hfresh.
  { intros Hin. apply list_elem_of_lookup in Hin as [j Hj].
    pose proof (lookup_lt_Some _ _ _ Hj) as Hjlt. rewrite length_take in Hjlt.
    rewrite lookup_take_lt in Hj by lia.
    pose proof (NoDup_lookup _ _ _ _ Hnd Hj Hf). lia. }
  unfold build_layer at 1. simpl.
  destruct (build_rows_succeed th f (take (i + 1) features_ordered) (i + 1)
              (collect_layer df th (take (i + 1) features_ordered)) st)
    as (st1 & H1 & _ & Hnew).
  { intros r Hr. destruct (Hcons i f r Hf Hr) as (Hcols & Hcomplete & Hprefix).
    destruct (Hcols f) as [v Hv];
      [rewrite Htake; apply elem_of_app; right; by left|].
    destruct (combination_Ok r (take i features_ordered) []) as [c0 Hc0].
    { intros g Hg. apply Hcols. rewrite Htake. apply elem_of_app. by left. }
    assert (row_get r f = Ok v) as Hget by (unfold row_get; by rewrite Hv).
    destruct (combination_snoc r _ f c0 v Hfresh Hc0 Hget) as [Hc Hparent].
    exists (c0 ++ [(f, v)]). rewrite Htake. split; [done|]. split; [done|].
    rewrite Hparent. apply Hready.
    destruct (decide (i = 0)) as [->|Hi].
    - left. split; [done|]. unfold feature_combination in Hc0. simpl in Hc0.
      by inversion Hc0.
    - right. split; [lia|].
      destruct Hprefix as [?|(r' & Hr' & Hagree)]; [lia|].
      exists r'. split; [done|]. by rewrite (combination_agree r r'). }
  rewrite H1. simpl. apply (IH (S i)); [done|].
  intros c [[? _]|(_ & r' & Hr' & Hc)]; [lia|].
  rewrite <- Nat.add_1_r in Hr', Hc. by eapply Hnew.
Qed.

Lemma build_tree_succeeds :
  ∃ t, build_tree df features_ordered th = Ok (t, (features_ordered, th)).
Proof.
  destruct (build_layers_succeed features_ordered 0 (build_init df)) as [st H].
  - done.
  - intros c [[_ ->]|[? _]]; [|lia]. unfold has_key, build_init. simpl.
    rewrite lookup_singleton_eq. by eexists.
  - exists (b_tree st). unfold build_tree. by rewrite H.
Qed.

End BuildSucceeds.

(** X12. [build_tree] completes, with the parameter set it was given,
    when the feature names are distinct and the collected layers fit
    together: every collected row has its grouping columns, with a value
    other than NULL in the column of its layer, and averages other than
    NULL; and the values of a row of a deeper layer in the columns of the
    layer above are those of a row collected there.  No [KeyError],
    [ValueError], [AttributeError] or [TypeError] is raised then. *)
Theorem build_tree_completes_on_consistent_layers (df : DataFrame)
    (features_ordered : list string) (th : Thresholds) :
  NoDup features_ordered → layers_consistent df th features_ordered →
  ∃ t, build_tree df features_ordered th = Ok (t, (features_ordered, th)).
Proof. intros. by apply build_tree_succeeds. Qed.

(** The layers of the scenario fit together. *)
Lemma scenario_layers_consistent :
  layers_consistent (scenario_df false) scenario_thresholds
    ["country"; "age_band"].
Proof.
  intros index f r Hf Hr.
  destruct index as [|[|index]]; simpl in Hf; [| |done];
    inversion Hf; subst f; clear Hf; vm_compute in Hr.
  - apply list_elem_of_singleton in Hr as ->.
    split; [|split; [|by left]].
    + intros f Hf. vm_compute in Hf.
      apply list_elem_of_singleton in Hf as ->. vm_compute. by eexists.
    + split; [by eexists|]. split; by eexists.
  - split; [|split].
    + intros f Hf. vm_compute in Hf.
      apply elem_of_cons in Hr as [->|Hr];
        [|apply list_elem_of_singleton in Hr as ->];
        (apply elem_of_cons in Hf as [->|Hf];
          [|apply list_elem_of_singleton in Hf as ->]);
        vm_compute; by eexists.
    + apply elem_of_cons in Hr as [->|Hr];
        [|apply list_elem_of_singleton in Hr as ->];
        (split; [by eexists|]; split; by eexists).
    + right. exists (group [("country", VStr "A")] 32 5 160). split.
      { vm_compute. by left. }
      intros f Hf. vm_compute in Hf. apply list_elem_of_singleton in Hf as ->.
      apply elem_of_cons in Hr as [->|Hr];
        [|apply list_elem_of_singleton in Hr as ->]; reflexivity.
Qed.

Lemma build_tree_completes_on_consistent_layers_witness :
  ∃ t, build_tree (scenario_df false) ["country"; "age_band"] scenario_thresholds
       = Ok (t, (["country"; "age_band"], scenario_thresholds)).
Proof.
  apply (build_tree_completes_on_consistent_layers (scenario_df false)).
  - apply (bool_decide_unpack _). vm_compute. exact I.
  - apply scenario_layers_consistent.
Defined.

(** ** When keys do not collide across depths the built tree is well-formed *)

Lemma find_app_l {A} (P : A → bool) (l l' : list A) :
  find P (l ++ l') = match find P l with Some x => Some x | None => find P l' end.
Proof. induction l as [|a l IH]; simpl; [done|]. by destruct (P a). Qed.

Lemma node_attrs_add_node_other t x a y :
  has_node t x = false → y ≠ x → node_attrs (add_node t x a) y = node_attrs t y.
Proof.
  intros Hx Hne. unfold node_attrs, add_node. simpl. rewrite Hx, find_app_l.
  destruct (find _ (nodes t)); [done|]. simpl.
  by rewrite bool_decide_eq_false_2 by done.
Qed.

Lemma node_attrs_add_node_new t x a :
  has_node t x = false → node_attrs (add_node t x a) x = Some a.
Proof.
  intros Hx. unfold node_attrs, add_node. simpl. rewrite Hx, find_app_l.
  destruct (find _ (nodes t)) as [[z b]|] eqn:E.
  - apply find_some in E as [Hin Hz]. apply bool_decide_eq_true in Hz.
    simpl in Hz. subst z. unfold has_node in Hx.
    apply bool_decide_eq_false in Hx. destruct Hx.
    apply list_elem_of_In in Hin. by apply (list_elem_of_fmap_2 fst) in Hin.
  - simpl. by rewrite bool_decide_eq_true_2.
Qed.

Lemma parent_combination_fst (d : list (string * Value)) (f : string) :
  (parent_combination d f).*1 = filter (λ k, k ≠ f) (d.*1).
Proof.
  unfold parent_combination.
  induction d as [|[k v] d IH]; [done|]. rewrite fmap_cons, !filter_cons. simpl.
  destruct (decide (k ≠ f)); [rewrite fmap_cons|]; by rewrite IH.
Qed.

Lemma combination_columns r l : ∀ c,
  NoDup l → feature_combination r l = Ok c → c.*1 = l.
Proof.
  induction l as [|f l IH] using rev_ind; intros c Hnd H.
  - unfold feature_combination in H. simpl in H. by inversion H.
  - apply NoDup_app in Hnd as (Hnd & Hf & _).
    assert (f ∉ l) as Hfresh by (intros Hin; apply (Hf f Hin); by left).
    pose proof H as H'. unfold feature_combination in H'.
    rewrite foldM_r_app in H'. inv_bind H'. simpl in H'. inv_bind H'.
    inv_bind Hx0.
    destruct (combination_snoc r l f x x1 Hfresh Hx Hx1) as [E _].
    rewrite E in H. inversion H; subst c.
    by rewrite fmap_app, (IH x Hnd Hx).
Qed.

Lemma parent_combination_columns (c : list (string * Value)) l f :
  c.*1 = l ++ [f] → f ∉ l → (parent_combination c f).*1 = l.
Proof.
  intros Hc Hf.
  rewrite parent_combination_fst, Hc, filter_app, filter_all by (intros k ? ->; done).
  rewrite filter_cons, decide_False by tauto. by rewrite app_nil_r.
Qed.

Section BuildDepths.

Variable df : DataFrame.
Variable th : Thresholds.
Variable features_ordered : list string.
Hypothesis Hnd : NoDup features_ordered.
Hypothesis Hkeys : keys_tell_depths df th features_ordered.

Local Abbreviation occurring := (occurring_combination df th features_ordered).
Local Abbreviation registry_depths := (registry_depths df th features_ordered).

Lemma build_row_depths index f st r st' :
  features_ordered !! index = Some f →
  r ∈ collect_layer df th (take (index + 1) features_ordered) →
  build_row th f (take (index + 1) features_ordered) (index + 1) st r = Ok st' →
  build_inv st → registry_depths st → edges_go_down (b_tree st) →
  registry_depths st' ∧ edges_go_down (b_tree st').
Proof.
  intros Hf Hr H (Hids & Hedges & Hlt & Hreg) Hdepths [Hroot Hdown].
  pose proof (lookup_lt_Some _ _ _ Hf) as Hilt.
  assert (take (index + 1) features_ordered = take index features_ordered ++ [f])
    as Htake by (rewrite Nat.add_1_r; by apply take_S_r).
  assert (f ∉ take index features_ordered) as Hfresh.
  { intros Hin. apply list_elem_of_lookup in Hin as [j Hj].
    pose proof (lookup_lt_Some _ _ _ Hj) as Hjlt. rewrite length_take in Hjlt.
    rewrite lookup_take_lt in Hj by lia.
    pose proof (NoDup_lookup _ _ _ _ Hnd Hj Hf). lia. }
  apply build_row_Ok_inv in H
    as (v & c & p & hit & refusal & Hx & _ & Hx0 & Ep & _ & _ & _ & ->).
  assert (c.*1 = take index features_ordered ++ [f]) as Hcols.
  { rewrite <- Htake. apply (combination_columns r); [|done].
    eapply sublist_NoDup; [exact Hnd | apply sublist_take]. }
  assert (length c = index + 1) as Hlen.
  { rewrite <- (length_fmap fst), Hcols, length_app, length_take. simpl. lia. }
  assert (length (parent_combination c f) = index) as Hplen.
  { rewrite <- (length_fmap fst), (parent_combination_columns c _ f Hcols Hfresh).
    rewrite length_take. lia. }
  assert (occurring c) as Hocc by (right; exists index, f, r, c; auto).
  assert (occurring (parent_combination c f)) as Hpocc
    by (right; exists index, f, r, c; auto).
  pose proof (Hreg _ _ Ep) as Hple.
  destruct (Hdepths _ _ Ep) as (c' & Hc' & Hh & Hd).
  assert (depth_of (b_tree st) p = index) as Hpd.
  { rewrite Hd, (Hkeys c' (parent_combination c f)); done. }
  set (k := current_node_number st) in *.
  assert (has_node (b_tree st) (S k) = false) as Hnew.
  { unfold has_node. apply bool_decide_eq_false_2. rewrite Hids.
    rewrite elem_of_seq. lia. }
  set (a := row_node th (index + 1) f r).
  assert (∀ y, y ≤ k →
            depth_of (add_edge (add_node (b_tree st) (S k) a) p (S k)) y
            = depth_of (b_tree st) y) as Hold.
  { intros y Hy. unfold depth_of.
    change (node_attrs (add_edge ?t ?u ?v) y) with (node_attrs t y).
    rewrite node_attrs_add_node_other by (done || lia). done. }
  assert (depth_of (add_edge (add_node (b_tree st) (S k) a) p (S k)) (S k)
          = index + 1) as Hnewd.
  { unfold depth_of.
    change (node_attrs (add_edge ?t ?u ?v) (S k)) with (node_attrs t (S k)).
    by rewrite node_attrs_add_node_new. }
  cbn [b_tree node_registry current_node_number]. split; [|split].
  - intros h n Hl. cbn [b_tree node_registry] in Hl |- *.
    apply lookup_insert_Some in Hl as [[<- <-]|[_ Hl]].
    + exists c. split; [done|]. split; [done|]. by rewrite Hnewd, Hlen.
    + destruct (Hdepths _ _ Hl) as (c2 & ? & ? & Hd2). exists c2.
      split; [done|]. split; [done|]. rewrite Hold; [done|]. by apply Hreg in Hl.
  - cbn [b_tree]. rewrite Hold by lia. done.
  - intros q y He. cbn [b_tree] in He |- *. cbn [add_edge add_node edges] in He.
    case_bool_decide as Hin; [|apply elem_of_app in He as [He|He]].
    + rewrite Forall_forall in Hlt. pose proof (Hlt _ He) as Hqy. simpl in Hqy.
      assert (y ∈ (edges (b_tree st)).*2) as Hy
        by by apply (list_elem_of_fmap_2 snd) in He.
      rewrite Hedges in Hy. apply elem_of_seq in Hy.
      rewrite !Hold by lia. by apply Hdown.
    + rewrite Forall_forall in Hlt. pose proof (Hlt _ He) as Hqy. simpl in Hqy.
      assert (y ∈ (edges (b_tree st)).*2) as Hy
        by by apply (list_elem_of_fmap_2 snd) in He.
      rewrite Hedges in Hy. apply elem_of_seq in Hy.
      rewrite !Hold by lia. by apply Hdown.
    + apply list_elem_of_singleton in He. inversion He; subst q y.
      rewrite Hnewd, Hold by done. lia.
Qed.

Lemma build_rows_depths index f rows : ∀ st st',
  features_ordered !! index = Some f →
  (∀ r, r ∈ rows → r ∈ collect_layer df th (take (index + 1) features_ordered)) →
  foldM_r (build_row th f (take (index + 1) features_ordered) (index + 1)) st rows
    = Ok st' →
  build_inv st → registry_depths st → edges_go_down (b_tree st) →
  registry_depths st' ∧ edges_go_down (b_tree st').
Proof.
  induction rows as [|r rows IH]; intros st st' Hf Hrows H Hinv Hreg Hdown;
    simpl in H; [by inversion H; subst|].
  inv_bind H.
  destruct (build_row_depths index f st r x Hf) as [Hreg1 Hdown1]; try done.
  { apply Hrows. by left. }
  eapply IH; [done | | done | by eapply build_row_inv | done..].
  intros; apply Hrows; by right.
Qed.

Lemma build_layers_depths layers : ∀ st st',
  (∀ layer, layer ∈ layers → features_ordered !! layer.1 = Some layer.2) →
  foldM_r (build_layer df th features_ordered) st layers = Ok st' →
  build_inv st → registry_depths st → edges_go_down (b_tree st) →
  edges_go_down (b_tree st').
Proof.
  induction layers as [|[index f] layers IH]; intros st st' Hl H Hinv Hreg Hdown;
    simpl in H; [by inversion H; subst|].
  inv_bind H. unfold build_layer in Hx. simpl in Hx.
  destruct (build_rows_depths index f
              (collect_layer df th (take (index + 1) features_ordered)) st x)
    as [Hreg1 Hdown1]; try done.
  { apply (Hl (index, f)). by left. }
  eapply IH; [| done | by eapply build_rows_inv | done..].
  intros; apply Hl; by right.
Qed.

Lemma build_tree_edges_go_down t ps :
  build_tree df features_ordered th = Ok (t, ps) → edges_go_down t.
Proof.
  unfold build_tree. intros H. inv_bind H. inversion H; subst; clear H.
  eapply build_layers_depths; [| done | apply build_init_inv | |].
  - intros [i f] Hin. apply elem_of_enumerate_from in Hin as [_ Hin].
    by rewrite Nat.sub_0_r in Hin.
  - intros h n Hl. unfold build_init in Hl. simpl in Hl.
    apply lookup_singleton_Some in Hl as [<- <-]. exists []. by split; [left|].
  - split; [done|]. intros p c He. by apply elem_of_nil in He.
Qed.

End BuildDepths.

Lemma build_inv_tree_ok st :
  build_inv st → edges_go_down (b_tree st) → tree_ok (b_tree st) = true.
Proof.
  intros (Hids & Hedges & Hlt & _) [Hroot Hdown]. apply tree_ok_intro.
  - rewrite Hids. apply NoDup_seq.
  - intros p c He. rewrite Forall_forall in Hlt. pose proof (Hlt _ He) as Hpc.
    simpl in Hpc.
    assert (c ∈ (edges (b_tree st)).*2) as Hc
      by by apply (list_elem_of_fmap_2 snd) in He.
    rewrite Hedges in Hc. apply elem_of_seq in Hc.
    rewrite Hids, !elem_of_seq. split; [lia|]. split; [lia|]. by apply Hdown.
  - intros y Hy. split; [by intros ->|]. intros Hne.
    rewrite Hids in Hy. apply elem_of_seq in Hy.
    unfold in_degree, predecessors. rewrite length_fmap, filter_snd_length.
    rewrite Hedges, filter_eq_seq_length. rewrite bool_decide_eq_true_2 by lia.
    done.
Qed.

(** X13. When the feature names are distinct and no two combinations of
    different lengths met by the build have the same MD5 key, the tree
    that [build_tree] returns is well-formed: unique ids, every edge
    between present nodes and from a node one level up, node [0] at
    depth [0] and exactly one parent for every other node. *)
Theorem build_tree_is_well_formed (df : DataFrame)
    (features_ordered : list string) (th : Thresholds) (t : DiGraph)
    (ps : list string * Thresholds) :
  NoDup features_ordered → keys_tell_depths df th features_ordered →
  build_tree df features_ordered th = Ok (t, ps) →
  tree_ok t = true.
Proof.
  intros Hnd Hkeys H.
  pose proof (build_tree_edges_go_down df th features_ordered Hnd Hkeys t ps H)
    as Hdown.
  unfold build_tree in H. inv_bind H. inversion H; subst; clear H.
  apply build_inv_tree_ok; [|done].
  eapply build_layers_inv; [done | apply build_init_inv].
Qed.

(** The combinations met by the build of the scenario. *)
Lemma scenario_occurring_combinations c :
  occurring_combination (scenario_df false) scenario_thresholds
    ["country"; "age_band"] c →
  c ∈ [ [];
        [("country", VStr "A")];
        [("country", VStr "A"); ("age_band", VStr "old")];
        [("country", VStr "A"); ("age_band", VStr "young")] ].
Proof.
  intros [->|(index & f & r & c' & Hf & Hr & Hc & Hcc)]; [by left|].
  destruct index as [|[|index]]; simpl in Hf; [| |done];
    inversion Hf; subst f; clear Hf; vm_compute in Hr.
  - apply list_elem_of_singleton in Hr as ->. vm_compute in Hc.
    inversion Hc; subst c'; clear Hc.
    destruct Hcc as [-> | ->]; [right; by left|]. vm_compute. by left.
  - apply elem_of_cons in Hr as [->|Hr];
      [|apply list_elem_of_singleton in Hr as ->];
      vm_compute in Hc; inversion Hc; subst c'; clear Hc;
      (destruct Hcc as [-> | ->]; [|vm_compute; right; by left]).
    + right; right; by left.
    + right; right; right; by left.
Qed.

(** The keys of the scenario do not collide. *)
Lemma scenario_keys_tell_depths :
  keys_tell_depths (scenario_df false) scenario_thresholds ["country"; "age_band"].
Proof.
  intros c1 c2 H1 H2 Hh.
  apply scenario_occurring_combinations in H1, H2.
  repeat (apply elem_of_cons in H1 as [->|H1]);
    [ | | | | apply elem_of_nil in H1; destruct H1];
    (repeat (apply elem_of_cons in H2 as [->|H2]);
      [ | | | | apply elem_of_nil in H2; destruct H2]);
    first [reflexivity | exfalso; revert Hh; vm_compute; discriminate].
Qed.

Lemma build_tree_is_well_formed_witness :
  ∃ t ps, build_tree (scenario_df false) ["country"; "age_band"]
            scenario_thresholds = Ok (t, ps) ∧
          tree_ok t = true.
Proof.
  eexists _, _. split; [vm_compute; reflexivity|].
  eapply (build_tree_is_well_formed (scenario_df false) ["country"; "age_band"]
            scenario_thresholds).
  - apply (bool_decide_unpack _). vm_compute. exact I.
  - apply scenario_keys_tell_depths.
  - vm_compute. reflexivity.
Defined.

(** ** The whole run: build, prune, filter, export *)

Lemma build_tree_stats_ok df fs th t ps :
  build_tree df fs th = Ok (t, ps) → stats_ok t = true.
Proof.
  intros H. destruct (build_tree_nodes _ _ _ _ _ H) as (l & Hn & _ & Hattrs).
  unfold stats_ok. rewrite Hn. apply forallb_forall. intros [y a] Hin.
  apply list_elem_of_In, elem_of_cons in Hin as [Hin|Hin].
  - inversion Hin; subst. done.
  - apply (list_elem_of_fmap_2 snd) in Hin. rewrite Hattrs in Hin.
    apply layer_nodes_elem in Hin as (i & f & r & _ & _ & Ha). simpl in Ha.
    subst a. simpl. by rewrite orb_true_r.
Qed.

Lemma build_tree_depth_bound df fs th t ps x :
  build_tree df fs th = Ok (t, ps) → depth_of t x ≤ length fs.
Proof.
  intros H. destruct (build_tree_node_rows _ _ _ _ _ H) as [Hroot Hrows].
  unfold depth_of. destruct (node_attrs t x) as [a|] eqn:Ha; simpl; [|lia].
  destruct (decide (x = 0)) as [->|Hne].
  - rewrite Hroot in Ha. inversion Ha; subst a. simpl. lia.
  - destruct (Hrows _ _ Ha Hne)
      as (i & f & r & v & hit & refusal & Hf & _ & _ & _ & _ & _ & ->).
    simpl. apply lookup_lt_Some in Hf. lia.
Qed.

(** * Part VI: the registry of the builder *)

(** ** Loops that end without an exception *)

Lemma foldM_r_invariant {A S} (f : S → A → result S) (P : S → Prop) l : ∀ s s',
  foldM_r f s l = Ok s' → P s →
  (∀ x s1 s2, x ∈ l → P s1 → f s1 x = Ok s2 → P s2) → P s'.
Proof.
  induction l as [|y l IH]; intros s s' H Hs Hstep; simpl in H.
  - by inversion H; subst.
  - inv_bind H. eapply IH; [done | |].
    + eapply Hstep; [by left | done..].
    + intros z s1 s2 Hz. apply Hstep. by right.
Qed.

(** What holds after the element [x] and is kept by the body holds when
    the loop ends. *)
Lemma foldM_r_after {A S} (f : S → A → result S) (M : S → Prop) l x : ∀ s s',
  foldM_r f s l = Ok s' → x ∈ l →
  (∀ s1 s2, f s1 x = Ok s2 → M s2) →
  (∀ y s1 s2, y ∈ l → M s1 → f s1 y = Ok s2 → M s2) → M s'.
Proof.
  induction l as [|y l IH]; intros s s' H Hx Hnew Hkeep;
    [by apply elem_of_nil in Hx|].
  simpl in H. inv_bind H. apply elem_of_cons in Hx as [->|Hx].
  - eapply (foldM_r_invariant f M); [done | by eapply Hnew |].
    intros z s1 s2 Hz. apply Hkeep. by right.
  - eapply IH; [done.. |]. intros z s1 s2 Hz. apply Hkeep. by right.
Qed.

Lemma build_tree_build_state df fs th :
  build_tree df fs th = (st ←ᵣ build_state df fs th ;; Ok (b_tree st, (fs, th))).
Proof. done. Qed.

(** What every row keeps true holds of the state of a build that ends. *)
Lemma build_state_invariant (P : BuildState → Prop) df fs th st :
  build_state df fs th = Ok st → P (build_init df) →
  (∀ index f r st1 st2,
     fs !! index = Some f → r ∈ collect_layer df th (take (index + 1) fs) →
     P st1 → build_row th f (take (index + 1) fs) (index + 1) st1 r = Ok st2 →
     P st2) →
  P st.
Proof.
  unfold build_state. intros H Hinit Hstep.
  eapply (foldM_r_invariant _ P); [exact H | done |].
  intros [index f] s1 s2 Hin Hs1 Hl.
  apply elem_of_enumerate_from in Hin as [_ Hf]. rewrite Nat.sub_0_r in Hf.
  unfold build_layer in Hl. simpl in Hl.
  eapply (foldM_r_invariant _ P); [exact Hl | done |].
  intros r s3 s4 Hr. by apply Hstep.
Qed.

(** What holds after a collected row and is kept by every row holds of
    the state of a build that ends. *)
Lemma build_state_after (M : BuildState → Prop) df fs th st index f r :
  build_state df fs th = Ok st →
  fs !! index = Some f → r ∈ collect_layer df th (take (index + 1) fs) →
  (∀ st1 st2, build_row th f (take (index + 1) fs) (index + 1) st1 r = Ok st2 →
              M st2) →
  (∀ f' fs' d r' st1 st2, M st1 → build_row th f' fs' d st1 r' = Ok st2 → M st2) →
  M st.
Proof.
  unfold build_state. intros H Hf Hr Hnew Hkeep.
  assert ((index, f) ∈ enumerate_from 0 fs) as Hin.
  { apply list_elem_of_lookup. exists index. by apply enumerate_from_lookup. }
  eapply (foldM_r_after _ M); [exact H | exact Hin | |].
  - intros s1 s2 Hl. unfold build_layer in Hl. simpl in Hl.
    eapply (foldM_r_after _ M); [exact Hl | exact Hr | done |].
    intros r' s3 s4 _. apply Hkeep.
  - intros [i g] s1 s2 _ Hs1 Hl. unfold build_layer in Hl.
    eapply (foldM_r_invariant _ M); [exact Hl | done |].
    intros r' s3 s4 _. apply Hkeep.
Qed.

(** ** The keys of the registry *)

Lemma registered_upto_mono df th fs i j c :
  i ≤ j → registered_upto df th fs i c → registered_upto df th fs j c.
Proof.
  intros Hij [->|(k & r & Hk & ? & ? & ?)]; [by left|].
  right. exists k, r. split; [lia | done].
Qed.

Lemma build_state_keys df fs th st h :
  build_state df fs th = Ok st →
  has_key st h ↔ ∃ c, registered_combination df th fs c ∧ h = node_hash c.
Proof.
  intros H. split.
  - revert h.
    apply (build_state_invariant
             (λ st, ∀ h, has_key st h →
                ∃ c, registered_combination df th fs c ∧ h = node_hash c)
             df fs th st H).
    + intros h [n Hn]. unfold build_init in Hn. simpl in Hn.
      apply lookup_singleton_Some in Hn as [<- _]. exists []. by split; [left|].
    + intros index f r st1 st2 Hf Hr IH Hrow h [n Hn].
      apply build_row_Ok_inv in Hrow
        as (v & c & p & hit & refusal & _ & _ & Hc & _ & _ & _ & _ & ->).
      simpl in Hn. apply lookup_insert_Some in Hn as [[<- _]|[_ Hn]].
      * exists c. split; [|done]. right. exists index, r.
        apply lookup_lt_Some in Hf. split; [lia|]. done.
      * apply IH. by exists n.
  - intros (c & [->|(i & r & _ & Hi & Hr & Hc)] & ->).
    + apply (build_state_invariant (λ st, has_key st (node_hash [])) df fs th st H).
      * unfold has_key, build_init. simpl. rewrite lookup_singleton_eq. by eexists.
      * intros index f r st1 st2 _ _ IH Hrow.
        by apply (proj1 (build_row_keys _ _ _ _ _ _ _ Hrow)).
    + destruct (lookup_lt_is_Some_2 fs i Hi) as [f Hf].
      apply (build_state_after (λ st, has_key st (node_hash c))
               df fs th st i f r H Hf Hr).
      * intros st1 st2 Hrow. by apply (proj2 (build_row_keys _ _ _ _ _ _ _ Hrow)).
      * intros f' fs' d r' st1 st2 Hk Hrow.
        by apply (proj1 (build_row_keys _ _ _ _ _ _ _ Hrow)).
Qed.

(** The build of [many_groups_df] ends without an exception, and its
    registered combinations are the empty one and [{"f": "<i>"}] for
    every [i] from [0] to [2 ^ 128]. *)
Lemma many_groups_rows r :
  r ∈ collect_layer many_groups_df thresholds_groups_of_one ["f"] ↔
  ∃ i, (0 ≤ i ≤ 2 ^ 128)%Z ∧ r = group [("f", VStr (pretty i))] 0 0 1.
Proof.
  unfold collect_layer. rewrite merge_sort_Permutation, list_elem_of_filter.
  unfold many_groups_df. cbn [df_group_by_agg].
  rewrite bool_decide_eq_true_2 by done. rewrite list_elem_of_fmap. split.
  - intros [_ (i & -> & Hi)]. apply elem_of_seqZ in Hi. exists i. split; [lia|done].
  - intros (i & Hi & ->). split; [done|]. exists i. split; [done|].
    apply elem_of_seqZ. lia.
Qed.

Lemma many_groups_consistent :
  layers_consistent many_groups_df thresholds_groups_of_one ["f"].
Proof.
  intros index f r Hf Hr. destruct index as [|index]; [|done].
  inversion Hf; subst f. clear Hf. change (take (0 + 1) ["f"]) with ["f"] in *.
  apply many_groups_rows in Hr as (i & _ & ->).
  split; [|split; [|by left]].
  - intros f Hf. apply list_elem_of_singleton in Hf as ->. by eexists.
  - split; [|split; by eexists]. by eexists.
Qed.

(** C2, as stated, fails: the keys of the registry are MD5 digests, and
    there are only [2 ^ 128] of them.  The build of a DataFrame with one
    feature and [2 ^ 128 + 1] groups ends without an exception and
    registers [2 ^ 128 + 1] pairwise distinct combinations of that
    feature, two of which have the same key. *)
Lemma registry_keys_collide_in_a_build :
  (∃ st, build_state many_groups_df ["f"] thresholds_groups_of_one = Ok st) ∧
  ∃ c1 c2,
    registered_combination many_groups_df thresholds_groups_of_one ["f"] c1 ∧
    registered_combination many_groups_df thresholds_groups_of_one ["f"] c2 ∧
    c1 ≠ c2 ∧ node_hash c1 = node_hash c2.
Proof.
  split.
  - destruct (build_tree_succeeds many_groups_df thresholds_groups_of_one ["f"])
      as [t H]; [apply NoDup_singleton | apply many_groups_consistent |].
    rewrite build_tree_build_state in H. inv_bind H. by exists x.
  - destruct (collision_in_range
      (λ i, md5_digest (encode_utf8 (json_dumps [("f", VStr (pretty i))])))
      (2 ^ 128)) as (i & j & Hi & Hj & Hne & Heq);
      [lia | intros; apply md5_digest_range |].
    assert (∀ k, (0 ≤ k ≤ 2 ^ 128)%Z →
              registered_combination many_groups_df thresholds_groups_of_one
                ["f"] [("f", VStr (pretty k))]) as Hreg.
    { intros k Hk. right. exists 0, (group [("f", VStr (pretty k))] 0 0 1).
      split; [cbn; lia|]. split; [cbn; lia|].
      change (take (0 + 1) ["f"]) with ["f"]. split; [|done].
      apply many_groups_rows. by exists k. }
    exists [("f", VStr (pretty i))], [("f", VStr (pretty j))].
    split; [by apply Hreg|]. split; [by apply Hreg|]. split.
    + intros He. inversion He as [Hp]. by apply (inj pretty) in Hp.
    + unfold node_hash, md5_hexdigest. by rewrite Heq.
Qed.

(** C2, amended. The index of the builder is keyed by MD5 digests of
    JSON texts.  The root is registered under the digest of the empty
    dictionary; the parent of a row is the node found under the digest of
    the combination without the current feature, and the node of the row
    is stored under the digest of its own combination; when the build
    has ended the keys of the index are the digests of the registered
    combinations; and a digest is a number below [2 ^ 128], written as 32
    hexadecimal digits.  Equal combinations have equal keys, while
    distinct combinations are not promised distinct keys. *)
Theorem registry_keyed_by_md5_digest (df : DataFrame)
    (features_ordered : list string) (th : Thresholds) :
  node_registry (build_init df) = {[ "99914b932bd37a50b983c5e7c90ae93b" := 0 ]} ∧
  (∀ f fs d st r st',
     build_row th f fs d st r = Ok st' →
     ∃ c p, feature_combination r fs = Ok c ∧
       node_registry st !! node_hash (parent_combination c f) = Some p ∧
       (p, S (current_node_number st)) ∈ edges (b_tree st') ∧
       node_registry st'
       = <[node_hash c := S (current_node_number st)]> (node_registry st)) ∧
  (∀ st, build_state df features_ordered th = Ok st →
     ∀ h, is_Some (node_registry st !! h) ↔
          ∃ c, registered_combination df th features_ordered c ∧ h = node_hash c) ∧
  (∀ c, node_hash c = hex_le 16 (md5_digest (encode_utf8 (json_dumps c))) ∧
        (0 ≤ md5_digest (encode_utf8 (json_dumps c)) < 2 ^ 128)%Z ∧
        String.length (node_hash c) = 32).
Proof.
  split; [|split; [|split]].
  - unfold build_init. cbn [node_registry].
    replace (node_hash []) with "99914b932bd37a50b983c5e7c90ae93b"; [done|].
    vm_compute. reflexivity.
  - intros f fs d st r st' H.
    apply build_row_Ok_inv in H
      as (v & c & p & hit & refusal & _ & _ & Hc & Hp & _ & _ & _ & ->).
    exists c, p. split; [done|]. split; [done|]. split; [|done].
    cbn [b_tree add_edge edges]. case_bool_decide; [done|].
    apply elem_of_app. right. by left.
  - intros st H h. by apply build_state_keys.
  - intros c. split; [done|]. split; [apply md5_digest_range|].
    unfold node_hash, md5_hexdigest. by rewrite hex_le_length.
Qed.

Lemma registry_keyed_by_md5_digest_witness :
  ∃ st, build_state (scenario_df false) ["country"; "age_band"]
          scenario_thresholds = Ok st ∧
        is_Some (node_registry st !! "7bf25d752a77892717391c57a19f5ceb").
Proof.
  eexists. split; [vm_compute; reflexivity|].
  eapply (proj1 (proj2 (proj2 (registry_keyed_by_md5_digest (scenario_df false)
            ["country"; "age_band"] scenario_thresholds)))).
  - vm_compute. reflexivity.
  - exists [("country", VStr "A"); ("age_band", VStr "old")]. split.
    + right. exists 1, (group [("country", VStr "A"); ("age_band", VStr "old")]
                          30 0 60).
      split; [cbn; lia|]. split; [cbn; lia|]. split; vm_compute; [by left | done].
    + vm_compute. reflexivity.
Defined.

(** ** A combination without a registered prefix *)

Lemma enumerate_from_app {A} (l1 l2 : list A) : ∀ n,
  enumerate_from n (l1 ++ l2)
  = enumerate_from n l1 ++ enumerate_from (n + length l1) l2.
Proof.
  induction l1 as [|x l1 IH]; intros n; simpl.
  - by rewrite Nat.add_0_r.
  - rewrite IH. do 3 f_equal. lia.
Qed.

Lemma enumerate_from_split {A} (l : list A) i x :
  l !! i = Some x →
  enumerate_from 0 l
  = enumerate_from 0 (take i l) ++ (i, x) :: enumerate_from (S i) (drop (S i) l).
Proof.
  intros Hi. rewrite <- (take_drop_middle l i x Hi) at 1.
  rewrite enumerate_from_app. simpl.
  rewrite length_take_le by (apply lookup_lt_Some in Hi; lia). done.
Qed.

Section MissingPrefix.

Variable df : DataFrame.
Variable th : Thresholds.
Variable features_ordered : list string.
Variable index : nat.
Variable f : string.
Variable r : GroupRow.
Variable c0 : list (string * Value).

Hypothesis Hnd : NoDup features_ordered.
Hypothesis Hf : features_ordered !! index = Some f.
Hypothesis Hr : r ∈ collect_layer df th (take (index + 1) features_ordered).
Hypothesis Hc0 : feature_combination r (take index features_ordered) = Ok c0.
Hypothesis Hmiss :
  ∀ c, registered_upto df th features_ordered index c →
       node_hash c ≠ node_hash c0.

(** The keys of the registry are those of the layers up to the one of
    [r]. *)
Local Abbreviation keys_upto st :=
  (∀ h, has_key st h →
     ∃ c, registered_upto df th features_ordered index c ∧ h = node_hash c).

Lemma build_row_keys_upto i g d st1 st2 r' :
  i ≤ index → i < length features_ordered →
  r' ∈ collect_layer df th (take (i + 1) features_ordered) →
  keys_upto st1 →
  build_row th g (take (i + 1) features_ordered) d st1 r' = Ok st2 →
  keys_upto st2.
Proof.
  intros Hi Hlt Hr' IH Hrow h [n Hn].
  apply build_row_Ok_inv in Hrow
    as (v & c & p & hit & refusal & _ & _ & Hc & _ & _ & _ & _ & ->).
  simpl in Hn. apply lookup_insert_Some in Hn as [[<- _]|[_ Hn]].
  - exists c. split; [|done]. right. by exists i, r'.
  - apply IH. by exists n.
Qed.

Lemma layers_before_keys_upto st_layer :
  foldM_r (build_layer df th features_ordered) (build_init df)
          (enumerate_from 0 (take index features_ordered)) = Ok st_layer →
  keys_upto st_layer.
Proof.
  intros H. pose proof (lookup_lt_Some _ _ _ Hf) as Hlt.
  eapply (foldM_r_invariant _ (λ st, keys_upto st)); [exact H | |].
  - intros h [n Hn]. unfold build_init in Hn. simpl in Hn.
    apply lookup_singleton_Some in Hn as [<- _]. exists []. by split; [left|].
  - intros [i g] s1 s2 Hin Hs1 Hl.
    apply elem_of_enumerate_from in Hin as [_ Hg]. rewrite Nat.sub_0_r in Hg.
    apply lookup_lt_Some in Hg. rewrite length_take in Hg.
    unfold build_layer in Hl. simpl in Hl.
    eapply (foldM_r_invariant _ (λ st, keys_upto st)); [exact Hl | done |].
    intros r' s3 s4 Hr' Hs3 Hrow.
    eapply (build_row_keys_upto i); [lia | lia | done | done | done].
Qed.

Lemma rows_before_keys_upto st_layer rows_done rows_left st :
  collect_layer df th (take (index + 1) features_ordered)
    = rows_done ++ r :: rows_left →
  keys_upto st_layer →
  foldM_r (build_row th f (take (index + 1) features_ordered) (index + 1))
          st_layer rows_done = Ok st →
  keys_upto st.
Proof.
  intros Hrows Hs H. pose proof (lookup_lt_Some _ _ _ Hf) as Hlt.
  eapply (foldM_r_invariant _ (λ st, keys_upto st)); [exact H | done |].
  intros r' s1 s2 Hr' Hs1 Hrow.
  eapply (build_row_keys_upto index); [lia | lia | | done | done].
  rewrite Hrows. apply elem_of_app. by left.
Qed.

(** In a state with such keys the row [r] raises: [KeyError] for the
    key of its prefix when it has the current feature. *)
Lemma build_row_without_prefix st :
  keys_upto st →
  ∃ e, build_row th f (take (index + 1) features_ordered) (index + 1) st r
       = Raise e ∧
       ∀ v, row_get r f = Ok v → e = KeyError (node_hash c0).
Proof.
  intros Hkeys. pose proof (lookup_lt_Some _ _ _ Hf) as Hlt.
  assert (take (index + 1) features_ordered
          = take index features_ordered ++ [f]) as Htake
    by (rewrite Nat.add_1_r; by apply take_S_r).
  assert (f ∉ take index features_ordered) as Hfresh.
  { intros Hin. apply list_elem_of_lookup in Hin as [j Hj].
    pose proof (lookup_lt_Some _ _ _ Hj) as Hjlt. rewrite length_take in Hjlt.
    rewrite lookup_take_lt in Hj by lia.
    pose proof (NoDup_lookup _ _ _ _ Hnd Hj Hf). lia. }
  unfold build_row. destruct (row_get r f) as [v|e] eqn:Ev; simpl.
  - destruct (combination_snoc r _ f c0 v Hfresh Hc0 Ev) as [Hc Hparent].
    rewrite Htake, Hc. simpl. rewrite Hparent.
    destruct (node_registry st !! node_hash c0) as [p|] eqn:Ep; simpl.
    + destruct (Hkeys (node_hash c0)) as (c & Hreg & Heq); [by exists p|].
      symmetry in Heq. by apply Hmiss in Heq.
    + exists (KeyError (node_hash c0)). split; [done|]. done.
  - exists e. split; [done|]. intros v Hv. discriminate Hv.
Qed.

Lemma build_tree_without_prefix :
  (∃ e, build_tree df features_ordered th = Raise e) ∧
  ∀ st_layer rows_done rows_left st v,
    foldM_r (build_layer df th features_ordered) (build_init df)
            (enumerate_from 0 (take index features_ordered)) = Ok st_layer →
    collect_layer df th (take (index + 1) features_ordered)
      = rows_done ++ r :: rows_left →
    foldM_r (build_row th f (take (index + 1) features_ordered) (index + 1))
            st_layer rows_done = Ok st →
    row_get r f = Ok v →
    build_row th f (take (index + 1) features_ordered) (index + 1) st r
      = Raise (KeyError (node_hash c0)) ∧
    build_tree df features_ordered th = Raise (KeyError (node_hash c0)).
Proof.
  assert (∀ st_layer rows_done rows_left st e,
    foldM_r (build_layer df th features_ordered) (build_init df)
            (enumerate_from 0 (take index features_ordered)) = Ok st_layer →
    collect_layer df th (take (index + 1) features_ordered)
      = rows_done ++ r :: rows_left →
    foldM_r (build_row th f (take (index + 1) features_ordered) (index + 1))
            st_layer rows_done = Ok st →
    build_row th f (take (index + 1) features_ordered) (index + 1) st r
      = Raise e →
    build_tree df features_ordered th = Raise e) as Hraise.
  { intros st_layer rows_done rows_left st e H1 Hrows H2 H3.
    unfold build_tree. rewrite (enumerate_from_split _ _ _ Hf), foldM_r_app, H1.
    simpl. unfold build_layer at 1. simpl.
    rewrite Hrows, foldM_r_app, H2. simpl. by rewrite H3. }
  split.
  - unfold build_tree at 1.
    rewrite (enumerate_from_split _ _ _ Hf), foldM_r_app.
    destruct (foldM_r _ (build_init df) (enumerate_from 0 (take index _)))
      as [st_layer|e] eqn:E1; simpl; [|by exists e].
    unfold build_layer at 1. simpl.
    apply list_elem_of_split in Hr as (rows_done & rows_left & Hrows).
    rewrite Hrows, foldM_r_app.
    destruct (foldM_r _ st_layer rows_done) as [st|e] eqn:E2; simpl;
      [|by exists e].
    destruct (build_row_without_prefix st) as (e & He & _).
    { eapply rows_before_keys_upto; [done | | done].
      by apply layers_before_keys_upto. }
    rewrite He. simpl. by exists e.
  - intros st_layer rows_done rows_left st v H1 Hrows H2 Hv.
    destruct (build_row_without_prefix st) as (e & He & Hkey).
    { eapply rows_before_keys_upto; [done | | done].
      by apply layers_before_keys_upto. }
    rewrite (Hkey v Hv) in He. split; [done|]. by eapply Hraise.
Qed.

End MissingPrefix.

(** C3, as stated, fails: with the feature [a] given twice, the row of
    the second layer is attached to the root although no combination of
    the first layer is in the registry when it is added; the combination
    without the current feature is the empty one, whose key is the
    root's. *)
Lemma build_attaches_to_root_without_prefix :
  build_layer repeated_feature_df scenario_thresholds ["a"; "a"]
    (build_init repeated_feature_df) (0, "a")
  = Ok (build_init repeated_feature_df) ∧
  node_registry (build_init repeated_feature_df) !! node_hash [("a", VStr "x")]
  = None ∧
  ∃ t ps, build_tree repeated_feature_df ["a"; "a"] scenario_thresholds
          = Ok (t, ps) ∧
          edges t = [(0, 1)] ∧ depth_of t 1 = 2.
Proof.
  split; [vm_compute; reflexivity|]. split; [vm_compute; reflexivity|].
  eexists _, _. split; [vm_compute; reflexivity|]. split; vm_compute; reflexivity.
Qed.

(** C3, amended. With distinct feature names, take a row collected for
    the layer of depth [index + 1] whose combination in the features
    before the current one is not registered and has the key of no
    combination registered up to this layer.  Then the build returns no
    tree: it raises; and when the rows before this one have been added,
    the row raises [KeyError] for the key of that combination, and so
    does the build: the row is not skipped and no node is attached. *)
Theorem build_fails_without_parent (df : DataFrame)
    (features_ordered : list string) (th : Thresholds) (index : nat)
    (current_feature : string) (row : GroupRow)
    (prefix_values : list (string * Value)) :
  NoDup features_ordered →
  features_ordered !! index = Some current_feature →
  row ∈ collect_layer df th (take (index + 1) features_ordered) →
  feature_combination row (take index features_ordered) = Ok prefix_values →
  (∀ c, registered_upto df th features_ordered index c →
        node_hash c ≠ node_hash prefix_values) →
  (∃ e, build_tree df features_ordered th = Raise e) ∧
  ∀ st_layer rows_done rows_left st v,
    foldM_r (build_layer df th features_ordered) (build_init df)
            (enumerate_from 0 (take index features_ordered)) = Ok st_layer →
    collect_layer df th (take (index + 1) features_ordered)
      = rows_done ++ row :: rows_left →
    foldM_r (build_row th current_feature (take (index + 1) features_ordered)
                       (index + 1))
            st_layer rows_done = Ok st →
    row_get row current_feature = Ok v →
    build_row th current_feature (take (index + 1) features_ordered)
              (index + 1) st row
      = Raise (KeyError (node_hash prefix_values)) ∧
    build_tree df features_ordered th
      = Raise (KeyError (node_hash prefix_values)).
Proof. apply build_tree_without_prefix. Qed.

Lemma build_fails_without_parent_witness :
  build_tree inconsistent_df ["country"; "age_band"] scenario_thresholds
  = Raise (KeyError (node_hash [("country", VStr "A")])).
Proof.
  assert (∀ c, registered_upto inconsistent_df scenario_thresholds
                 ["country"; "age_band"] 1 c →
               node_hash c ≠ node_hash [("country", VStr "A")]) as Hmiss.
  { intros c [->|(i & r & Hi & _ & Hr & Hc)].
    - vm_compute. discriminate.
    - destruct i as [|[|i]]; [| |lia].
      + vm_compute in Hr. apply elem_of_nil in Hr. destruct Hr.
      + vm_compute in Hr. apply list_elem_of_singleton in Hr. subst r.
        vm_compute in Hc. injection Hc as <-. vm_compute. discriminate. }
  apply (proj2 (build_fails_without_parent inconsistent_df
    ["country"; "age_band"] scenario_thresholds 1 "age_band"
    (group [("country", VStr "A"); ("age_band", VStr "old")] 30 0 60)
    [("country", VStr "A")]
    ltac:(apply (bool_decide_unpack _); vm_compute; exact I)
    ltac:(vm_compute; reflexivity)
    ltac:(vm_compute; left)
    ltac:(vm_compute; reflexivity)
    Hmiss)
    (build_init inconsistent_df) [] [] (build_init inconsistent_df)
    (VStr "old")
    ltac:(vm_compute; reflexivity)
    ltac:(vm_compute; reflexivity)
    ltac:(vm_compute; reflexivity)
    ltac:(vm_compute; reflexivity)).
Defined.

(** * Part VII: from the DataFrame to the profiles *)

(** ** The nodes stand for the combinations of their rows *)

Lemma stands_for_values t x c :
  stands_for t x c → ∀ kv, kv ∈ c → kv.2 ≠ VNull.
Proof.
  induction 1 as [|p x c f v _ IH _ _ Hv]; intros kv Hkv.
  - by apply elem_of_nil in Hkv.
  - apply elem_of_app in Hkv as [Hkv|Hkv]; [by apply IH|].
    apply list_elem_of_singleton in Hkv as ->. done.
Qed.

(** Adding the node of a row and its edge keeps what the nodes stand
    for. *)
Lemma stands_for_add_row st a p x c :
  build_inv st →
  stands_for (b_tree st) x c →
  stands_for (add_edge (add_node (b_tree st) (S (current_node_number st)) a) p
                       (S (current_node_number st))) x c.
Proof.
  intros (Hids & Hedges & Hlt & _).
  set (k := current_node_number st) in *.
  assert (has_node (b_tree st) (S k) = false) as Hnew.
  { unfold has_node. apply bool_decide_eq_false_2. rewrite Hids.
    rewrite elem_of_seq. lia. }
  induction 1 as [|q y c f v _ IH He Hkey Hv]; [constructor|].
  apply (stands_for_child _ q); [done | | | done].
  - cbn [add_edge add_node edges]. case_bool_decide; [done|].
    apply elem_of_app. by left.
  - rewrite <- Hkey. unfold key_of.
    change (node_attrs (add_edge ?t ?u ?w) y) with (node_attrs t y).
    rewrite node_attrs_add_node_other; [done | done |].
    apply (list_elem_of_fmap_2 snd) in He. simpl in He. rewrite Hedges in He.
    apply elem_of_seq in He. lia.
Qed.

Lemma combination_last r l f c :
  f ∉ l → feature_combination r (l ++ [f]) = Ok c →
  ∃ c0 v, feature_combination r l = Ok c0 ∧ row_get r f = Ok v ∧
          c = c0 ++ [(f, v)] ∧ parent_combination c f = c0.
Proof.
  intros Hf H. pose proof H as H'. unfold feature_combination in H'.
  rewrite foldM_r_app in H'. inv_bind H'. simpl in H'. inv_bind H'.
  inv_bind Hx0.
  destruct (combination_snoc r l f x x1 Hf Hx Hx1) as [E Hp].
  rewrite E in H. inversion H; subst c. by exists x, x1.
Qed.

Section BuildStands.

Variable df : DataFrame.
Variable th : Thresholds.
Variable features_ordered : list string.
Hypothesis Hnd : NoDup features_ordered.
Hypothesis Hkeys : keys_distinct df th features_ordered.

Lemma build_row_stands index f r st1 st2 :
  features_ordered !! index = Some f →
  r ∈ collect_layer df th (take (index + 1) features_ordered) →
  nodes_stand_for_rows df th features_ordered st1 →
  build_row th f (take (index + 1) features_ordered) (index + 1) st1 r = Ok st2 →
  nodes_stand_for_rows df th features_ordered st2.
Proof.
  intros Hf Hr (Hinv & Hreg & Hnodes) Hrow.
  pose proof (build_row_inv _ _ _ _ _ _ _ Hrow Hinv) as Hinv2.
  pose proof (lookup_lt_Some _ _ _ Hf) as Hilt.
  assert (take (index + 1) features_ordered = take index features_ordered ++ [f])
    as Htake by (rewrite Nat.add_1_r; by apply take_S_r).
  assert (f ∉ take index features_ordered) as Hfresh.
  { intros Hin. apply list_elem_of_lookup in Hin as [j Hj].
    pose proof (lookup_lt_Some _ _ _ Hj) as Hjlt. rewrite length_take in Hjlt.
    rewrite lookup_take_lt in Hj by lia.
    pose proof (NoDup_lookup _ _ _ _ Hnd Hj Hf). lia. }
  apply build_row_Ok_inv in Hrow
    as (v & c & p & hit & refusal & Hv & Hnn & Hc & Ep & _ & _ & Hnode & ->).
  pose proof Hc as Hc'. rewrite Htake in Hc'.
  destruct (combination_last r _ f c Hfresh Hc')
    as (c0 & v' & Hc0 & Hv' & -> & Hparent).
  rewrite Hv in Hv'. inversion Hv'; subst v'. clear Hv'.
  rewrite Hparent in Ep.
  assert (stands_for (b_tree st1) p c0) as Hp.
  { destruct (Hreg _ _ Ep) as (c' & Hocc & Hh & Hst).
    rewrite (Hkeys c' c0) in Hst; [done | done | | done].
    right. exists index, f, r, (c0 ++ [(f, v)]). rewrite Hparent. auto. }
  destruct Hinv as (Hids & Hedges & Hlt & Hle).
  set (k := current_node_number st1) in *.
  set (a := row_node th (index + 1) f r) in *.
  assert (has_node (b_tree st1) (S k) = false) as Hnew.
  { unfold has_node. apply bool_decide_eq_false_2. rewrite Hids.
    rewrite elem_of_seq. lia. }
  assert (stands_for (add_edge (add_node (b_tree st1) (S k) a) p (S k)) (S k)
            (c0 ++ [(f, v)])) as Hnewnode.
  { apply (stands_for_child _ p); [| | | done].
    - by apply stands_for_add_row.
    - cbn [add_edge add_node edges]. case_bool_decide; [done|].
      apply elem_of_app. right. by left.
    - unfold key_of.
      change (node_attrs (add_edge ?t ?u ?w) (S k)) with (node_attrs t (S k)).
      rewrite node_attrs_add_node_new by done. by rewrite Hnode. }
  split; [done|]. cbn [b_tree node_registry]. split.
  - intros h n Hn. apply lookup_insert_Some in Hn as [[<- <-]|[_ Hn]].
    + exists (c0 ++ [(f, v)]). split; [|done].
      right. exists index, f, r, (c0 ++ [(f, v)]). auto.
    + destruct (Hreg _ _ Hn) as (c' & ? & ? & ?). exists c'.
      split; [done|]. split; [done|]. by apply stands_for_add_row.
  - intros x b Hb Hne.
    change (node_attrs (add_edge ?t ?u ?w) x) with (node_attrs t x) in Hb.
    destruct (decide (x = S k)) as [->|Hxk].
    + rewrite node_attrs_add_node_new in Hb by done. inversion Hb; subst b.
      by exists index, f, r, (c0 ++ [(f, v)]).
    + rewrite node_attrs_add_node_other in Hb by done.
      destruct (Hnodes _ _ Hb Hne) as (i & g & r' & c' & ? & ? & ? & ? & ?).
      exists i, g, r', c'. repeat split; try done. by apply stands_for_add_row.
Qed.

Lemma build_state_stands st :
  build_state df features_ordered th = Ok st →
  nodes_stand_for_rows df th features_ordered st.
Proof.
  intros H.
  apply (build_state_invariant (nodes_stand_for_rows df th features_ordered)
           df features_ordered th st H).
  - split; [apply build_init_inv|]. split.
    + intros h n Hn. unfold build_init in Hn. simpl in Hn.
      apply lookup_singleton_Some in Hn as [<- <-]. exists [].
      split; [by left|]. split; [done | constructor].
    + intros x a Ha Hne. unfold build_init, node_attrs in Ha. simpl in Ha.
      case_bool_decide; simpl in Ha; [congruence | done].
  - intros index f r st1 st2. apply build_row_stands.
Qed.

End BuildStands.

(** In a well-formed tree the keys on the way from the root to a node are
    the texts of the values of the combination the node stands for. *)
Lemma stands_for_path t x c :
  tree_ok t = true → stands_for t x c → ∀ path,
  chain t path → head path = Some 0 → last path = Some x →
  key_of t <$> tail path = feature_value_string <$> c.*2.
Proof.
  intros Hok. induction 1 as [|p x c f v _ IH He Hkey _]; intros path Hc Hh Hl.
  - destruct path as [|a [|b l]]; [done | done |]. exfalso.
    simpl in Hh. inversion Hh; subst a.
    pose proof (chain_NoDup t Hok _ Hc) as Hnd. apply NoDup_cons in Hnd as [Hn _].
    apply Hn. rewrite last_cons_cons in Hl. by apply last_Some_elem_of in Hl.
  - assert (x ≠ 0) as Hne
      by (intros ->; by apply (tree_ok_root_no_parent t Hok) in He).
    apply last_Some in Hl as [l' ->].
    destruct l' as [|a l'] using rev_ind.
    { simpl in Hh. congruence. }
    clear IHl'. rewrite <- app_assoc in Hc. simpl in Hc.
    assert (chain t (l' ++ [a]) ∧ (a, x) ∈ edges t) as [Hc' Hax].
    { clear -Hc. induction l' as [|y [|z l'] IH]; simpl in *.
      - by destruct Hc.
      - destruct Hc as [? [? _]]. done.
      - destruct Hc as [Hyz Hc]. destruct (IH Hc) as [? ?]. done. }
    assert (a = p) as -> by by eapply (tree_ok_unique_parent t Hok).
    assert (tail ((l' ++ [p]) ++ [x]) = tail (l' ++ [p]) ++ [x]) as ->
      by by destruct l'.
    rewrite fmap_app, (IH (l' ++ [p])); [| done | | by rewrite last_snoc].
    + rewrite !fmap_app. simpl. by rewrite Hkey.
    + by destruct l'.
Qed.

Lemma zip_combination (c : list (string * Value)) : ∀ fs,
  c.*1 = take (length c) fs →
  zip fs (feature_value_string <$> c.*2) = combination_features c.
Proof.
  induction c as [|[k v] c IH]; intros fs H; [by destruct fs|].
  destruct fs as [|g fs]; [done|].
  rewrite !fmap_cons in H. cbn [length take] in H. injection H as Hk Hc.
  unfold combination_features. rewrite !fmap_cons. cbn [zip_with fst snd].
  simpl in Hk. subst g. f_equal. by apply IH.
Qed.

(** The keys of the scenario are distinct. *)
Lemma scenario_keys_distinct :
  keys_distinct (scenario_df false) scenario_thresholds ["country"; "age_band"].
Proof.
  intros c1 c2 H1 H2.
  apply scenario_occurring_combinations in H1, H2.
  repeat (apply elem_of_cons in H1 as [->|H1]);
    [ | | | | apply elem_of_nil in H1; destruct H1];
    (repeat (apply elem_of_cons in H2 as [->|H2]);
      [ | | | | apply elem_of_nil in H2; destruct H2]);
    first [intros _; reflexivity | vm_compute; discriminate].
Qed.

(** X14. The run of the notebook, from the DataFrame to the profiles.
    When the feature names are distinct, no two combinations met by the
    build have the same key, [build_tree] returns a tree and [prune_tree]
    returns on it, then the depth filter and the exporter complete, and
    every exported profile is an aggregated group of the DataFrame on the
    first [d] features, with [d] between [min_depth_required] and the
    number of features: its features are these feature names with the
    texts of the group's values, none of them NULL; its size is the
    group's size, which is at least [minimal_groupsize]; its type is the
    one the rule gives to the group's averages and is not [inbetween];
    its percentages are the group's averages times 100 divided by 100;
    and its hit counts are the group's. *)
Theorem run_exports_large_typed_groups (set_order : list nat → list nat)
    (df : DataFrame) (features_ordered : list string) (th : Thresholds)
    (min_depth_required : nat) (t t1 : DiGraph)
    (ps : list string * Thresholds) (root_node_id : nat) :
  NoDup features_ordered → keys_distinct df th features_ordered →
  build_tree df features_ordered th = Ok (t, ps) →
  prune_tree set_order min_depth_required t = Some (Ok t1) →
  ∃ t2 profiles,
    filter_leaves_under_minimum_depth t1 min_depth_required 0 = Ok t2 ∧
    export_profiles_to_dict_from_tree t2 features_ordered root_node_id
      = Ok profiles ∧
    ∀ i prof, (i, prof) ∈ profiles →
      ∃ d r c hit refusal,
        min_depth_required ≤ d ≤ length features_ordered ∧
        r ∈ df_group_by_agg df (take d features_ordered) ∧
        (minimal_groupsize th ≤ group_size r)%Z ∧
        feature_combination r (take d features_ordered) = Ok c ∧
        (∀ kv, kv ∈ c → kv.2 ≠ VNull) ∧
        applicant_hit_percentage r = Some hit ∧
        g_refusal_percentage r = Some refusal ∧
        p_features prof = combination_features c ∧
        p_size prof = group_size r ∧
        p_type prof = profile_type_column th (Some hit) (Some refusal) ∧
        p_type prof ≠ inbetween ∧
        p_hit_percentage prof = (hit * 100 / 100)%float ∧
        p_refusal_percentage prof = (refusal * 100 / 100)%float ∧
        p_hit_counts prof = g_hit_counts r.
Proof.
  intros Hnd Hkeys Hbuild Hprune.
  assert (keys_tell_depths df th features_ordered) as Hkd.
  { intros c1 c2 H1 H2 Hh. by rewrite (Hkeys c1 c2). }
  assert (tree_ok t = true) as Hok.
  { pose proof (build_tree_edges_go_down df th features_ordered Hnd Hkd t ps
                  Hbuild) as Hdown.
    pose proof Hbuild as Hb. unfold build_tree in Hb. inv_bind Hb.
    inversion Hb; subst; clear Hb. apply build_inv_tree_ok; [|done].
    eapply build_layers_inv; [done | apply build_init_inv]. }
  pose proof (build_tree_stats_ok _ _ _ _ _ Hbuild) as Hst.
  pose proof Hbuild as Hstate. rewrite build_tree_build_state in Hstate.
  inv_bind Hstate. inversion Hstate; subst t ps. clear Hstate. rename x into st.
  destruct (build_state_stands df th features_ordered Hnd Hkeys st Hx)
    as (_ & _ & Hnodes).
  destruct (prune_filter_export_leaves set_order min_depth_required (b_tree st)
              t1 features_ordered root_node_id Hok Hst Hnd) as
    (t2 & profiles & H1 & H2 & H); [|done|].
  { intros x _. by eapply build_tree_depth_bound. }
  exists t2, profiles. split; [done|]. split; [done|].
  intros i prof Hin.
  destruct (H _ _ Hin)
    as (leaf & a & path & hit' & refusal' & counts & Hne & Ha & _ & _ & _ & Hty
        & Hm & Hc & Hhead & Hlast & Hh & Hr & Hcn & ->).
  destruct (Hnodes _ _ Ha Hne) as (index & f & r & c & Hf & Hrow & Hcomb & -> & Hstands).
  destruct (build_tree_rows_added _ _ _ _ _ _ _ _ Hbuild Hf Hrow)
    as (s1 & s2 & Hadd).
  apply build_row_Ok_inv in Hadd
    as (v & c' & p & hit & refusal & _ & _ & _ & _ & Ehit & Eref & Hnode & _).
  rewrite Hnode in *. simpl in Hh, Hr, Hcn, Hty, Hm.
  inversion Hh; subst hit'. inversion Hr; subst refusal'.
  inversion Hcn; subst counts. clear Hh Hr Hcn.
  pose proof (lookup_lt_Some _ _ _ Hf) as Hilt.
  assert (c.*1 = take (index + 1) features_ordered) as Hcols.
  { apply (combination_columns r); [|done].
    eapply sublist_NoDup; [exact Hnd | apply sublist_take]. }
  assert (length c = index + 1) as Hlen.
  { rewrite <- (length_fmap fst), Hcols, length_take. lia. }
  exists (index + 1), r, c, hit, refusal.
  unfold collect_layer in Hrow. rewrite merge_sort_Permutation in Hrow.
  apply list_elem_of_filter in Hrow as [Hsize Hrow].
  split; [lia|]. split; [done|]. split; [done|]. split; [done|].
  split; [by eapply stands_for_values|]. split; [done|]. split; [done|].
  split.
  { unfold profile_of. cbn [p_features].
    rewrite (stands_for_path _ _ _ Hok Hstands path Hc Hhead Hlast).
    apply zip_combination. by rewrite Hlen. }
  unfold profile_of. simpl. unfold row_profile_type in *.
  rewrite Ehit, Eref in *. done.
Qed.

Lemma run_exports_large_typed_groups_witness :
  ∃ t ps t1,
    build_tree (scenario_df false) ["country"; "age_band"] scenario_thresholds
      = Ok (t, ps) ∧
    prune_tree remove_dups 2 t = Some (Ok t1) ∧
    ∃ t2 profiles,
      filter_leaves_under_minimum_depth t1 2 0 = Ok t2 ∧
      export_profiles_to_dict_from_tree t2 ["country"; "age_band"] 0
        = Ok profiles ∧
      length profiles = 2 ∧
      ∀ i prof, (i, prof) ∈ profiles →
        ∃ d r c hit refusal,
          2 ≤ d ≤ 2 ∧
          r ∈ df_group_by_agg (scenario_df false)
                (take d ["country"; "age_band"]) ∧
          (50 ≤ group_size r)%Z ∧
          feature_combination r (take d ["country"; "age_band"]) = Ok c ∧
          (∀ kv, kv ∈ c → kv.2 ≠ VNull) ∧
          applicant_hit_percentage r = Some hit ∧
          g_refusal_percentage r = Some refusal ∧
          p_features prof = combination_features c ∧
          p_size prof = group_size r ∧
          p_type prof = profile_type_column scenario_thresholds
                          (Some hit) (Some refusal) ∧
          p_type prof ≠ inbetween ∧
          p_hit_percentage prof = (hit * 100 / 100)%float ∧
          p_refusal_percentage prof = (refusal * 100 / 100)%float ∧
          p_hit_counts prof = g_hit_counts r.
Proof.
  eexists _, _, _. split; [vm_compute; reflexivity|].
  split; [vm_compute; reflexivity|].
  destruct (run_exports_large_typed_groups remove_dups (scenario_df false)
              ["country"; "age_band"] scenario_thresholds 2 _ _ _ 0
              ltac:(apply (bool_decide_unpack _); vm_compute; exact I)
              scenario_keys_distinct
              ltac:(vm_compute; reflexivity)
              ltac:(vm_compute; reflexivity))
    as (t2 & profiles & H1 & H2 & H).
  exists t2, profiles. split; [exact H1|]. split; [exact H2|].
  split; [|exact H].
  vm_compute in H1. injection H1 as <-.
  vm_compute in H2. injection H2 as <-. reflexivity.
Defined.

(** X15. On every well-formed tree the depth filter, with root [0],
    completes: it raises none of [NodeNotFound], [NetworkXNoPath] and
    [NetworkXError], whatever the minimum depth, also when every profile
    is too shallow. *)
Theorem filter_completes_on_well_formed_tree (t : DiGraph)
    (min_depth_required : nat) :
  tree_ok t = true →
  ∃ t', filter_leaves_under_minimum_depth t min_depth_required 0 = Ok t'.
Proof. intros Hok. by apply filter_completes_tree. Qed.

Lemma filter_completes_on_well_formed_tree_witness :
  tree_ok tree_one_inbetween = true ∧
  ∃ t', filter_leaves_under_minimum_depth tree_one_inbetween 3 0 = Ok t'.
Proof.
  split; [reflexivity|].
  apply (filter_completes_on_well_formed_tree tree_one_inbetween 3). reflexivity.
Defined.
